(** * texture: the bag-of-words corpus and its chunking engine

    A shallow embedding of [corpora/bowcorpus.py], [corpora/texts/chunkcorpus.py]
    and of the default tokenizer of [nlp/tokenize.py]; and, for the further
    properties at the end, of [nlp/roman_numerals.py], [nlp/match.py], the
    query of [corpora/texts/dramacorpus.py] and the command line of
    [config/cliparse.py].

    The sources are Python 3 ([list(range(..))], [list(zip(..))],
    [print((..))]): [/] is true division and always yields a float, a
    sequence cannot be multiplied by a float, and a slice refuses float
    bounds.  Exceptions are values of [exn]; an object is a record that is
    threaded through its methods, and a method that raises keeps the
    mutations it made before raising. *)

From Stdlib Require Import ZArith Ascii String DecimalString PrimFloat FloatOps SpecFloat Uint63 Lia.
From stdpp Require Import base option list.

Local Open Scope string_scope.
Local Open Scope list_scope.
Local Open Scope Z_scope.

(** ** Python values, exceptions and the object monad *)

Module Py.

(** The exceptions the modelled code can raise.  [ConfigurationError] is the
    failure the specification names; no statement of the sources raises it. *)
Inductive exn : Set :=
| NameError | UnboundLocalError | AttributeError | TypeError | ValueError
| IndexError | OverflowError | IOError | SystemExit | ConfigurationError.

Inductive res (A : Type) : Type :=
| Ok (a : A)
| Raise (e : exn).
Arguments Ok {A} a.
Arguments Raise {A} e.

(** A method of an object with state [S]: it returns or raises, and always
    leaves a state behind. *)
Definition M (S A : Type) : Type := S -> res A * S.

Definition ret {S A} (a : A) : M S A := fun s => (Ok a, s).
Definition raise {S A} (e : exn) : M S A := fun s => (Raise e, s).
Definition bind {S A B} (m : M S A) (k : A -> M S B) : M S B :=
  fun s => match m s with
           | (Ok a, s') => k a s'
           | (Raise e, s') => (Raise e, s')
           end.
Definition gets {S A} (f : S -> A) : M S A := fun s => (Ok (f s), s).
Definition modify {S} (f : S -> S) : M S unit := fun s => (Ok tt, f s).
Definition lift_res {S A} (r : res A) : M S A := fun s => (r, s).
Definition when {S} (b : bool) (m : M S unit) : M S unit :=
  if b then m else ret tt.

(** What a generator has produced when it stops: the pairs it yielded and
    the exception that ended it, if one did. *)
Definition gen (O : Type) : Type := (list O * option exn)%type.

(** [for i in idxs: body(i)], each body yielding some values. *)
Fixpoint gen_loop {S O} (body : nat -> S -> gen O * S) (idxs : list nat) (s : S)
  : gen O * S :=
  match idxs with
  | [] => (([], None), s)
  | i :: rest =>
      match body i s with
      | ((o, Some e), s1) => ((o, Some e), s1)
      | ((o, None), s1) =>
          match gen_loop body rest s1 with
          | ((o', e'), s2) => ((o ++ o', e'), s2)
          end
      end
  end.

(** Floats are IEEE binary64, as Python's.  [float_of_Z n] is the float
    nearest to the int [n], ties to even: it is [float(n)] for every int in
    the range of the floats, and infinity past it, where Python raises
    instead ([float_of_int]). *)
Definition float_of_Z (z : Z) : float :=
  SF2Prim (binary_normalize prec emax z 0 false).

(** The least int that rounds past the largest float (which is
    [2^1024 - 2^971]). *)
Definition float_limit : Z := 2 ^ 1024 - 2 ^ 970.
Arguments float_limit : simpl never.

(** [float(n)], and the conversion of an int operand next to a float one
    ([x * n]): "int too large to convert to float" from [float_limit] on. *)
Definition float_of_int (z : Z) : res float :=
  if float_limit <=? Z.abs z then Raise OverflowError
  else Ok (float_of_Z z).
Arguments float_of_int : simpl never.

(** [int(f)]: truncation towards zero; [int(nan)] and [int(inf)] raise. *)
Definition int_of_float (f : float) : res Z :=
  match Prim2SF f with
  | S754_zero _ => Ok 0
  | S754_finite s m e =>
      let a := if 0 <=? e then Z.shiftl (Zpos m) e else Z.shiftr (Zpos m) (- e) in
      Ok (if s then - a else a)
  | S754_infinity _ => Raise OverflowError
  | S754_nan => Raise ValueError
  end.

(** The values a chunking parameter can hold. *)
Inductive pyval : Set :=
| VNone
| VBool (b : bool)
| VInt (z : Z)
| VFloat (f : float).

(** [x == None] *)
Definition is_none (v : pyval) : bool :=
  match v with VNone => true | _ => false end.

(** [if x:] *)
Definition truthy (v : pyval) : bool :=
  match v with
  | VNone => false
  | VBool b => b
  | VInt z => negb (z =? 0)
  | VFloat f => negb (PrimFloat.eqb f PrimFloat.zero)
  end.

(** [old if new == None else new] *)
Definition keep_or (old new : pyval) : pyval :=
  if is_none new then old else new.

(** The integer a non-float value stands for in arithmetic ([True] is [1]);
    [None] is Python's [None], on which arithmetic raises. *)
Definition int_like (v : pyval) : option Z :=
  match v with
  | VInt z => Some z
  | VBool b => Some (Z.b2z b)
  | _ => None
  end.

(** A number that is an [int] or a [float], with Python's mixed arithmetic. *)
Inductive num : Set :=
| NInt (z : Z)
| NFloat (f : float).

(** The ints of this arithmetic are positions in a text, far below
    [float_limit]. *)
Definition to_float (n : num) : float :=
  match n with NInt z => float_of_Z z | NFloat f => f end.

Definition num_add (a b : num) : num :=
  match a, b with
  | NInt x, NInt y => NInt (x + y)
  | _, _ => NFloat (PrimFloat.add (to_float a) (to_float b))
  end.

Definition num_mul (a b : num) : num :=
  match a, b with
  | NInt x, NInt y => NInt (x * y)
  | _, _ => NFloat (PrimFloat.mul (to_float a) (to_float b))
  end.

(** [a / b] on two ints with [b <> 0]: a float.  Python rounds the exact
    quotient once; that is the quotient of the two floats when both ints are
    floats themselves, as the lengths and counts divided below are (up to
    [2^53]). *)
Definition true_div (a b : Z) : float :=
  PrimFloat.div (float_of_Z a) (float_of_Z b).

(** [a / b] on two ints with [b <> 0] raises "integer division result too
    large for a float" when the quotient rounds past the largest float. *)
Definition true_div_overflows (a b : Z) : bool :=
  float_limit * Z.abs b <=? Z.abs a.
Arguments true_div_overflows : simpl never.

(** [list(range(start, stop, step))] *)
Definition range (start stop step : Z) : res (list Z) :=
  if step =? 0 then Raise ValueError
  else
    let count :=
      if 0 <? step then (stop - start + step - 1) / step
      else (start - stop - step - 1) / (- step) in
    Ok (map (fun k => start + Z.of_nat k * step) (seq 0 (Z.to_nat count))).

(** [enumerate(l)] *)
Definition enumerate {A} (l : list A) : list (Z * A) :=
  imap (fun i a => (Z.of_nat i, a)) l.

(** The bound of a slice, brought into [0 .. len]. *)
Definition clamp_index (len i : Z) : Z :=
  if i <? 0 then Z.max (i + len) 0 else Z.min i len.

(** [l[start:stop]] on int bounds. *)
Definition slice {A} (l : list A) (start stop : Z) : list A :=
  let n := Z.of_nat (length l) in
  let a := clamp_index n start in
  let b := clamp_index n stop in
  take (Z.to_nat (b - a)) (drop (Z.to_nat a) l).

(** [l[start:stop]] on the bounds a boundary list can hold. *)
Definition slice_num {A} (l : list A) (start stop : num) : res (list A) :=
  match start, stop with
  | NInt a, NInt b => Ok (slice l a b)
  | _, _ => Raise TypeError
  end.

(** ['%04d' % n] for [n >= 0]: decimal digits, zero-padded to four. *)
Definition fmt_04d (n : nat) : string :=
  let d := NilZero.string_of_uint (Nat.to_uint n) in
  (String.concat "" (repeat "0" (4 - String.length d)%nat) ++ d)%string.

(** ['%s_%04d' % (label, n)] *)
Definition fmt_label (label : string) (n : nat) : string :=
  (label ++ "_" ++ fmt_04d n)%string.

(** [w in ws] on a list (or set) of words. *)
Definition elem (w : string) (ws : list string) : bool :=
  existsb (String.eqb w) ws.

End Py.

Export Py.

Notation "'let*' x ':=' m 'in' k" := (bind m (fun x => k))
  (at level 10, x pattern, m at level 100, k at level 200).
Notation "m ';;' k" := (bind m (fun _ => k))
  (at level 100, k at level 200, right associativity).

(** ** nlp/tokenize.py: the default tokenizer *)

Module Tokenize.

(** [\w] of the regex module.  Exact on ASCII text; a byte above 127 (part
    of an encoded non-ASCII letter) is counted as a word character. *)
Definition is_word_char (c : ascii) : bool :=
  let n := nat_of_ascii c in
  ((48 <=? n) && (n <=? 57) || (65 <=? n) && (n <=? 90)
   || (97 <=? n) && (n <=? 122) || (n =? 95) || (128 <=? n))%nat.

(** The characters [str.split()] splits on. *)
Definition is_space (c : ascii) : bool :=
  let n := nat_of_ascii c in
  ((n =? 32) || (9 <=? n) && (n <=? 13) || (28 <=? n) && (n <=? 31))%nat.

(** [re.compile('[^\w]+').sub(' ', sent)]: every maximal run of non-word
    characters becomes one space.  [in_run] tells that the previous
    character was already part of the run being replaced. *)
Fixpoint sub_nonword (in_run : bool) (sent : string) : string :=
  match sent with
  | EmptyString => EmptyString
  | String c rest =>
      if is_word_char c then String c (sub_nonword false rest)
      else if in_run then sub_nonword true rest
      else String " " (sub_nonword true rest)
  end.

Definition lower_char (c : ascii) : ascii :=
  let n := nat_of_ascii c in
  if ((65 <=? n) && (n <=? 90))%nat then ascii_of_nat (n + 32) else c.

(** [sent.lower()], on ASCII letters. *)
Fixpoint lower (s : string) : string :=
  match s with
  | EmptyString => EmptyString
  | String c rest => String (lower_char c) (lower rest)
  end.

(** [sent.split()]: the maximal runs of non-space characters.  [cur] is the
    word being read. *)
Fixpoint split (cur : string) (s : string) : list string :=
  match s with
  | EmptyString => match cur with EmptyString => [] | _ => [cur] end
  | String c rest =>
      if is_space c then
        match cur with
        | EmptyString => split EmptyString rest
        | _ => cur :: split EmptyString rest
        end
      else split (cur ++ String c EmptyString)%string rest
  end.

(** A [Tokenize] object with [ngrams = 1] and [keep_sentences = False], the
    defaults; a supplied word tokenizer is a function. *)
Record obj : Type := mk {
  sent_tokenizer : option (string -> list string);
  word_tokenizer : option (string -> list string);
  lowercase : bool
}.

(** [Tokenize()] *)
Definition init : obj :=
  {| sent_tokenizer := None; word_tokenizer := None; lowercase := true |}.

Section WithNltk.

(** [nltk.sent_tokenize], the sentence splitter of the nltk package. *)
Variable nltk_sent_tokenize : string -> list string.

Definition sent_tokenize (self : obj) (text : string) : list string :=
  match sent_tokenizer self with
  | Some f => f text
  | None => nltk_sent_tokenize text
  end.

Definition word_tokenize (self : obj) (sent : string) : list string :=
  match word_tokenizer self with
  | Some f => f sent
  | None =>
      let sent := sub_nonword false sent in
      let sent := if lowercase self then lower sent else sent in
      split EmptyString sent
  end.

Definition tokenize (self : obj) (text : string) : list string :=
  flat_map (word_tokenize self) (sent_tokenize self text).

End WithNltk.

End Tokenize.

(** ** corpora/bowcorpus.py: the corpus store *)

Module BOWCorpus.

(** A text is a single string or a list of tokens. *)
Inductive content : Type :=
| CStr (s : string)
| CToks (ws : list string).

(** [isinstance(t, list)] *)
Definition is_list (c : content) : bool :=
  match c with CToks _ => true | CStr _ => false end.

(** [len(t)] *)
Definition len (c : content) : nat :=
  match c with CToks ws => length ws | CStr s => String.length s end.

(** The items of a text when it is iterated: tokens, or one-character strings. *)
Definition items (c : content) : list string :=
  match c with
  | CToks ws => ws
  | CStr s => map (fun ch => String ch EmptyString) (list_ascii_of_string s)
  end.

(** The object.  [texts] is [None] until [fit]; [in_memory] and [tokenized]
    are the scalar [False] until [fit] ([None] here) and lists afterwards;
    [n_tokens] does not exist until [fit] ([None] here).  An entry of
    [tokenized] is [None], [True] or [False].  [opened] is not an attribute:
    it records, oldest first, the paths [open] was called with. *)
Record obj : Type := mk {
  texts : option (list (string * content));
  filenames : bool;
  in_memory : option (list bool);
  tokenized : option (list (option bool));
  n_tokens : option (list (option nat));
  tokenize : option bool;
  tokenizer : string -> list string;
  stopwords : option (list string);
  gowords : option (list string);
  keep_in_memory : bool;
  opened : list string
}.

Definition with_texts v (c : obj) : obj :=
  mk v (filenames c) (in_memory c) (tokenized c) (n_tokens c) (tokenize c)
     (tokenizer c) (stopwords c) (gowords c) (keep_in_memory c) (opened c).
Definition with_filenames v (c : obj) : obj :=
  mk (texts c) v (in_memory c) (tokenized c) (n_tokens c) (tokenize c)
     (tokenizer c) (stopwords c) (gowords c) (keep_in_memory c) (opened c).
Definition with_in_memory v (c : obj) : obj :=
  mk (texts c) (filenames c) v (tokenized c) (n_tokens c) (tokenize c)
     (tokenizer c) (stopwords c) (gowords c) (keep_in_memory c) (opened c).
Definition with_tokenized v (c : obj) : obj :=
  mk (texts c) (filenames c) (in_memory c) v (n_tokens c) (tokenize c)
     (tokenizer c) (stopwords c) (gowords c) (keep_in_memory c) (opened c).
Definition with_n_tokens v (c : obj) : obj :=
  mk (texts c) (filenames c) (in_memory c) (tokenized c) v (tokenize c)
     (tokenizer c) (stopwords c) (gowords c) (keep_in_memory c) (opened c).
Definition with_opened v (c : obj) : obj :=
  mk (texts c) (filenames c) (in_memory c) (tokenized c) (n_tokens c) (tokenize c)
     (tokenizer c) (stopwords c) (gowords c) (keep_in_memory c) v.

(** [attr[i]] for [i >= 0]; [absent] is raised when the attribute is not a
    list. *)
Definition item {S A} (absent : exn) (attr : S -> option (list A)) (i : nat)
  : M S A :=
  fun s => match attr s with
           | None => (Raise absent, s)
           | Some l => match l !! i with
                       | Some a => (Ok a, s)
                       | None => (Raise IndexError, s)
                       end
           end.

(** [attr[i] = v] for [i >= 0]. *)
Definition set_item {S A} (absent : exn) (attr : S -> option (list A))
    (upd : option (list A) -> S -> S) (i : nat) (v : A) : M S unit :=
  fun s => match attr s with
           | None => (Raise absent, s)
           | Some l => if decide (i < length l)%nat
                       then (Ok tt, upd (Some (<[i:=v]> l)) s)
                       else (Raise IndexError, s)
           end.

(** [BOWCorpus()]; [default_tokenizer] is [Tokenize().tokenize]. *)
Definition init (default_tokenizer : string -> list string) : obj :=
  {| texts := None; filenames := false; in_memory := None; tokenized := None;
     n_tokens := None; tokenize := None; tokenizer := default_tokenizer;
     stopwords := None; gowords := None; keep_in_memory := false;
     opened := [] |}.

(** The keyword arguments of [set_params]; [None] is an argument left out
    (or passed as [None]). *)
Record kwargs : Type := mk_kwargs {
  kw_tokenize : option bool;
  kw_tokenizer : option (string -> list string);
  kw_stopwords : option (list string);
  kw_gowords : option (list string);
  kw_keep_in_memory : option bool
}.

Definition no_kwargs : kwargs := mk_kwargs None None None None None.

Definition set_params (kw : kwargs) : M obj unit :=
  modify (fun self =>
    {| texts := texts self; filenames := filenames self;
       in_memory := in_memory self; tokenized := tokenized self;
       n_tokens := n_tokens self;
       tokenize := match kw_tokenize kw with
                   | None => tokenize self | Some b => Some b end;
       tokenizer := match kw_tokenizer kw with
                    | None => tokenizer self | Some f => f end;
       stopwords := match kw_stopwords kw with
                    | None => stopwords self | Some ws => Some ws end;
       gowords := match kw_gowords kw with
                  | None => gowords self | Some ws => Some ws end;
       keep_in_memory := match kw_keep_in_memory kw with
                         | None => keep_in_memory self | Some b => b end;
       opened := opened self |}).

(** [if self.stopwords:] and [if self.gowords:]: set and not empty. *)
Definition configured (ws : option (list string)) : option (list string) :=
  match ws with
  | Some (w :: r) => Some (w :: r)
  | _ => None
  end.

Definition tokenize_preprocess (i : nat) (l : string) (t : content)
  : M obj content :=
  let* tk := item TypeError tokenized i in
  let* t :=
    match tk with
    | Some true => ret t
    | _ =>
        (* the tokenizer takes a string *)
        match t with
        | CStr s =>
            let* f := gets tokenizer in
            let toks := f s in
            set_item AttributeError n_tokens with_n_tokens i (Some (length toks));;
            ret (CToks toks)
        | CToks _ => raise TypeError
        end
    end in
  let* sw := gets stopwords in
  let t := match configured sw with
           | Some sw => CToks (filter (fun w => negb (elem w sw)) (items t))
           | None => t
           end in
  let* gw := gets gowords in
  let t := match configured gw with
           | Some gw => CToks (filter (fun w => elem w gw) (items t))
           | None => t
           end in
  ret t.

(** "Deduce whether the text is tokenized the first time we encounter it" *)
Definition deduce_tokenized (i : nat) (t : content) : M obj unit :=
  let* tk := item TypeError tokenized i in
  match tk with
  | None =>
      if is_list t then
        set_item TypeError tokenized with_tokenized i (Some true);;
        set_item AttributeError n_tokens with_n_tokens i (Some (len t))
      else
        set_item TypeError tokenized with_tokenized i (Some false)
  | Some _ => ret tt
  end.

(** "Tokenize if necessary": tokenize when [tokenize] is [True], keep the
    text when it is unset, join the tokens of a tokenized text when it is
    [False]. *)
Definition apply_tokenize (i : nat) (l : string) (t : content) : M obj content :=
  let* mode := gets tokenize in
  match mode with
  | Some true => tokenize_preprocess i l t
  | None => ret t
  | Some false =>
      let* tk := item TypeError tokenized i in
      match tk with
      | Some true => ret (CStr (String.concat " " (items t)))
      | _ => ret t
      end
  end.

(** "Keep the text in memory if set" *)
Definition retain (i : nat) (l : string) (t : content) : M obj unit :=
  let* keep := gets keep_in_memory in
  if keep then
    let* im := item TypeError in_memory i in
    if im then ret tt
    else
      set_item TypeError texts with_texts i (l, t);;
      set_item TypeError in_memory with_in_memory i true
  else ret tt.

Section WithFiles.

(** The file system: the text of the file at a path, if it can be read. *)
Variable disk : string -> option string.

(** [open(t, 'r', ...).read()] *)
Definition open_read (t : content) : M obj content :=
  match t with
  | CToks _ => raise TypeError
  | CStr path =>
      modify (fun self => with_opened (opened self ++ [path]) self);;
      match disk path with
      | Some s => ret (CStr s)
      | None => raise IOError
      end
  end.

Definition process_text (i : nat) (l : string) (t : content)
  : M obj (string * content) :=
  let* fn := gets filenames in
  let* t := if fn then open_read t else ret t in
  deduce_tokenized i t;;
  let* t := apply_tokenize i l t in
  retain i l t;;
  ret (l, t).

(** [self.texts[i]] *)
Definition text_at (i : nat) : M obj (string * content) :=
  item TypeError texts i.

(** One round of the loop of [__iter__], and [__getitem__] on an int key. *)
Definition getitem (key : nat) : M obj (string * content) :=
  let* (l, t) := text_at key in
  process_text key l t.

(** A call that may raise, as the body of a generator that yields its
    result. *)
Definition yield_one {S O} (m : M S O) : S -> gen O * S :=
  fun s => match m s with
           | (Ok o, s') => (([o], None), s')
           | (Raise e, s') => (([], Some e), s')
           end.

(** [__iter__], run to its end. *)
Definition iter (self : obj) : gen (string * content) * obj :=
  match texts self with
  | None => (([], Some TypeError), self)
  | Some l => gen_loop (fun i => yield_one (getitem i)) (seq 0 (length l)) self
  end.

(** What [fit] can be given: a dict (its items in insertion order), a list
    of (label, text) or (label, filename) tuples, a list of filenames, or
    one path with wildcards.  (Another corpus or generator, which [fit]
    trusts as it is, is left out.) *)
Inductive source : Type :=
| SrcDict (d : list (string * content))
| SrcPairs (l : list (string * content))
| SrcNames (l : list string)
| SrcPattern (p : string).

(** The argument once a dict has been turned into a list of tuples. *)
Inductive shape : Type :=
| Str (p : string)
| Tuples (l : list (string * content))
| Strings (l : list string).

Definition to_shape (src : source) : shape :=
  match src with
  | SrcDict d => Tuples d
  | SrcPairs l => Tuples l
  | SrcNames l => Strings l
  | SrcPattern p => Str p
  end.

(** [len(texts)] *)
Definition shape_len (sh : shape) : nat :=
  match sh with
  | Str p => String.length p
  | Tuples l => length l
  | Strings l => length l
  end.

(** [os.path.split(f)[1]]: what follows the last slash.  [cur] is the
    segment being read. *)
Fixpoint basename (cur : string) (f : string) : string :=
  match f with
  | EmptyString => cur
  | String c rest =>
      if Ascii.eqb c "/" then basename EmptyString rest
      else basename (cur ++ String c EmptyString)%string rest
  end.

(** [glob.glob]: the paths a pattern matches. *)
Variable glob : string -> list string.

(** [texts[0]] is read before the labels are made. *)
Definition fit_labels (names : list string) : M obj (list (string * content)) :=
  match names with
  | [] => raise IndexError
  | _ => ret (map (fun f => (basename EmptyString f, CStr f)) names)
  end.

(** The branch of [fit] for filenames. *)
Definition fit_filenames (sh : shape) : M obj unit :=
  modify (with_filenames true);;
  let* texts :=
    match sh with
    | Str p => fit_labels (glob p)
    | Strings l => fit_labels l
    | Tuples [] => raise IndexError
    | Tuples l => ret l
    end in
  let n := length texts in
  modify (with_in_memory (Some (replicate n false)));;
  modify (with_tokenized (Some (replicate n (Some false))));;
  modify (with_n_tokens (Some (replicate n None)));;
  modify (with_texts (Some texts)).

(** The branch of [fit] for texts that are given. *)
Definition fit_texts (l : list (string * content)) : M obj unit :=
  let n := length l in
  modify (with_in_memory (Some (replicate n true)));;
  modify (with_tokenized (Some (replicate n None)));;
  modify (with_n_tokens (Some (replicate n None)));;
  modify (with_texts (Some l)).

(** [fit(texts, filenames)].  A string, or a list of strings, is taken for
    filenames also when [filenames] is [False]. *)
Definition fit (src : source) (fnames : bool) : M obj unit :=
  let sh := to_shape src in
  if (shape_len sh =? 0)%nat then raise SystemExit
  else
    match sh, fnames with
    | Tuples l, false => fit_texts l
    | _, _ => fit_filenames sh
    end.

End WithFiles.

(** [__len__] *)
Definition len_texts (self : obj) : res nat :=
  match texts self with
  | None => Raise TypeError
  | Some l => Ok (length l)
  end.

(** [get_labels] *)
Definition get_labels (self : obj) : res (list string) :=
  match texts self with
  | None => Raise TypeError
  | Some l => Ok (map fst l)
  end.

(** A slice [start:stop:step] whose parts are left out ([None]) or ints
    that are not negative. *)
Record slice_key : Type := mk_slice {
  key_start : option nat;
  key_stop : option nat;
  key_step : option nat
}.

(** [x if x else d]: a part that is left out or 0 is replaced. *)
Definition or_else (x : option nat) (d : nat) : nat :=
  match x with
  | Some (S k) => S k
  | _ => d
  end.

Section Slices.

Variable disk : string -> option string.

(** [__getitem__] on a slice, run to its end: the texts at
    [range(start, stop, step)], each read with [self.texts[i]]. *)
Definition getitem_slice (key : slice_key) (self : obj)
  : gen (string * content) * obj :=
  let start := or_else (key_start key) 0 in
  match (match key_stop key with
         | Some (S k) => Ok (S k)
         | _ => len_texts self
         end) with
  | Raise e => (([], Some e), self)
  | Ok stop =>
      let step := or_else (key_step key) 1 in
      match range (Z.of_nat start) (Z.of_nat stop) (Z.of_nat step) with
      | Raise e => (([], Some e), self)
      | Ok idxs =>
          gen_loop (fun i => yield_one (getitem disk i)) (map Z.to_nat idxs) self
      end
  end.

End Slices.

End BOWCorpus.

(** ** corpora/texts/chunkcorpus.py: the chunking engine *)

Module ChunkCorpus.

Import BOWCorpus.

(** The (start, stop) pairs of a text that has been chunked. *)
Definition bounds : Type := list (num * num).

(** The object: a [BOWCorpus] with the chunking parameters.  [chunkindices]
    does not exist until [fit] ([None] here); an entry is [None] until the
    text has been chunked. *)
Record obj : Type := mk {
  base : BOWCorpus.obj;
  chunksize : pyval;
  nchunks : pyval;
  overlap : pyval;
  roundedsize : pyval;
  minsize : pyval;
  upscale : pyval;
  chunkindices : option (list (option bounds))
}.

Definition with_base v (c : obj) : obj :=
  mk v (chunksize c) (nchunks c) (overlap c) (roundedsize c) (minsize c)
     (upscale c) (chunkindices c).
Definition with_chunkindices v (c : obj) : obj :=
  mk (base c) (chunksize c) (nchunks c) (overlap c) (roundedsize c) (minsize c)
     (upscale c) v.

(** A method of the parent class, run on this object. *)
Definition super {A} (m : M BOWCorpus.obj A) : M obj A :=
  fun self => match m (base self) with (r, b) => (r, with_base b self) end.

(** The chunking arguments of [set_params]; [VNone] is an argument left
    out. *)
Record params : Type := mk_params {
  p_chunksize : pyval;
  p_nchunks : pyval;
  p_overlap : pyval;
  p_roundedsize : pyval;
  p_minsize : pyval;
  p_upscale : pyval
}.

Definition no_params : params := mk_params VNone VNone VNone VNone VNone VNone.

(** [self.chunkindices = [None] * len(self.texts)] *)
Definition reset_chunkindices : M obj unit :=
  let* texts := gets (fun self => texts (base self)) in
  match texts with
  | None => raise TypeError
  | Some l => modify (with_chunkindices (Some (replicate (length l) None)))
  end.

Definition set_params (p : params) (kw : kwargs) : M obj unit :=
  modify (fun self =>
    {| base := base self;
       chunksize := keep_or (chunksize self) (p_chunksize p);
       nchunks := keep_or (nchunks self) (p_nchunks p);
       overlap := keep_or (overlap self) (p_overlap p);
       roundedsize :=
         if is_none (p_roundedsize p) then roundedsize self else p_overlap p;
       minsize := keep_or (minsize self) (p_minsize p);
       upscale := keep_or (upscale self) (p_upscale p);
       chunkindices := chunkindices self |});;
  when (truthy (p_chunksize p) || truthy (p_nchunks p) || truthy (p_overlap p)
        || truthy (p_roundedsize p) || truthy (p_minsize p)
        || truthy (p_upscale p))
       reset_chunkindices;;
  super (BOWCorpus.set_params kw).

(** [ChunkCorpus()] *)
Definition init (default_tokenizer : string -> list string) : obj :=
  let self :=
    {| base := BOWCorpus.init default_tokenizer;
       chunksize := VFloat PrimFloat.one;
       nchunks := VNone;
       overlap := VInt 0;
       roundedsize := VBool false;
       minsize := VBool false;
       upscale := VBool false;
       chunkindices := None |} in
  snd (set_params no_params
         (mk_kwargs (Some true) None None None None) self).

Definition fit (glob : string -> list string) (src : source) (fnames : bool)
  : M obj unit :=
  super (BOWCorpus.fit glob src fnames);;
  reset_chunkindices.

(** The chunk size of a text of [text_len > 0] items; [None] is Python's
    [None].  The branch for [nchunks] reads a name that is not bound.  In
    [text_len * self.chunksize] the int is converted to a float first. *)
Definition resolve_chunksize (self : obj) (text_len : Z) : res (option Z) :=
  if truthy (nchunks self) then Raise NameError
  else
    match chunksize self with
    | VFloat f =>
        match float_of_int text_len with
        | Ok l =>
            match int_of_float (PrimFloat.mul l f) with
            | Ok z => Ok (Some z)
            | Raise e => Raise e
            end
        | Raise e => Raise e
        end
    | v => Ok (int_like v)
    end.

(** The overlap.  In [self.overlap * chunksize] the chunk size, an int of
    any size, is converted to a float first, which raises when it is too
    large for one. *)
Definition resolve_overlap (self : obj) (chunksize : option Z)
  : res (option Z) :=
  match overlap self with
  | VFloat f =>
      match chunksize with
      | None => Raise TypeError
      | Some c =>
          match float_of_int c with
          | Ok x =>
              match int_of_float (PrimFloat.mul f x) with
              | Ok z => Ok (Some z)
              | Raise e => Raise e
              end
          | Raise e => Raise e
          end
      end
  | v => Ok (int_like v)
  end.

(** The rounding of [chunk_text]: the words left over after the last chunk
    are spread over the chunks.  [to_add] is a float. *)
Definition spread (text_len : Z) (starts stops : list Z) : res bounds :=
  match last stops with
  | None => Raise IndexError
  | Some final =>
      let n_leftover := text_len - final in
      let n := Z.of_nat (length starts) in
      let to_add := true_div n_leftover n in
      let starts := map NInt starts in
      let stops := map NInt stops in
      let (starts, stops) :=
        if truthy (VFloat to_add) then
          (map (fun '(i, s) => num_add s (num_mul (NInt i) (NFloat to_add)))
               (enumerate starts),
           map (fun '(i, s) => num_add s (num_mul (NInt (i + 1)) (NFloat to_add)))
               (enumerate stops))
        else (starts, stops) in
      let n_leftover := n_leftover mod n in
      let (starts, stops) :=
        if negb (n_leftover =? 0) then
          (map (fun '(i, s) => if i <? n_leftover then num_add s (NInt (i * 1))
                               else num_add s (NInt n_leftover))
               (enumerate starts),
           map (fun '(i, s) => if i <? n_leftover then num_add s (NInt ((i + 1) * 1))
                               else num_add s (NInt n_leftover))
               (enumerate stops))
        else (starts, stops) in
      Ok (zip starts stops)
  end.

(** Conventional chunking: the boundaries of a text that is at least one
    chunk long. *)
Definition boundaries (self : obj) (text_len chunksize : Z)
    (overlap : option Z) : res bounds :=
  match overlap with
  | None => Raise TypeError
  | Some overlap =>
      let step := if negb (overlap =? 0) then chunksize - overlap else chunksize in
      match range 0 (text_len - chunksize + 1) step with
      | Raise e => Raise e
      | Ok starts =>
          let stops := map (fun s => s + chunksize) starts in
          if truthy (roundedsize self) then spread text_len starts stops
          else Ok (zip (map NInt starts) (map NInt stops))
      end
  end.

Section ChunkText.

(** A text is a sequence: of tokens, or of the characters of a string. *)
Context {A : Type}.

(** The first half of [chunk_text], run when the text has no boundaries
    yet.  It returns [chunk]: [None] is Python's [None].  On an empty text
    [chunksize] is never bound; a small text is scaled up by the float
    [factor = (chunksize / text_len) + 1]: the division raises when its
    quotient is too large for a float, and if it is not, [text*factor]
    raises, as no sequence can be multiplied by a float. *)
Definition chunk_compute (text : list A) (index : nat)
  : M obj (option (list A)) :=
  let text_len := Z.of_nat (length text) in
  if text_len =? 0 then raise UnboundLocalError
  else
    let* self := gets id in
    let* chunksize := lift_res (resolve_chunksize self text_len) in
    let* overlap := lift_res (resolve_overlap self chunksize) in
    match chunksize with
    | None => raise TypeError
    | Some chunksize =>
        if chunksize >? text_len then
          if truthy (minsize self) then ret None
          else if truthy (upscale self) then
            if true_div_overflows chunksize text_len then raise OverflowError
            else raise TypeError
          else ret (Some text)
        else
          let* bs := lift_res (boundaries self text_len chunksize overlap) in
          set_item AttributeError chunkindices with_chunkindices index (Some bs);;
          ret None
    end.

(** The loop that yields the chunks of a text with boundaries; [n] is the
    number of the next chunk. *)
Fixpoint chunk_emit (label : string) (text : list A) (n : nat) (bs : bounds)
  : gen (string * option (list A)) :=
  match bs with
  | [] => ([], None)
  | (start, stop) :: rest =>
      match slice_num text start stop with
      | Raise e => ([], Some e)
      | Ok t =>
          match chunk_emit label text (S n) rest with
          | (out, e) => ((fmt_label label n, Some t) :: out, e)
          end
      end
  end.

(** [chunk_text(label, text, index)], run to its end. *)
Definition chunk_text (label : string) (text : list A) (index : nat)
    (self : obj) : gen (string * option (list A)) * obj :=
  match item AttributeError chunkindices index self with
  | (Raise e, self) => (([], Some e), self)
  | (Ok cached, self) =>
      match (match cached with
             | None => chunk_compute text index
             | Some _ => ret None
             end) self with
      | (Raise e, self) => (([], Some e), self)
      | (Ok chunk, self) =>
          match item AttributeError chunkindices index self with
          | (Raise e, self) => (([], Some e), self)
          | (Ok None, self) => (([(label, chunk)], None), self)
          | (Ok (Some bs), self) => (chunk_emit label text 0 bs, self)
          end
      end
  end.

End ChunkText.

(** The chunks of a text as texts. *)
Definition as_content {A} (f : list A -> content)
    (g : gen (string * option (list A)) * obj)
  : gen (string * option content) * obj :=
  match g with
  | ((out, e), self) => ((map (fun '(l, c) => (l, f <$> c)) out, e), self)
  end.

(** [chunk_text] on what [process_text] returns. *)
Definition chunk_content (label : string) (text : content) (index : nat)
    (self : obj) : gen (string * option content) * obj :=
  match text with
  | CToks ws => as_content CToks (chunk_text label ws index self)
  | CStr s =>
      as_content (fun cs => CStr (string_of_list_ascii cs))
                 (chunk_text label (list_ascii_of_string s) index self)
  end.

Section WithFiles.

Variable disk : string -> option string.

(** [__iter__], run to its end. *)
Definition iter (self : obj) : gen (string * option content) * obj :=
  match texts (base self) with
  | None => (([], Some TypeError), self)
  | Some l =>
      gen_loop
        (fun i self =>
           match super (getitem disk i) self with
           | (Raise e, self) => (([], Some e), self)
           | (Ok (label, text), self) => chunk_content label text i self
           end)
        (seq 0 (length l)) self
  end.

(** [__getitem__] on an int key.  The parent's [__getitem__] is a
    generator; taking it apart as [label, text] runs it to its end: what it
    raises is raised, and the one pair it yields is one value where two are
    expected. *)
Definition getitem_int (key : nat) : M obj (list (string * option content)) :=
  super (BOWCorpus.getitem disk key);;
  raise ValueError.

(** [__getitem__] on a slice: the chunks of the sliced texts in one list.
    The text at place [k] of the slice is chunked under the index [k]. *)
Definition getitem_sliced (key : slice_key)
  : M obj (list (string * option content)) :=
  fun self =>
    let start := or_else (key_start key) 0 in
    match (match key_stop key with
           | Some (S k) => Ok (S k)
           | _ => len_texts (base self)
           end) with
    | Raise e => (Raise e, self)
    | Ok stop =>
        let step := or_else (key_step key) 1 in
        match range (Z.of_nat start) (Z.of_nat stop) (Z.of_nat step) with
        | Raise e => (Raise e, self)
        | Ok idxs =>
            match
              gen_loop
                (fun k self =>
                   match idxs !! k with
                   | None => (([], None), self)
                   | Some i =>
                       match super (BOWCorpus.getitem disk (Z.to_nat i)) self with
                       | (Raise e, self) => (([], Some e), self)
                       | (Ok (label, text), self) =>
                           chunk_content label text k self
                       end
                   end)
                (seq 0 (length idxs)) self
            with
            | ((out, None), self) => (Ok out, self)
            | ((_, Some e), self) => (Raise e, self)
            end
        end
    end.

End WithFiles.

End ChunkCorpus.

(** ** nlp/roman_numerals.py *)

Module RomanNumerals.

(** What [roman_to_int] ends with: the int it returns, or the KeyError of
    the lookup [nums[n]], which carries the character looked up. *)
Inductive outcome : Set :=
| Int (n : Z)
| KeyError (key : ascii).

Definition upper_char (c : ascii) : ascii :=
  let n := nat_of_ascii c in
  if ((97 <=? n) && (n <=? 122))%nat then ascii_of_nat (n - 32) else c.

(** [rnum.upper()], on ASCII letters. *)
Fixpoint upper (s : string) : string :=
  match s with
  | EmptyString => EmptyString
  | String c rest => String (upper_char c) (upper rest)
  end.

(** The dict [nums]; [None] is a key that is not in it. *)
Definition nums (n : ascii) : option Z :=
  if Ascii.eqb n "M" then Some 1000
  else if Ascii.eqb n "D" then Some 500
  else if Ascii.eqb n "C" then Some 100
  else if Ascii.eqb n "L" then Some 50
  else if Ascii.eqb n "X" then Some 10
  else if Ascii.eqb n "V" then Some 5
  else if Ascii.eqb n "I" then Some 1
  else if Ascii.eqb n "Z" then Some 0
  else None.

(** The first loop: [num_list.append(nums[n])] for every character; the
    result is the list, or the first key that is missing. *)
Fixpoint lookup_all (rnum : string) : list Z + ascii :=
  match rnum with
  | EmptyString => inl []
  | String n rest =>
      match nums n with
      | None => inr n
      | Some v =>
          match lookup_all rest with
          | inl l => inl (v :: l)
          | inr k => inr k
          end
      end
  end.

(** The second loop, over [enumerate(num_list[:-1])]: every number but the
    last is added when the next one is not greater, and subtracted when it
    is. *)
Fixpoint add_up (num_list : list Z) (total : Z) : Z :=
  match num_list with
  | n :: ((next :: _) as rest) =>
      add_up rest (if next <=? n then total + n else total - n)
  | _ => total
  end.

Definition roman_to_int (rnum : string) : outcome :=
  match lookup_all (upper rnum ++ "Z") with
  | inr k => KeyError k
  | inl num_list => Int (add_up num_list 0)
  end.

End RomanNumerals.

(** ** nlp/match.py *)

Module Match.

Import BOWCorpus.

(** [a <= b] on (index, word) tuples: by index, then by word. *)
Definition tuple_leb (a b : Z * string) : bool :=
  (fst a <? fst b) || ((fst a =? fst b) && String.leb (snd a) (snd b)).

Fixpoint insert (x : Z * string) (l : list (Z * string)) : list (Z * string) :=
  match l with
  | [] => [x]
  | y :: rest => if tuple_leb x y then x :: y :: rest else y :: insert x rest
  end.

(** [sorted(indices)]: the tuples in ascending order. *)
Definition sorted (indices : list (Z * string)) : list (Z * string) :=
  foldr insert [] indices.

(** [sub in string]: a token of the list, or a part of the string. *)
Definition contains (sub : String.string) (string : content) : bool :=
  match string with
  | CToks ws => elem sub ws
  | CStr s => match String.index 0 sub s with Some _ => true | None => false end
  end.

(** [string.find(sub, start)] for [start >= 0]: the lowest index from
    [start] on at which [sub] begins, or -1. *)
Definition find (string sub : String.string) (start : Z) : Z :=
  match String.index (Z.to_nat start) sub string with
  | Some i => Z.of_nat i
  | None => -1
  end.

(** The [while True] loop for one substring.  Every round takes one unit
    of [fuel]; [None] is a loop that is still running when the fuel is
    used up. *)
Fixpoint find_loop (fuel : nat) (string sub : String.string) (start : Z)
    (indices : list (Z * String.string)) : option (list (Z * String.string)) :=
  match fuel with
  | O => None
  | S fuel =>
      let start := find string sub start in
      if start =? -1 then Some indices
      else find_loop fuel string sub (start + Z.of_nat (String.length sub))
             (indices ++ [(start, sub)])
  end.

(** [for sub in substrings:] with the loop above as its body. *)
Fixpoint find_each (fuel : nat) (string : String.string)
    (substrings : list String.string) (indices : list (Z * String.string))
  : option (list (Z * String.string)) :=
  match substrings with
  | [] => Some indices
  | sub :: rest =>
      match find_loop fuel string sub 0 indices with
      | None => None
      | Some indices => find_each fuel string rest indices
      end
  end.

(** [find_all(string, substrings)].  The result is [None] while the call
    is still running, [Some None] when it returns Python's [None], and
    [Some (Some indices)] when it returns a list. *)
Definition find_all (fuel : nat) (string : content)
    (substrings : list String.string)
  : option (option (list (Z * String.string))) :=
  if existsb (fun sub => contains sub string) substrings then
    match string with
    | CToks ws =>
        Some (Some (sorted (filter (fun '(i, word) => elem word substrings)
                              (enumerate ws))))
    | CStr s =>
        match find_each fuel s substrings [] with
        | None => None
        | Some indices => Some (Some (sorted indices))
        end
    end
  else Some None.

(** [find_intersection] is [set(s1).intersection(s2)], a call of the
    library; it is left out. *)

End Match.

(** ** corpora/texts/dramacorpus.py: the query on a parsed play *)

Module DramaCorpus.

Import BOWCorpus.

(** One dictionary of a parsed play, as far as [parse_query] reads it:
    the keys ['act'], ['scene'], ['speaker'] and ['text'], each present or
    not.  Acts and scenes are numbers, speakers and texts strings. *)
Record entry : Type := mk_entry {
  e_act : option Z;
  e_scene : option Z;
  e_speaker : option string;
  e_text : option string
}.

(** The object: a [BOWCorpus] with the parser and the query.  [act],
    [scene] and [speaker] are lists, or [None]. *)
Record obj : Type := mk {
  base : BOWCorpus.obj;
  play_parser : string -> string -> list entry;
  act : option (list Z);
  scene : option (list Z);
  speaker : option (list string);
  merge : bool;
  corpus_tokenize : bool
}.

Definition super {A} (m : M BOWCorpus.obj A) : M obj A :=
  fun self =>
    match m (base self) with
    | (r, b) =>
        (r, mk b (play_parser self) (act self) (scene self) (speaker self)
              (merge self) (corpus_tokenize self))
    end.

(** The arguments of [set_params] that are named; [None] is an argument
    left out. *)
Record params : Type := mk_params {
  p_act : option (list Z);
  p_scene : option (list Z);
  p_speaker : option (list string);
  p_merge : option bool
}.

Definition no_params : params := mk_params None None None None.

(** [old if new == None else new] *)
Definition keep_or {A} (old : option A) (new : option A) : option A :=
  match new with None => old | Some v => Some v end.

(** [set_params]: [tokenize=True] is kept here and not passed up. *)
Definition set_params (p : params) (kw : kwargs) : M obj unit :=
  let local := match kw_tokenize kw with Some true => true | _ => false end in
  modify (fun self =>
    {| base := base self;
       play_parser := play_parser self;
       act := keep_or (act self) (p_act p);
       scene := keep_or (scene self) (p_scene p);
       speaker := keep_or (speaker self) (p_speaker p);
       merge := match p_merge p with None => merge self | Some b => b end;
       corpus_tokenize := if local then true else corpus_tokenize self |});;
  super (BOWCorpus.set_params
           (if local
            then mk_kwargs None (kw_tokenizer kw) (kw_stopwords kw)
                   (kw_gowords kw) (kw_keep_in_memory kw)
            else kw)).

(** [DramaCorpus(play_parser)] *)
Definition init (default_tokenizer : string -> list string)
    (play_parser : string -> string -> list entry) : obj :=
  let self :=
    {| base := BOWCorpus.init default_tokenizer;
       play_parser := play_parser;
       act := Some [];
       scene := Some [];
       speaker := Some [];
       merge := true;
       corpus_tokenize := false |} in
  snd (set_params no_params (mk_kwargs (Some false) None None None None) self).

(** [key in e] *)
Definition has {A} (key : entry -> option A) (e : entry) : bool :=
  match key e with Some _ => true | None => false end.

(** [i[key] in wanted], for an entry that has the key. *)
Definition is_wanted {A} (eqb : A -> A -> bool) (key : entry -> option A)
    (wanted : list A) (i : entry) : bool :=
  match key i with
  | Some v => existsb (eqb v) wanted
  | None => false
  end.

(** [[i for i in [e for e in t if key in e] if i[key] in wanted]] *)
Definition select {A} (eqb : A -> A -> bool) (key : entry -> option A)
    (wanted : list A) (t : list entry) : list entry :=
  filter (fun i => is_wanted eqb key wanted i) (filter (fun e => has key e) t).

(** What [parse_query] returns: one string, or (speaker, text) tuples. *)
Inductive parsed : Type :=
| Text (s : string)
| Speeches (l : list (string * string)).

Definition parse_query (self : obj) (t : list entry) : parsed :=
  let t := match act self with
           | Some wanted => select Z.eqb e_act wanted t
           | None => t
           end in
  let t := match scene self with
           | Some wanted => select Z.eqb e_scene wanted t
           | None => t
           end in
  let t := match speaker self with
           | Some wanted => select String.eqb e_speaker wanted t
           | None => t
           end in
  if merge self then
    Text (String.concat " " (omap e_text t))
  else
    Speeches (omap (fun e => match e_text e, e_speaker e with
                             | Some text, Some who => Some (who, text)
                             | _, _ => None
                             end) t).

End DramaCorpus.

(** ** config/cliparse.py: the command line *)

Module CliParse.

(** A value of the dict [args]: the string given for an option, or the
    list of the strings given when the option was repeated. *)
Inductive value : Type :=
| One (val : string)
| Many (vals : list string).

(** [argv[a].lstrip('-')] *)
Fixpoint lstrip_dash (s : string) : string :=
  match s with
  | String c rest => if Ascii.eqb c "-" then lstrip_dash rest else s
  | EmptyString => EmptyString
  end.

(** [s[0] == '-']; [s[0]] raises IndexError on the empty string. *)
Definition starts_with_dash (s : string) : res bool :=
  match s with
  | EmptyString => Raise IndexError
  | String c _ => Ok (Ascii.eqb c "-")
  end.

(** The dict [short_keys], read at [arg].  [keys] lists the keys of the
    dict [keys] in their order, each with its short key [keys[k][1]] when
    that is a string; of two keys with one short key the later one
    stays. *)
Fixpoint short_keys (keys : list (string * option string)) (arg : string)
  : option string :=
  match keys with
  | [] => None
  | (k, short) :: rest =>
      match short_keys rest arg with
      | Some later => Some later
      | None =>
          match short with
          | Some s => if String.eqb s arg then Some k else None
          | None => None
          end
      end
  end.

(** The dict [args], in the order in which its keys were added, read at
    [arg]. *)
Fixpoint lookup (args : list (string * value)) (arg : string) : option value :=
  match args with
  | [] => None
  | (k, v) :: rest => if String.eqb k arg then Some v else lookup rest arg
  end.

(** [args[arg] = v] *)
Fixpoint store (args : list (string * value)) (arg : string) (v : value)
  : list (string * value) :=
  match args with
  | [] => [(arg, v)]
  | (k, old) :: rest =>
      if String.eqb k arg then (k, v) :: rest else (k, old) :: store rest arg v
  end.

(** The statements under [if val != '':]. *)
Definition add (keys : list (string * option string))
    (args : list (string * value)) (arg val : string) : list (string * value) :=
  let arg := match short_keys keys arg with Some k => k | None => arg end in
  match lookup args arg with
  | Some (One s) => store args arg (Many ([s] ++ [val]))
  | Some (Many l) => store args arg (Many (l ++ [val]))
  | None => store args arg (One val)
  end.

Section WithHelp.

(** [get_help_str] lays out the help text that is printed before the
    exit; [help_raises] is the exception it ends with, if it raises. *)
Variable help_raises : option exn.

(** The rounds of the loop [for a in range(1, n_args)] from [argv[a]]
    on; [rest] is [argv[a:]].  What is printed is left out. *)
Fixpoint scan (keys : list (string * option string)) (rest : list string)
    (args : list (string * value)) : res (list (string * value)) :=
  match rest with
  | [] => Ok args
  | cur :: rest =>
      match starts_with_dash cur with
      | Raise e => Raise e
      | Ok false => scan keys rest args
      | Ok true =>
          let arg := lstrip_dash cur in
          if String.eqb arg "h" || String.eqb arg "help" then
            match help_raises with
            | Some e => Raise e
            | None => Raise SystemExit
            end
          else if String.eqb arg "v" || String.eqb arg "version" then
            Raise SystemExit
          else
            match (match rest with
                   | [] => Ok EmptyString
                   | next :: _ =>
                       match starts_with_dash next with
                       | Raise e => Raise e
                       | Ok true => Ok EmptyString
                       | Ok false => Ok next
                       end
                   end) with
            | Raise e => Raise e
            | Ok val =>
                scan keys rest
                  (if String.eqb val EmptyString then args
                   else add keys args arg val)
            end
      end
  end.

(** [parse_argv(argv, keys)]: a command with no argument is given [-h]. *)
Definition parse_argv (argv : list string)
    (keys : list (string * option string)) : res (list (string * value)) :=
  match argv with
  | [] => Ok []
  | [_] => scan keys ["-h"] []
  | _ :: rest => scan keys rest []
  end.

End WithHelp.

End CliParse.

(** * Properties *)

Import BOWCorpus.

(** The state a method leaves behind. *)
Definition run {S A} (m : M S A) (s : S) : S := snd (m s).

(** ** What the properties are stated with *)

(** Stopwords out first, then gowords only. *)
Definition stop_then_go (sw gw ws : list string) : list string :=
  filter (fun w => elem w gw) (filter (fun w => negb (elem w sw)) ws).

(** The settings of a corpus, which no access changes. *)
Definition config (b : BOWCorpus.obj) :=
  (filenames b, tokenize b, tokenizer b, stopwords b, gowords b,
   keep_in_memory b).


(** A corpus of texts that were given, not read: the per-text lists are as
    long as [texts], every text is in memory, and a mark tells the shape of
    its text. *)
Definition resident_inv (b : BOWCorpus.obj) : Prop :=
  filenames b = false -> forall txts, texts b = Some txts ->
  exists tks nts ims,
    tokenized b = Some tks /\ n_tokens b = Some nts /\ in_memory b = Some ims /\
    length tks = length txts /\ length nts = length txts /\
    length ims = length txts /\ (forall i, ims !! i <> Some false) /\
    (forall i l t, txts !! i = Some (l, t) ->
       tks !! i = Some None \/ tks !! i = Some (Some (is_list t))).




(** The tokens of the chunks that were yielded, one after another. *)
Definition chunk_tokens (out : list (string * option content)) : list string :=
  flat_map (fun '(_, c) => match c with Some t => items t | None => [] end) out.

(** The chunks of one text put together; a chunk of [None] adds nothing. *)
Definition chunks_together {A} (out : list (string * option (list A))) : list A :=
  flat_map (fun o => default [] (snd o)) out.

(** Every chunking argument of a call of [set_params] is falsy: left out,
    [0], [0.0] or [False]. *)
Definition all_falsy (p : ChunkCorpus.params) : Prop :=
  truthy (ChunkCorpus.p_chunksize p) = false /\
  truthy (ChunkCorpus.p_nchunks p) = false /\
  truthy (ChunkCorpus.p_overlap p) = false /\
  truthy (ChunkCorpus.p_roundedsize p) = false /\
  truthy (ChunkCorpus.p_minsize p) = false /\
  truthy (ChunkCorpus.p_upscale p) = false.

(** ** The inputs of the examples *)

Module Scenario.

Definition sonnet : string := "Shall I compare thee to a summer's day?".

Definition sonnet_words : list string :=
  ["shall"; "i"; "compare"; "thee"; "to"; "a"; "summer"; "s"; "day"].

(** A sentence splitter for a text of one sentence. *)
Definition one_sentence (text : string) : list string := [text].

Definition default_tokenizer : string -> list string :=
  Tokenize.tokenize one_sentence Tokenize.init.

Definition no_files (path : string) : option string := None.
Definition no_match (pattern : string) : list string := [].

(** [ChunkCorpus().fit(texts)], then [set_params] with the parameters [p]. *)
Definition engine (tk : string -> list string) (glob : string -> list string)
    (txts : list (string * content)) (p : ChunkCorpus.params) : ChunkCorpus.obj :=
  run (ChunkCorpus.set_params p no_kwargs)
    (run (ChunkCorpus.fit glob (SrcPairs txts) false) (ChunkCorpus.init tk)).

(** [chunksize=4, overlap=ov] on the sonnet as a string. *)
Definition sonnet_engine (tk : string -> list string)
    (glob : string -> list string) (ov : pyval) : ChunkCorpus.obj :=
  engine tk glob [("a", CStr sonnet)]
    (ChunkCorpus.mk_params (VInt 4) VNone ov VNone VNone VNone).

(** Five tokens, [set_params(chunksize=2, overlap=0, roundedsize=True)]. *)
Definition letters : list string := ["a"; "b"; "c"; "d"; "e"].
Definition rounded_engine tk glob : ChunkCorpus.obj :=
  engine tk glob [("t", CToks letters)]
    (ChunkCorpus.mk_params (VInt 2) VNone (VInt 0) (VBool true) VNone VNone).

(** One file, [fit([("third", "third.txt")], filenames=True)] and
    [set_params(keep_in_memory=keep)]. *)
Definition winds : string := "Rough winds do shake the darling buds of May,".
Definition one_file (path : string) : option string :=
  if String.eqb path "third.txt" then Some winds else None.
Definition file_corpus (keep : bool) : BOWCorpus.obj :=
  run (BOWCorpus.set_params (mk_kwargs None None None None (Some keep)))
    (run (BOWCorpus.fit no_match (SrcPairs [("third", CStr "third.txt")]) true)
       (BOWCorpus.init default_tokenizer)).

(** The sonnet's tokens with [chunksize=4, overlap=2], iterated once, then
    [set_params(overlap=0)]. *)
Definition sliding_engine tk glob : ChunkCorpus.obj :=
  engine tk glob [("a", CToks sonnet_words)]
    (ChunkCorpus.mk_params (VInt 4) VNone (VInt 2) VNone VNone VNone).
Definition overlap_zero : ChunkCorpus.params :=
  ChunkCorpus.mk_params VNone VNone (VInt 0) VNone VNone VNone.
Definition reconfigured_engine tk glob disk : ChunkCorpus.obj :=
  run (ChunkCorpus.set_params overlap_zero no_kwargs)
    (snd (ChunkCorpus.iter disk (sliding_engine tk glob))).
(** The same texts under the same parameters, never chunked before. *)
Definition fresh_engine tk glob : ChunkCorpus.obj :=
  run (ChunkCorpus.set_params overlap_zero no_kwargs)
    (sliding_engine tk glob).

(** Three tokens and [chunksize=10]. *)
Definition three : list string := ["so"; "long"; "lives"].
Definition small_engine tk glob (minsize upscale : pyval) : ChunkCorpus.obj :=
  engine tk glob [("s", CToks three)]
    (ChunkCorpus.mk_params (VInt 10) VNone VNone VNone minsize upscale).

(** Three tokens and [chunksize=10**400], which no float can hold. *)
Definition huge_engine tk glob (ov upscale : pyval) : ChunkCorpus.obj :=
  engine tk glob [("s", CToks three)]
    (ChunkCorpus.mk_params (VInt (10 ^ 400)) VNone ov VNone VNone upscale).


(** The sonnet's tokens with [nchunks=2]. *)
Definition nchunks_engine tk glob : ChunkCorpus.obj :=
  engine tk glob [("a", CToks sonnet_words)]
    (ChunkCorpus.mk_params VNone (VInt 2) VNone VNone VNone VNone).

(** Tokens filtered with stopwords and gowords. *)
Definition buds : list string := ["rough"; "winds"; "the"; "buds"].
Definition filtered_corpus : BOWCorpus.obj :=
  run (BOWCorpus.set_params
         (mk_kwargs (Some true) None (Some ["the"]) (Some ["the"; "rough"]) None))
    (run (BOWCorpus.fit no_match (SrcPairs [("third", CToks buds)]) false)
       (BOWCorpus.init default_tokenizer)).

End Scenario.

(** ** What the further properties are stated with *)

(** What the stopword and goword lists leave of a text. *)
Definition filtered (b : BOWCorpus.obj) (t : content) : content :=
  let t := match configured (stopwords b) with
           | Some sw => CToks (filter (fun w => negb (elem w sw)) (items t))
           | None => t
           end in
  match configured (gowords b) with
  | Some gw => CToks (filter (fun w => elem w gw) (items t))
  | None => t
  end.

(** What a corpus of given texts serves for the stored text [t]: its
    tokens, filtered, when [tokenize] is [True]; [t] as it is when
    [tokenize] is unset; and when [tokenize] is [False] a list of tokens
    joined with single spaces, a string as it is. *)
Definition served (b : BOWCorpus.obj) (t : content) : content :=
  match tokenize b with
  | Some true =>
      filtered b match t with
                 | CStr s => CToks (tokenizer b s)
                 | CToks ws => CToks ws
                 end
  | None => t
  | Some false =>
      match t with
      | CStr s => CStr s
      | CToks ws => CStr (String.concat " " ws)
      end
  end.

(** An attribute that holds a list is the same in [b'] as in [b], but for
    the entry [i], which may have been assigned. *)
Definition same_but {A} (i : nat) (old new : option (list A)) : Prop :=
  new = old \/ exists l v, old = Some l /\ (i < length l)%nat /\ new = Some (<[i:=v]> l).

(** The lists kept beside [texts] have one entry for each text. *)
Definition aligned (b : BOWCorpus.obj) : Prop :=
  exists txts ims tks nts,
    texts b = Some txts /\ in_memory b = Some ims /\ tokenized b = Some tks /\
    n_tokens b = Some nts /\
    length ims = length txts /\ length tks = length txts /\
    length nts = length txts.

(** What no access changes: the settings, the number of texts and their
    labels. *)
Definition same_corpus (b b' : BOWCorpus.obj) : Prop :=
  config b' = config b /\ len_texts b' = len_texts b /\
  get_labels b' = get_labels b.

(** The states a corpus gets to from [start] when it is indexed, iterated
    and sliced any number of times. *)
Inductive accessed (disk : string -> option string) (start : BOWCorpus.obj)
  : BOWCorpus.obj -> Prop :=
| acc_start : accessed disk start start
| acc_getitem b i :
    accessed disk start b -> accessed disk start (snd (getitem disk i b))
| acc_iter b :
    accessed disk start b -> accessed disk start (snd (BOWCorpus.iter disk b))
| acc_slice b key :
    accessed disk start b ->
    accessed disk start (snd (BOWCorpus.getitem_slice disk key b)).

(** A stored pair as a corpus of given texts serves it. *)
Definition serve (b : BOWCorpus.obj) (p : string * content) : string * content :=
  (fst p, served b (snd p)).

(** The pairs at the places [idxs] of a list. *)
Definition at_places {A} (l : list A) (idxs : list nat) : list A :=
  omap (fun i => l !! i) idxs.

(** The places [start, start + step, ...] below [stop], for [step >= 1]. *)
Definition places (start stop step : nat) : list nat :=
  map (fun k => start + k * step)%nat (seq 0 ((stop - start + step - 1) / step)).

(** A corpus of files that keeps nothing in memory: the texts are the
    filenames, and no text is marked as tokenized. *)
Definition file_inv (b : BOWCorpus.obj) : Prop :=
  filenames b = true /\ keep_in_memory b = false /\
  exists txts tks nts,
    texts b = Some txts /\ tokenized b = Some tks /\ n_tokens b = Some nts /\
    length tks = length txts /\ length nts = length txts /\
    forall i, (i < length tks)%nat -> tks !! i = Some (Some false).

(** The (label, filename) pairs [fit] makes of filenames: the label is
    what follows the last slash. *)
Definition labelled (names : list string) : list (string * content) :=
  map (fun f => (basename EmptyString f, CStr f)) names.

(** The chunks of [c] items that start [step] items apart, numbered from
    0. *)
Definition windows {A} (label : string) (text : list A) (c step n : nat)
  : list (string * option (list A)) :=
  map (fun k => (fmt_label label k, Some (take c (drop (k * step) text))))
      (seq 0 n).

(** A call of [set_params] with a chunking argument that is truthy. *)
Definition any_truthy (p : ChunkCorpus.params) : bool :=
  truthy (ChunkCorpus.p_chunksize p) || truthy (ChunkCorpus.p_nchunks p)
  || truthy (ChunkCorpus.p_overlap p) || truthy (ChunkCorpus.p_roundedsize p)
  || truthy (ChunkCorpus.p_minsize p) || truthy (ChunkCorpus.p_upscale p).

(** What a method returns when it collects what a generator yields. *)
Definition collected {O} (g : gen O) : res (list O) :=
  match g with
  | (out, None) => Ok out
  | (_, Some e) => Raise e
  end.

(** [all(p(c) for c in s)] *)
Fixpoint all_chars (p : ascii -> bool) (s : string) : bool :=
  match s with
  | EmptyString => true
  | String c rest => p c && all_chars p rest
  end.

(** An ASCII character, on which the model of the tokenizer is exact. *)
Definition is_ascii (c : ascii) : bool := (nat_of_ascii c <? 128)%nat.

(** An ASCII capital letter. *)
Definition is_upper (c : ascii) : bool :=
  let n := nat_of_ascii c in ((65 <=? n) && (n <=? 90))%nat.

(** A character of a token: an ASCII word character, and no capital letter
    when the tokenizer lowercases. *)
Definition token_char (lowercase : bool) (c : ascii) : bool :=
  is_ascii c && Tokenize.is_word_char c
  && (negb lowercase || negb (is_upper c)).

(** A token as the default word tokenizer makes it from ASCII text: not
    empty, and made of token characters. *)
Definition is_token (lowercase : bool) (w : string) : bool :=
  negb (String.eqb w EmptyString) && all_chars (token_char lowercase) w.

(** The standard numeral of a number from 1 to 3999, digit by digit: the
    reference [roman_to_int] is compared with. *)
Definition roman_digit (one five ten : string) (d : nat) : string :=
  match d with
  | 0%nat => ""
  | 1%nat => one
  | 2%nat => one ++ one
  | 3%nat => one ++ one ++ one
  | 4%nat => one ++ five
  | 5%nat => five
  | 6%nat => five ++ one
  | 7%nat => five ++ one ++ one
  | 8%nat => five ++ one ++ one ++ one
  | _ => one ++ ten
  end%string.

Definition standard_numeral (n : nat) : string :=
  (roman_digit "M" "" "" (n / 1000)%nat
   ++ roman_digit "C" "D" "M" (n / 100 mod 10)%nat
   ++ roman_digit "X" "L" "C" (n / 10 mod 10)%nat
   ++ roman_digit "I" "V" "X" (n mod 10)%nat)%string.

(** A letter of the dict of [roman_to_int], in either case. *)
Definition numeral_letter (c : ascii) : bool :=
  match RomanNumerals.nums (RomanNumerals.upper_char c) with
  | Some _ => true
  | None => false
  end.

(** The first character of a string that does not satisfy [p]. *)
Fixpoint first_not (p : ascii -> bool) (s : string) : option ascii :=
  match s with
  | EmptyString => None
  | String c rest => if p c then first_not p rest else Some c
  end.

(** The values of the dict of [roman_to_int]. *)
Definition table (v : Z) : Prop := In v [0; 1; 5; 10; 50; 100; 500; 1000].

(** The places of the tokens that are among the words looked for, with
    the tokens, in the order of the text. *)
Definition hits (ws substrings : list string) : list (Z * string) :=
  filter (fun '(i, word) => elem word substrings) (enumerate ws).

(** [sub] begins at the index [i] of [s]. *)
Definition occurs_at (s : string) (hit : Z * string) : Prop :=
  0 <= fst hit /\
  String.substring (Z.to_nat (fst hit)) (String.length (snd hit)) s = snd hit.

(** Tuples whose indices go strictly up. *)
Fixpoint ascending {A} (l : list (Z * A)) : Prop :=
  match l with
  | [] => True
  | x :: rest => Forall (fun y => fst x < fst y) rest /\ ascending rest
  end.

(** The drama corpora a caller can get to: built by [DramaCorpus(parser)],
    then configured any number of times. *)
Inductive drama_reachable (tk : string -> list string)
    (parser : string -> string -> list DramaCorpus.entry)
  : DramaCorpus.obj -> Prop :=
| drama_init : drama_reachable tk parser (DramaCorpus.init tk parser)
| drama_set_params self p kw :
    drama_reachable tk parser self ->
    drama_reachable tk parser (run (DramaCorpus.set_params p kw) self).

(** An entry with an act, a scene and a speaker: of the entries a parser
    makes, a speech. *)
Definition is_speech (e : DramaCorpus.entry) : bool :=
  DramaCorpus.has DramaCorpus.e_act e && DramaCorpus.has DramaCorpus.e_scene e
  && DramaCorpus.has DramaCorpus.e_speaker e.

(** A string that can be the value of an option: not empty, and not
    starting with a dash. *)
Definition plain (s : string) : bool :=
  match s with
  | EmptyString => false
  | String c _ => negb (Ascii.eqb c "-")
  end.

(** A value of the dict [args] made of plain strings: one string, or a
    list of at least two. *)
Definition plain_value (v : CliParse.value) : Prop :=
  match v with
  | CliParse.One s => plain s = true
  | CliParse.Many l => Forall (fun s => plain s = true) l /\ (2 <= length l)%nat
  end.

(** An argument that asks for the help text or for the version: dashes,
    then h, help, v or version. *)
Definition exit_flag (s : string) : bool :=
  match s with
  | String c _ =>
      Ascii.eqb c "-"
      && (String.eqb (CliParse.lstrip_dash s) "h"
          || String.eqb (CliParse.lstrip_dash s) "help"
          || String.eqb (CliParse.lstrip_dash s) "v"
          || String.eqb (CliParse.lstrip_dash s) "version")
  | EmptyString => false
  end.

(** ** The inputs of the further examples *)

(** The inputs of the examples on slices: two texts of tokens, chunks of
    four. *)
Module Sample.

Definition two_texts : list (string * content) :=
  [("a", CToks Scenario.sonnet_words); ("b", CToks Scenario.letters)].

Definition chunks_of_four : ChunkCorpus.params :=
  ChunkCorpus.mk_params (VInt 4) VNone VNone VNone VNone VNone.

(** A parsed play of one scene: its location, a stage direction and two
    speeches. *)
Definition scene_one : list DramaCorpus.entry :=
  [DramaCorpus.mk_entry (Some 1) (Some 1) None (Some "Verona");
   DramaCorpus.mk_entry (Some 1) (Some 1) None (Some "Enter Romeo");
   DramaCorpus.mk_entry (Some 1) (Some 1) (Some "ROMEO") (Some "But soft");
   DramaCorpus.mk_entry (Some 1) (Some 1) (Some "JULIET") (Some "Ay me")].

Definition no_parser (l t : string) : list DramaCorpus.entry := [].

(** A directory in which every pattern matches one file. *)
Definition one_match (pattern : string) : list string := ["data/txt/third.txt"].

End Sample.

(** ** Reading and writing attributes *)

Ltac munfold :=
  unfold bind, ret, gets, modify, raise, lift_res, when, id, item, set_item in *.
Ltac mred :=
  unfold bind, ret, gets, modify, raise, lift_res, when, id; cbn beta iota.
Ltac blast :=
  munfold; intros; repeat (case_match; simplify_eq/=; try done).

Lemma item_ok {S A} ex (attr : S -> option (list A)) i s l a :
  attr s = Some l -> l !! i = Some a -> item ex attr i s = (Ok a, s).
Proof. intros H1 H2. unfold item. rewrite H1, H2. reflexivity. Qed.

Lemma set_item_ok {S A} ex (attr : S -> option (list A)) upd i v s l :
  attr s = Some l -> (i < length l)%nat ->
  set_item ex attr upd i v s = (Ok tt, upd (Some (<[i:=v]> l)) s).
Proof.
  intros H1 H2. unfold set_item. rewrite H1.
  rewrite decide_True by done. reflexivity.
Qed.

Lemma item_inv {S A} ex (attr : S -> option (list A)) i s r s' :
  item ex attr i s = (r, s') ->
  s' = s /\ forall a, r = Ok a -> exists l, attr s = Some l /\ l !! i = Some a.
Proof. unfold item. blast; split; try done; intros; simplify_eq; eauto. Qed.

Lemma lookup_replicate_eq {A} (x y : A) n i :
  replicate n x !! i = Some y -> y = x.
Proof. intros H. apply lookup_replicate in H as [? ?]. done. Qed.

(** ** The corpus store: filtering *)

(** C9: with tokenization on, a text of tokens comes out of [process_text]
    with the stopwords removed first and only the gowords kept of what is
    left; on the tokens rough, winds, the, buds with stopword the and
    gowords the, rough that is exactly rough (the witness). *)
Theorem C9_stopwords_before_gowords disk self i l ws tks nts sw gw :
  filenames self = false -> tokenize self = Some true ->
  keep_in_memory self = false ->
  tokenized self = Some tks ->
  tks !! i = Some None \/ tks !! i = Some (Some true) ->
  n_tokens self = Some nts -> (i < length nts)%nat ->
  configured (stopwords self) = Some sw -> configured (gowords self) = Some gw ->
  fst (process_text disk i l (CToks ws) self)
  = Ok (l, CToks (stop_then_go sw gw ws)).
Proof.
  intros Hf Ht Hk Htk Hi Hn Hlen Hsw Hgw.
  assert (Hlt : (i < length tks)%nat)
    by (destruct Hi as [Hi|Hi]; eapply lookup_lt_Some; eauto).
  unfold process_text, deduce_tokenized, apply_tokenize, retain. mred. rewrite Hf.
  destruct Hi as [Hi|Hi]; rewrite (item_ok _ _ _ _ _ _ Htk Hi).
  - cbn [is_list]. rewrite (set_item_ok _ _ _ _ _ _ _ Htk Hlt).
    erewrite set_item_ok; [|destruct self; cbn in *; eauto|done].
    destruct self; cbn in *. subst.
    unfold tokenize_preprocess. mred.
    erewrite item_ok; [|cbn; reflexivity|cbn; apply list_lookup_insert_eq; done].
    cbn. rewrite Hsw, Hgw. reflexivity.
  - rewrite Ht. unfold tokenize_preprocess. mred.
    rewrite (item_ok _ _ _ _ _ _ Htk Hi). rewrite Hsw, Hgw, Hk. reflexivity.
Qed.

Lemma C9_stopwords_before_gowords_witness :
  fst (process_text Scenario.no_files 0 "third" (CToks Scenario.buds)
         Scenario.filtered_corpus)
  = Ok ("third", CToks ["rough"]).
Proof.
  apply (C9_stopwords_before_gowords Scenario.no_files Scenario.filtered_corpus
           0%nat "third" Scenario.buds [None] [None] ["the"] ["the"; "rough"]);
    try reflexivity.
  - left. reflexivity.
  - simpl. lia.
Defined.

(** ** The default tokenizer on the sonnet *)

Lemma sonnet_tokens nltk :
  nltk Scenario.sonnet = [Scenario.sonnet] ->
  Tokenize.tokenize nltk Tokenize.init Scenario.sonnet = Scenario.sonnet_words.
Proof.
  intros H. unfold Tokenize.tokenize, Tokenize.sent_tokenize. simpl.
  rewrite H. reflexivity.
Qed.

Lemma process_text_fresh_string disk self i l s tks nts :
  filenames self = false -> tokenize self = Some true ->
  keep_in_memory self = false ->
  tokenized self = Some tks -> tks !! i = Some None ->
  n_tokens self = Some nts -> (i < length nts)%nat ->
  configured (stopwords self) = None -> configured (gowords self) = None ->
  process_text disk i l (CStr s) self =
    (Ok (l, CToks (tokenizer self s)),
     with_n_tokens (Some (<[i:=Some (length (tokenizer self s))]> nts))
       (with_tokenized (Some (<[i:=Some false]> tks)) self)).
Proof.
  intros Hf Ht Hk Htk Hi Hn Hlen Hsw Hgw.
  assert (Hlt : (i < length tks)%nat) by (eapply lookup_lt_Some; eauto).
  unfold process_text, deduce_tokenized, apply_tokenize, retain. mred. rewrite Hf.
  rewrite (item_ok _ _ _ _ _ _ Htk Hi). cbn [is_list].
  rewrite (set_item_ok _ _ _ _ _ _ _ Htk Hlt).
  destruct self; cbn in *. subst.
  unfold tokenize_preprocess. mred.
  erewrite item_ok; [|cbn; reflexivity|cbn; apply list_lookup_insert_eq; done].
  cbn. rewrite decide_True by done.
  cbn. rewrite Hsw, Hgw. reflexivity.
Qed.

Lemma sonnet_chunks tk disk glob ov :
  tk Scenario.sonnet = Scenario.sonnet_words ->
  ov = VNone \/ ov = VInt 0 ->
  fst (ChunkCorpus.iter disk (Scenario.sonnet_engine tk glob ov)) =
    ([("a_0000", Some (CToks ["shall"; "i"; "compare"; "thee"]));
      ("a_0001", Some (CToks ["to"; "a"; "summer"; "s"]))], None).
Proof.
  intros H Hov.
  assert (E : forall c, c = Scenario.sonnet_engine tk glob ov ->
     fst (ChunkCorpus.iter disk c) =
     ([("a_0000", Some (CToks ["shall"; "i"; "compare"; "thee"]));
       ("a_0001", Some (CToks ["to"; "a"; "summer"; "s"]))], None));
    [|apply E; reflexivity].
  intros c Hc.
  destruct Hov as [-> | ->]; vm_compute in Hc; subst c;
    unfold ChunkCorpus.iter;
    cbn [texts ChunkCorpus.base length seq gen_loop];
    unfold ChunkCorpus.super, getitem, text_at, bind, item;
    cbn [texts ChunkCorpus.base lookup list_lookup];
    (erewrite process_text_fresh_string;
       [|reflexivity..|cbn; lia|reflexivity|reflexivity]);
    cbn [tokenizer]; fold Scenario.sonnet; rewrite H; vm_compute; reflexivity.
Qed.

(** C5: the source item a with the sonnet line, tokenized by the default
    lowercasing tokenizer (the line being one sentence), chunksize 4 and
    overlap 0 (given or left at its default): the first pair the engine
    yields is a_0000 with shall, i, compare, thee. *)
Theorem C5_first_chunk_of_sonnet nltk disk glob ov :
  nltk Scenario.sonnet = [Scenario.sonnet] ->
  ov = VNone \/ ov = VInt 0 ->
  head (fst (fst (ChunkCorpus.iter disk
    (Scenario.sonnet_engine (Tokenize.tokenize nltk Tokenize.init) glob ov))))
  = Some ("a_0000", Some (CToks ["shall"; "i"; "compare"; "thee"])).
Proof.
  intros H Hov.
  rewrite (sonnet_chunks _ disk glob ov (sonnet_tokens nltk H) Hov).
  reflexivity.
Qed.

Lemma C5_first_chunk_of_sonnet_witness :
  head (fst (fst (ChunkCorpus.iter Scenario.no_files
    (Scenario.sonnet_engine
       (Tokenize.tokenize Scenario.one_sentence Tokenize.init)
       Scenario.no_match (VInt 0)))))
  = Some ("a_0000", Some (CToks ["shall"; "i"; "compare"; "thee"])).
Proof.
  apply (C5_first_chunk_of_sonnet Scenario.one_sentence Scenario.no_files
           Scenario.no_match (VInt 0)).
  - reflexivity.
  - right. reflexivity.
Defined.

(** ** The chunking engine: one text *)

Import ChunkCorpus.

Lemma text_len_nonzero {A} (text : list A) :
  text <> [] -> (Z.of_nat (length text) =? 0) = false.
Proof. intros H. destruct text; [done|]. cbn [length]. apply Z.eqb_neq. lia. Qed.

(** C7: with [nchunks] set, the chunk size of a non-empty text should be
    the floor of its length over [nchunks].  The code reads the unbound
    name [nchunks] instead of [self.nchunks]: on every non-empty text that
    has no boundaries yet, [chunk_text] raises NameError, yields nothing
    and computes no boundary. *)
Theorem C7_nchunks_raises_NameError {A} (self : ChunkCorpus.obj) label
    (text : list A) index cis :
  chunkindices self = Some cis -> cis !! index = Some None -> text <> [] ->
  truthy (nchunks self) = true ->
  chunk_text label text index self = (([], Some NameError), self).
Proof.
  intros Hc Hi Ht Hn. unfold chunk_text.
  rewrite (item_ok _ _ _ _ _ _ Hc Hi).
  unfold chunk_compute. rewrite (text_len_nonzero _ Ht). mred.
  unfold resolve_chunksize. rewrite Hn. reflexivity.
Qed.

Lemma C7_nchunks_raises_NameError_witness :
  chunk_text "a" Scenario.sonnet_words 0
    (Scenario.nchunks_engine Scenario.default_tokenizer Scenario.no_match)
  = (([], Some NameError),
     Scenario.nchunks_engine Scenario.default_tokenizer Scenario.no_match).
Proof.
  apply (C7_nchunks_raises_NameError
           (Scenario.nchunks_engine Scenario.default_tokenizer Scenario.no_match)
           "a" Scenario.sonnet_words 0%nat [None]); try reflexivity.
  discriminate.
Defined.

(** Iterating the engine with [nchunks=2] ends at the first text. *)
Lemma nchunks_engine_yields_nothing tk glob disk :
  fst (ChunkCorpus.iter disk (Scenario.nchunks_engine tk glob))
  = ([], Some NameError).
Proof. vm_compute. reflexivity. Qed.

Lemma chunk_compute_small {A} (self : ChunkCorpus.obj) (text : list A) index c o :
  text <> [] ->
  resolve_chunksize self (Z.of_nat (length text)) = Ok (Some c) ->
  resolve_overlap self (Some c) = Ok o ->
  Z.of_nat (length text) < c ->
  chunk_compute text index self =
    (if truthy (minsize self) then Ok None
     else if truthy (upscale self) then
       if true_div_overflows c (Z.of_nat (length text)) then Raise OverflowError
       else Raise TypeError
     else Ok (Some text), self).
Proof.
  intros Ht Hc Ho Hlt. unfold chunk_compute.
  rewrite (text_len_nonzero _ Ht). mred. rewrite Hc, Ho.
  assert ((c >? Z.of_nat (length text)) = true) as -> by (apply Z.gtb_lt; lia).
  destruct (truthy (minsize self)); [done|].
  destruct (truthy (upscale self)); [|done].
  destruct (true_div_overflows c (Z.of_nat (length text))); done.
Qed.

(** C4, as the code has it: a non-empty text shorter than the resolved
    chunk size, not chunked before, with an overlap that resolves (a
    fractional overlap is multiplied by the chunk size before the sizes are
    compared, and an int chunk size too large for a float raises
    OverflowError there).  With [minsize] set the engine yields
    exactly one pair, the label unchanged with [None] for a text; with
    neither [minsize] nor [upscale] set it yields exactly one pair, the
    label unchanged with the whole text.  Neither call stores boundaries. *)
Theorem C4_small_text_policy {A} (self : ChunkCorpus.obj) label
    (text : list A) index cis c o :
  chunkindices self = Some cis -> cis !! index = Some None -> text <> [] ->
  resolve_chunksize self (Z.of_nat (length text)) = Ok (Some c) ->
  resolve_overlap self (Some c) = Ok o ->
  Z.of_nat (length text) < c ->
  (truthy (minsize self) = true ->
     chunk_text label text index self = (([(label, None)], None), self)) /\
  (truthy (minsize self) = false -> truthy (upscale self) = false ->
     chunk_text label text index self = (([(label, Some text)], None), self)).
Proof.
  intros Hc Hi Ht Hcs Ho Hlt. unfold chunk_text.
  rewrite (item_ok _ _ _ _ _ _ Hc Hi).
  rewrite (chunk_compute_small self text index c o Ht Hcs Ho Hlt).
  split.
  - intros ->. rewrite (item_ok _ _ _ _ _ _ Hc Hi). reflexivity.
  - intros -> ->. rewrite (item_ok _ _ _ _ _ _ Hc Hi). reflexivity.
Qed.

Lemma C4_small_text_policy_witness :
  chunk_text "s" Scenario.three 0
    (Scenario.small_engine Scenario.default_tokenizer Scenario.no_match
       (VBool true) VNone)
  = (([("s", None)], None),
     Scenario.small_engine Scenario.default_tokenizer Scenario.no_match
       (VBool true) VNone)
  /\
  chunk_text "s" Scenario.three 0
    (Scenario.small_engine Scenario.default_tokenizer Scenario.no_match
       VNone VNone)
  = (([("s", Some Scenario.three)], None),
     Scenario.small_engine Scenario.default_tokenizer Scenario.no_match
       VNone VNone).
Proof.
  split.
  - apply (C4_small_text_policy
             (Scenario.small_engine Scenario.default_tokenizer
                Scenario.no_match (VBool true) VNone)
             "s" Scenario.three 0%nat [None] 10 (Some 0));
      try reflexivity.
    discriminate.
  - apply (C4_small_text_policy
             (Scenario.small_engine Scenario.default_tokenizer
                Scenario.no_match VNone VNone)
             "s" Scenario.three 0%nat [None] 10 (Some 0));
      try reflexivity.
    discriminate.
Defined.

(** C4, as stated, fails: three tokens, chunksize 10 and [minsize] set
    through [set_params]; the engine yields one pair, not none. *)
Lemma C4_minsize_yields_a_pair :
  fst (fst (ChunkCorpus.iter Scenario.no_files
         (Scenario.small_engine Scenario.default_tokenizer Scenario.no_match
            (VBool true) VNone)))
  = [("s", None)]
  /\ length (fst (fst (ChunkCorpus.iter Scenario.no_files
         (Scenario.small_engine Scenario.default_tokenizer Scenario.no_match
            (VBool true) VNone)))) <> 0%nat.
Proof. split; [vm_compute; reflexivity|vm_compute; discriminate]. Qed.

(** The third case of the small-text policy: scaling up computes the float
    [factor = (chunksize / text_len) + 1], multiplies the text by it and
    raises TypeError.  The quotient is one a float can hold; when it is not,
    the division has raised before ([upscale_raises_OverflowError]). *)
Lemma upscale_raises_TypeError {A} (self : ChunkCorpus.obj) label
    (text : list A) index cis c o :
  chunkindices self = Some cis -> cis !! index = Some None -> text <> [] ->
  resolve_chunksize self (Z.of_nat (length text)) = Ok (Some c) ->
  resolve_overlap self (Some c) = Ok o ->
  Z.of_nat (length text) < c ->
  true_div_overflows c (Z.of_nat (length text)) = false ->
  truthy (minsize self) = false -> truthy (upscale self) = true ->
  chunk_text label text index self = (([], Some TypeError), self).
Proof.
  intros Hc Hi Ht Hcs Ho Hlt Hq Hm Hu. unfold chunk_text.
  rewrite (item_ok _ _ _ _ _ _ Hc Hi).
  rewrite (chunk_compute_small self text index c o Ht Hcs Ho Hlt).
  rewrite Hm, Hu, Hq. reflexivity.
Qed.

(** Scaling up to a chunk size whose quotient by the length of the text is
    too large for a float: the division raises OverflowError. *)
Lemma upscale_raises_OverflowError {A} (self : ChunkCorpus.obj) label
    (text : list A) index cis c o :
  chunkindices self = Some cis -> cis !! index = Some None -> text <> [] ->
  resolve_chunksize self (Z.of_nat (length text)) = Ok (Some c) ->
  resolve_overlap self (Some c) = Ok o ->
  Z.of_nat (length text) < c ->
  true_div_overflows c (Z.of_nat (length text)) = true ->
  truthy (minsize self) = false -> truthy (upscale self) = true ->
  chunk_text label text index self = (([], Some OverflowError), self).
Proof.
  intros Hc Hi Ht Hcs Ho Hlt Hq Hm Hu. unfold chunk_text.
  rewrite (item_ok _ _ _ _ _ _ Hc Hi).
  rewrite (chunk_compute_small self text index c o Ht Hcs Ho Hlt).
  rewrite Hm, Hu, Hq. reflexivity.
Qed.

(** The largest float is [float_limit - 2^970]; every int below
    [float_limit] converts, the ints between the two rounding down to it,
    and from [float_limit] on the conversion raises. *)
Lemma float_of_int_at_the_limit :
  float_of_int (float_limit - 1) = Ok (float_of_Z (float_limit - 2 ^ 970)) /\
  Prim2SF (float_of_Z (float_limit - 2 ^ 970))
  = S754_finite false (2 ^ 53 - 1) 971 /\
  float_of_Z float_limit = infinity /\
  float_of_int float_limit = Raise OverflowError /\
  float_of_int (- float_limit) = Raise OverflowError.
Proof. vm_compute. repeat split. Qed.

(** Floats hold the ints up to [2^53] as they are, and round the others to
    the nearest float, ties to even. *)
Lemma float_of_Z_rounds_to_even :
  int_of_float (float_of_Z (2 ^ 53)) = Ok (2 ^ 53) /\
  int_of_float (float_of_Z (2 ^ 53 + 1)) = Ok (2 ^ 53) /\
  int_of_float (float_of_Z (2 ^ 53 + 3)) = Ok (2 ^ 53 + 4) /\
  int_of_float (float_of_Z (2 ^ 63)) = Ok (2 ^ 63) /\
  int_of_float (float_of_Z (- (2 ^ 63 + 5))) = Ok (- 2 ^ 63).
Proof. vm_compute. repeat split. Qed.

(** [chunksize=10**400] on three tokens.  With [overlap=0.5] the product
    [self.overlap * chunksize] raises OverflowError before the text is
    measured against the chunk size: nothing is yielded.  With the overlap
    left at zero and [upscale] set, the division [chunksize / text_len]
    raises it. *)
Lemma huge_chunksize_raises_OverflowError tk glob :
  chunk_text "s" Scenario.three 0
    (Scenario.huge_engine tk glob (VFloat 0.5%float) VNone)
  = (([], Some OverflowError),
     Scenario.huge_engine tk glob (VFloat 0.5%float) VNone)
  /\
  chunk_text "s" Scenario.three 0
    (Scenario.huge_engine tk glob VNone (VBool true))
  = (([], Some OverflowError),
     Scenario.huge_engine tk glob VNone (VBool true)).
Proof. split; vm_compute; reflexivity. Qed.






(** ** The chunking engine: chunks without overlap and without rounding *)

Lemma slice_block {A} (l : list A) (j c : nat) :
  (j * c + c <= length l)%nat ->
  slice l (Z.of_nat (j * c)) (Z.of_nat (j * c) + Z.of_nat c)
  = take c (drop (j * c) l).
Proof.
  intros H. unfold slice, clamp_index.
  assert ((Z.of_nat (j * c) <? 0) = false) as -> by (apply Z.ltb_ge; lia).
  assert ((Z.of_nat (j * c) + Z.of_nat c <? 0) = false) as ->
    by (apply Z.ltb_ge; lia).
  rewrite !Z.min_l by lia.
  replace (Z.to_nat (Z.of_nat (j * c) + Z.of_nat c - Z.of_nat (j * c))) with c
    by lia.
  rewrite Nat2Z.id. reflexivity.
Qed.

(** The chunks yielded for the blocks [j*c .. j*c + c], [j] from [a] on,
    put together. *)
Lemma chunk_emit_blocks {A} label (text : list A) (c : nat) k a n :
  ((a + k) * c <= length text)%nat ->
  exists out,
    chunk_emit label text n
      (zip (map NInt (map (fun j => 0 + Z.of_nat j * Z.of_nat c) (seq a k)))
           (map NInt (map (fun s => s + Z.of_nat c)
                        (map (fun j => 0 + Z.of_nat j * Z.of_nat c) (seq a k)))))
    = (out, None) /\
    chunks_together out
    = take (k * c) (drop (a * c) text).
Proof.
  revert a n. induction k as [|k IH]; intros a n H.
  - exists []. split; reflexivity.
  - cbn [seq map zip zip_with chunk_emit slice_num].
    destruct (IH (S a) (S n)) as (out & E & Hout); [lia|].
    rewrite E. eexists. split; [reflexivity|].
    unfold chunks_together in *. cbn [flat_map default snd]. rewrite Hout.
    replace (0 + Z.of_nat a * Z.of_nat c) with (Z.of_nat (a * c)) by lia.
    rewrite slice_block by lia.
    replace (S k * c)%nat with (c + k * c)%nat by lia.
    rewrite <- take_take_drop. rewrite drop_drop.
    replace (a * c + c)%nat with (S a * c)%nat by lia. reflexivity.
Qed.

(** What the engine yields for a text of at least one chunk when the
    overlap is 0 and [roundedsize] is falsy: the chunks put together are the
    first [chunksize * floor(len / chunksize)] items of the text, and the
    items after them are in no chunk. *)
Lemma unrounded_chunks_are_a_prefix {A} (self : ChunkCorpus.obj) label
    (text : list A) index cis c :
  chunkindices self = Some cis -> cis !! index = Some None ->
  resolve_chunksize self (Z.of_nat (length text)) = Ok (Some c) ->
  resolve_overlap self (Some c) = Ok (Some 0) ->
  truthy (roundedsize self) = false ->
  0 < c <= Z.of_nat (length text) ->
  exists out self',
    chunk_text label text index self = ((out, None), self') /\
    chunks_together out
    = take (Z.to_nat (c * (Z.of_nat (length text) / c))) text.
Proof.
  intros Hc Hi Hcs Ho Hr [Hpos Hle].
  assert (Ht : text <> []) by (destruct text; [cbn in Hle; lia|done]).
  assert (Hlt : (index < length cis)%nat) by (eapply lookup_lt_Some; eauto).
  unfold chunk_text. rewrite (item_ok _ _ _ _ _ _ Hc Hi).
  unfold chunk_compute. rewrite (text_len_nonzero _ Ht). mred.
  rewrite Hcs, Ho.
  assert ((c >? Z.of_nat (length text)) = false) as ->.
  { destruct (Z.gtb_spec c (Z.of_nat (length text))); [lia|done]. }
  unfold boundaries. cbn [negb Z.eqb]. unfold range.
  assert ((c =? 0) = false) as -> by (apply Z.eqb_neq; lia).
  assert ((0 <? c) = true) as -> by (apply Z.ltb_lt; lia).
  rewrite Hr.
  replace (Z.of_nat (length text) - c + 1 - 0 + c - 1)
    with (Z.of_nat (length text)) by lia.
  set (k := Z.to_nat (Z.of_nat (length text) / c)).
  rewrite (set_item_ok _ _ _ _ _ _ _ Hc Hlt).
  erewrite item_ok; [|cbn; reflexivity|apply list_lookup_insert_eq; done].
  assert (Hk : (k * Z.to_nat c <= length text)%nat).
  { subst k. pose proof (Z.mul_div_le (Z.of_nat (length text)) c Hpos).
    assert (0 <= Z.of_nat (length text) / c) by (apply Z.div_pos; lia).
    nia. }
  destruct (chunk_emit_blocks label text (Z.to_nat c) k 0 0) as (out & E & Hout);
    [lia|].
  rewrite Z2Nat.id in E by lia. rewrite E.
  eexists _, _. split; [reflexivity|].
  rewrite Hout. cbn [Nat.mul drop]. f_equal.
  subst k. assert (0 <= Z.of_nat (length text) / c) by (apply Z.div_pos; lia).
  nia.
Qed.

(** ** The chunking engine: parameters *)

Lemma set_params_fields p kw self :
  chunksize (run (ChunkCorpus.set_params p kw) self)
    = keep_or (chunksize self) (p_chunksize p) /\
  overlap (run (ChunkCorpus.set_params p kw) self)
    = keep_or (overlap self) (p_overlap p) /\
  roundedsize (run (ChunkCorpus.set_params p kw) self)
    = (if is_none (p_roundedsize p) then roundedsize self else p_overlap p).
Proof.
  unfold run, ChunkCorpus.set_params, super, reset_chunkindices.
  destruct self as [b ? ? ? ? ? ? ?]. munfold. cbn.
  destruct (_ || _); cbn; [destruct (texts b); cbn|]; done.
Qed.

(** What [roundedsize] is after a call that asks for it: the value of the
    argument [overlap]. *)
Lemma set_params_roundedsize_is_overlap p kw self :
  p_roundedsize p = VBool true ->
  roundedsize (run (ChunkCorpus.set_params p kw) self) = p_overlap p.
Proof.
  intros H. destruct (set_params_fields p kw self) as (_ & _ & ->).
  rewrite H. reflexivity.
Qed.

Lemma set_params_falsy_keeps_chunkindices p kw self :
  all_falsy p ->
  chunkindices (run (ChunkCorpus.set_params p kw) self) = chunkindices self.
Proof.
  intros (H1 & H2 & H3 & H4 & H5 & H6).
  unfold run, ChunkCorpus.set_params, super.
  rewrite H1, H2, H3, H4, H5, H6.
  destruct self as [b ? ? ? ? ? ? ?]. munfold. reflexivity.
Qed.

(** C1: with [set_params(chunksize=2, overlap=0, roundedsize=True)] the
    chunks of a text should put together give the text back.  The code
    stores the argument [overlap], here 0, as [roundedsize], so nothing is
    rounded: of the five tokens a, b, c, d, e the engine yields a, b and
    c, d, and e is dropped. *)
Theorem C1_rounding_request_drops_a_token tk glob disk :
  roundedsize (Scenario.rounded_engine tk glob) = VInt 0 /\
  fst (ChunkCorpus.iter disk (Scenario.rounded_engine tk glob)) =
    ([("t_0000", Some (CToks ["a"; "b"])); ("t_0001", Some (CToks ["c"; "d"]))],
     None) /\
  chunk_tokens (fst (fst (ChunkCorpus.iter disk (Scenario.rounded_engine tk glob))))
    = ["a"; "b"; "c"; "d"] /\
  chunk_tokens (fst (fst (ChunkCorpus.iter disk (Scenario.rounded_engine tk glob))))
    <> Scenario.letters.
Proof.
  assert (E : fst (ChunkCorpus.iter disk (Scenario.rounded_engine tk glob)) =
    ([("t_0000", Some (CToks ["a"; "b"])); ("t_0001", Some (CToks ["c"; "d"]))],
     None)) by (vm_compute; reflexivity).
  split; [vm_compute; reflexivity|]. split; [exact E|].
  rewrite E. split; [reflexivity|discriminate].
Qed.

(** When rounding does take place (the argument [overlap] being truthy)
    and words are left over, the boundaries are floats and the first slice
    raises TypeError: chunksize 4, overlap 2 on the nine tokens of the
    sonnet. *)
Lemma rounding_spreads_floats tk glob disk :
  roundedsize (Scenario.engine tk glob [("a", CToks Scenario.sonnet_words)]
     (mk_params (VInt 4) VNone (VInt 2) (VBool true) VNone VNone)) = VInt 2 /\
  fst (ChunkCorpus.iter disk
    (Scenario.engine tk glob [("a", CToks Scenario.sonnet_words)]
       (mk_params (VInt 4) VNone (VInt 2) (VBool true) VNone VNone)))
  = ([], Some TypeError).
Proof. split; vm_compute; reflexivity. Qed.

(** C3: a change of a chunking parameter through [set_params] should clear
    every stored list of boundaries.  The code clears them only when an
    argument is truthy.  The sonnet's tokens are chunked with chunksize 4 and
    overlap 2, then [set_params(overlap=0)] is called: the overlap is now 0,
    the boundaries of overlap 2 are still stored, and the engine goes on
    yielding the three overlapping chunks, where an engine that never
    chunked the text yields two. *)
Theorem C3_overlap_zero_keeps_old_boundaries tk glob disk :
  overlap (Scenario.sliding_engine tk glob) = VInt 2 /\
  overlap (Scenario.reconfigured_engine tk glob disk) = VInt 0 /\
  chunkindices (Scenario.reconfigured_engine tk glob disk)
    = Some [Some [(NInt 0, NInt 4); (NInt 2, NInt 6); (NInt 4, NInt 8)]] /\
  fst (ChunkCorpus.iter disk (Scenario.reconfigured_engine tk glob disk)) =
    ([("a_0000", Some (CToks ["shall"; "i"; "compare"; "thee"]));
      ("a_0001", Some (CToks ["compare"; "thee"; "to"; "a"]));
      ("a_0002", Some (CToks ["to"; "a"; "summer"; "s"]))], None) /\
  fst (ChunkCorpus.iter disk (Scenario.fresh_engine tk glob)) =
    ([("a_0000", Some (CToks ["shall"; "i"; "compare"; "thee"]));
      ("a_0001", Some (CToks ["to"; "a"; "summer"; "s"]))], None).
Proof. repeat split; vm_compute; reflexivity. Qed.

(** ** The corpus store: files and empty sources *)

(** C2: with [keep_in_memory] set, a text read from a file should be read
    once and then served from memory.  The code opens whatever is stored on
    every access: the first access reads third.txt and stores its text in
    place of the filename; the second access passes that text to [open] as
    a path and raises IOError.  Without [keep_in_memory] both accesses read
    third.txt. *)
Theorem C2_second_access_opens_the_text :
  let first := getitem Scenario.one_file 0 (Scenario.file_corpus true) in
  let second := getitem Scenario.one_file 0 (snd first) in
  fst first = Ok ("third", CStr Scenario.winds) /\
  opened (snd first) = ["third.txt"] /\
  texts (snd first) = Some [("third", CStr Scenario.winds)] /\
  fst second = Raise IOError /\
  opened (snd second) = ["third.txt"; Scenario.winds] /\
  let first' := getitem Scenario.one_file 0 (Scenario.file_corpus false) in
  let second' := getitem Scenario.one_file 0 (snd first') in
  fst first' = Ok ("third", CStr Scenario.winds) /\
  fst second' = Ok ("third", CStr Scenario.winds) /\
  opened (snd second') = ["third.txt"; "third.txt"].
Proof. cbv zeta. repeat split; vm_compute; reflexivity. Qed.

(** C8, as the code has it: an empty list and an empty mapping make [fit]
    log an error and leave through [sys.exit()], which raises SystemExit to
    the caller before anything is bound. *)
Theorem C8_empty_list_or_mapping_exits glob fnames (self : BOWCorpus.obj) :
  BOWCorpus.fit glob (SrcPairs []) fnames self = (Raise SystemExit, self) /\
  BOWCorpus.fit glob (SrcDict []) fnames self = (Raise SystemExit, self) /\
  BOWCorpus.fit glob (SrcNames []) fnames self = (Raise SystemExit, self).
Proof. repeat split. Qed.

(** C8, as stated, fails: binding the empty list raises SystemExit, not a
    configuration failure. *)
Lemma C8_empty_list_raises_SystemExit :
  fst (BOWCorpus.fit Scenario.no_match (SrcPairs []) false
         (BOWCorpus.init Scenario.default_tokenizer))
  = Raise SystemExit
  /\ fst (BOWCorpus.fit Scenario.no_match (SrcPairs []) false
         (BOWCorpus.init Scenario.default_tokenizer))
  <> Raise ConfigurationError.
Proof. split; [reflexivity|discriminate]. Qed.

(** A pattern that matches no file passes the test for emptiness, which
    looks at the pattern; the first filename is then read from an empty
    list. *)
Lemma fit_unmatched_pattern glob p fnames (self : BOWCorpus.obj) :
  p <> EmptyString -> glob p = [] ->
  BOWCorpus.fit glob (SrcPattern p) fnames self
  = (Raise IndexError, with_filenames true self).
Proof.
  intros Hp Hg. unfold BOWCorpus.fit. cbn [to_shape shape_len].
  destruct p as [|c p]; [done|]. cbn [String.length Nat.eqb].
  unfold fit_filenames, fit_labels. mred. rewrite Hg.
  destruct fnames; reflexivity.
Qed.

(** ** The corpus store: what an access changes *)


Lemma deduce_tokenized_inv i t b r b' :
  deduce_tokenized i t b = (r, b') ->
  config b' = config b /\ texts b' = texts b /\ in_memory b' = in_memory b /\
  (tokenized b' = tokenized b \/
   exists tks, tokenized b = Some tks /\ tks !! i = Some None /\
               tokenized b' = Some (<[i:=Some (is_list t)]> tks)) /\
  (n_tokens b' = n_tokens b \/
   exists nts v, n_tokens b = Some nts /\ n_tokens b' = Some (<[i:=v]> nts)) /\
  (r = Ok tt -> exists tks' v, tokenized b' = Some tks' /\ tks' !! i = Some (Some v)).
Proof.
  unfold deduce_tokenized. destruct b. blast.
  all: repeat split; eauto; try (intros; simplify_eq; fail).
  all: try (right; eauto; fail).
  all: try (intros _; eexists _, _; split; [done|]; apply list_lookup_insert_eq; done).
Qed.




Lemma deduce_tokenized_ok i t b tks nts :
  tokenized b = Some tks -> n_tokens b = Some nts ->
  (i < length tks)%nat -> (i < length nts)%nat ->
  exists b', deduce_tokenized i t b = (Ok tt, b').
Proof.
  intros Hk Hn Hik Hin. unfold deduce_tokenized. destruct b. cbn in *. subst.
  destruct (lookup_lt_is_Some_2 tks i Hik) as [tk Htk].
  munfold. cbn. rewrite Htk. destruct tk as [?|]; [eauto|].
  destruct (is_list t); cbn; rewrite decide_True by done; [|eauto].
  cbn. rewrite decide_True by done. eauto.
Qed.


Lemma retain_ok i l t b ims :
  in_memory b = Some ims -> ims !! i <> Some false -> (i < length ims)%nat ->
  retain i l t b = (Ok tt, b).
Proof.
  intros Hm Hi Hlt. unfold retain. destruct b. cbn in *. subst.
  destruct (lookup_lt_is_Some_2 ims i Hlt) as [[] Him]; [|done].
  munfold. cbn. destruct keep_in_memory0; [|done]. cbn. rewrite Him. done.
Qed.


Lemma chunk_text_base {A} label (text : list A) index self :
  base (snd (chunk_text label text index self)) = base self.
Proof.
  unfold chunk_text, chunk_compute. destruct self. munfold. cbn.
  repeat (case_match; simplify_eq/=; try done).
Qed.

Lemma chunk_content_base label text index self :
  base (snd (chunk_content label text index self)) = base self.
Proof.
  unfold chunk_content, as_content. destruct text.
  - pose proof (chunk_text_base label (list_ascii_of_string s) index self) as H.
    destruct (chunk_text _ _ _ _) as [[? ?] ?]. done.
  - pose proof (chunk_text_base label ws index self) as H.
    destruct (chunk_text _ _ _ _) as [[? ?] ?]. done.
Qed.






Lemma gen_loop_inv {S O} (I : S -> Prop) (P : O -> Prop)
    (body : nat -> S -> gen O * S) idxs s :
  (forall i s, I s -> I (snd (body i s)) /\ Forall P (fst (fst (body i s)))) ->
  I s ->
  I (snd (gen_loop body idxs s)) /\ Forall P (fst (fst (gen_loop body idxs s))).
Proof.
  intros Hbody. revert s. induction idxs as [|i rest IH]; intros s Hs; cbn.
  - split; [done|constructor].
  - destruct (Hbody i s Hs) as [Hs1 HP1].
    destruct (body i s) as [[o [e|]] s1]; cbn in *; [done|].
    destruct (IH s1 Hs1) as [Hs2 HP2].
    destruct (gen_loop body rest s1) as [[o' e'] s2]; cbn in *.
    split; [done|]. apply Forall_app. done.
Qed.






(** ** The corpus store: every access of a corpus of files opens *)

Lemma deduce_tokenized_opened i t b :
  opened (snd (deduce_tokenized i t b)) = opened b.
Proof. unfold deduce_tokenized. destruct b. munfold. cbn.
  repeat (case_match; simplify_eq/=; try done). Qed.

Lemma tokenize_preprocess_opened i l t b :
  opened (snd (tokenize_preprocess i l t b)) = opened b.
Proof.
  unfold tokenize_preprocess. destruct b. munfold. cbn.
  repeat (case_match; simplify_eq/=; try done).
Qed.

Lemma apply_tokenize_opened i l t b :
  opened (snd (apply_tokenize i l t b)) = opened b.
Proof.
  unfold apply_tokenize. mred. destruct (tokenize b) as [[]|]; [| |done].
  - apply tokenize_preprocess_opened.
  - destruct b. munfold. cbn.
  repeat (case_match; simplify_eq/=; try done).
Qed.

Lemma retain_opened i l t b : opened (snd (retain i l t b)) = opened b.
Proof. unfold retain. destruct b. munfold. cbn.
  repeat (case_match; simplify_eq/=; try done). Qed.

(** With [filenames] set, an access calls [open] on the stored text, be it
    a filename or a text kept in memory by an earlier access. *)
Lemma process_text_opens disk i l path b :
  filenames b = true ->
  opened (snd (process_text disk i l (CStr path) b)) = opened b ++ [path].
Proof.
  intros Hfn. unfold process_text.
  unfold bind at 1, gets at 1. rewrite Hfn. unfold bind at 1.
  unfold open_read. unfold bind at 1, modify at 1.
  destruct (disk path) as [s|]; [|destruct b; reflexivity].
  unfold ret at 1. unfold bind at 1.
  set (b1 := with_opened (opened b ++ [path]) b).
  assert (H1 : opened b1 = opened b ++ [path]) by (destruct b; reflexivity).
  pose proof (deduce_tokenized_opened i (CStr s) b1) as H2.
  destruct (deduce_tokenized i (CStr s) b1) as [[[]|e] b2]; cbn in H2;
    [|cbn; congruence].
  unfold bind at 1.
  pose proof (apply_tokenize_opened i l (CStr s) b2) as H3.
  destruct (apply_tokenize i l (CStr s) b2) as [[t3|e] b3]; cbn in H3;
    [|cbn; congruence].
  unfold bind at 1.
  pose proof (retain_opened i l t3 b3) as H4.
  destruct (retain i l t3 b3) as [[[]|e] b4]; cbn in H4; cbn; congruence.
Qed.

(** * Further properties *)

Lemma tokenize_preprocess_serves i l t b tks nts :
  tokenized b = Some tks -> tks !! i = Some (Some (is_list t)) ->
  n_tokens b = Some nts -> (i < length nts)%nat ->
  exists b',
    tokenize_preprocess i l t b
    = (Ok (filtered b match t with
                      | CStr s => CToks (tokenizer b s)
                      | CToks ws => CToks ws
                      end), b') /\
    config b' = config b /\ texts b' = texts b /\ in_memory b' = in_memory b /\
    tokenized b' = tokenized b /\
    exists nts', n_tokens b' = Some nts' /\ length nts' = length nts.
Proof.
  intros Hk Hi Hn Hin. unfold tokenize_preprocess, filtered.
  destruct b. cbn in *. subst. munfold. cbn. rewrite Hi. destruct t; cbn.
  - rewrite decide_True by done. cbn. eexists. split; [reflexivity|].
    cbn. repeat split; try done. eexists. split; [done|]. apply length_insert.
  - eexists. split; [reflexivity|]. cbn. repeat split; eauto.
Qed.

Lemma apply_tokenize_serves i l t b tks nts :
  tokenized b = Some tks -> tks !! i = Some (Some (is_list t)) ->
  n_tokens b = Some nts -> (i < length nts)%nat ->
  exists b',
    apply_tokenize i l t b = (Ok (served b t), b') /\
    config b' = config b /\ texts b' = texts b /\ in_memory b' = in_memory b /\
    tokenized b' = tokenized b /\
    exists nts', n_tokens b' = Some nts' /\ length nts' = length nts.
Proof.
  intros Hk Hi Hn Hin. unfold apply_tokenize, served. mred.
  destruct (tokenize b) as [[]|] eqn:Hm.
  - apply (tokenize_preprocess_serves i l t b tks nts); done.
  - rewrite (item_ok _ _ _ _ _ _ Hk Hi).
    exists b. destruct t; cbn; repeat split; eauto.
  - exists b. repeat split; eauto.
Qed.

Lemma served_config b b' t :
  config b' = config b -> served b' t = served b t.
Proof.
  unfold config. intros C. injection C as Q1 Q2 Q3 Q4 Q5 Q6.
  unfold served, filtered. rewrite Q2, Q3, Q4, Q5. reflexivity.
Qed.

(** An access to a given text, in full. *)
Lemma process_text_serves disk i l t b txts :
  filenames b = false -> resident_inv b ->
  texts b = Some txts -> txts !! i = Some (l, t) ->
  exists b',
    process_text disk i l t b = (Ok (l, served b t), b') /\
    config b' = config b /\ texts b' = texts b /\ resident_inv b'.
Proof.
  intros Hfn Hres Htx Hi.
  destruct (Hres Hfn _ Htx) as (tks & nts & ims & Hk & Hn & Hm & Lk & Ln & Lm & Him & Hsh).
  assert (Hlt : (i < length txts)%nat) by (eapply lookup_lt_Some; eauto).
  unfold process_text.
  unfold bind at 1. unfold gets at 1. rewrite Hfn. unfold bind at 1, ret at 1.
  unfold bind at 1.
  destruct (deduce_tokenized_ok i t b tks nts Hk Hn) as [b2 E2]; [lia..|].
  rewrite E2.
  apply deduce_tokenized_inv in E2 as (C2 & T2 & M2 & K2 & N2 & R2).
  destruct (R2 eq_refl) as (tks2 & v & Hk2 & Hv).
  assert (Htks2 : length tks2 = length txts /\ v = is_list t /\
            forall j l' t', txts !! j = Some (l', t') ->
              tks2 !! j = Some None \/ tks2 !! j = Some (Some (is_list t'))).
  { destruct K2 as [K2 | (tks' & Hb & Hnone & K2)].
    - rewrite K2, Hk in Hk2. simplify_eq. split; [done|]. split; [|done].
      destruct (Hsh _ _ _ Hi) as [?|?]; congruence.
    - rewrite K2 in Hk2. simplify_eq. rewrite length_insert. split; [done|].
      rewrite list_lookup_insert_eq in Hv by lia. split; [congruence|].
      intros j l' t' Hj. destruct (decide (i = j)) as [<-|Hne].
      + rewrite list_lookup_insert_eq by lia. right. congruence.
      + rewrite list_lookup_insert_ne by done. eauto. }
  destruct Htks2 as (Lk2 & -> & Hsh2).
  assert (Hnts2 : exists nts2, n_tokens b2 = Some nts2 /\ length nts2 = length txts).
  { destruct N2 as [N2 | (nts' & w & Hb & N2)].
    - exists nts. split; congruence.
    - eexists. split; [done|]. rewrite length_insert. congruence. }
  destruct Hnts2 as (nts2 & Hn2 & Ln2).
  unfold bind at 1.
  destruct (apply_tokenize_serves i l t b2 tks2 nts2 Hk2 Hv Hn2)
    as (b3 & E3 & C3 & T3 & M3 & K3 & nts3 & Hn3 & Ln3); [lia|].
  rewrite E3.
  assert (served b2 t = served b t) as ->.
  { unfold config in C2. injection C2 as Q1 Q2 Q3 Q4 Q5 Q6.
    unfold served, filtered. rewrite Q2, Q3, Q4, Q5. reflexivity. }
  unfold bind at 1.
  rewrite (retain_ok i l _ b3 ims) by (congruence || lia || done).
  exists b3. split; [reflexivity|].
  split; [congruence|]. split; [congruence|].
  intros Hfn3 txts3 Htx3.
  assert (txts3 = txts) as -> by congruence.
  exists tks2, nts3, ims. repeat split; try congruence; done.
Qed.

(** ** The corpus store: what no access changes *)

Lemma same_but_length {A} i (old new : option (list A)) l :
  same_but i old new -> old = Some l ->
  exists l', new = Some l' /\ length l' = length l.
Proof.
  intros [->|(l0 & v & E & _ & ->)] H; [eauto|].
  simplify_eq. eexists. split; [done|]. apply length_insert.
Qed.

Lemma same_but_trans {A} i (a b c : option (list A)) :
  same_but i a b -> same_but i b c -> same_but i a c.
Proof.
  intros [->|(l & v & -> & Hl & ->)]; [done|].
  intros [->|(l' & v' & E & Hl' & ->)]; [right; eauto|].
  simplify_eq. right. exists l, v'. split; [done|]. split; [done|].
  rewrite list_insert_insert_eq. done.
Qed.

Lemma set_item_same_but {S A} ex (attr : S -> option (list A)) upd i v s :
  (forall x s, attr (upd x s) = x) ->
  same_but i (attr s) (attr (snd (set_item ex attr upd i v s))).
Proof.
  intros Hupd. unfold set_item. destruct (attr s) as [l|] eqn:E; [|left; cbn; done].
  destruct (decide _); cbn; [|left; done].
  right. exists l, v. rewrite Hupd. done.
Qed.

Lemma deduce_tokenized_frame i t b :
  let b' := snd (deduce_tokenized i t b) in
  config b' = config b /\ opened b' = opened b /\ texts b' = texts b /\
  in_memory b' = in_memory b /\
  same_but i (tokenized b) (tokenized b') /\ same_but i (n_tokens b) (n_tokens b').
Proof.
  unfold deduce_tokenized. destruct b. munfold. cbn.
  repeat (case_match; simplify_eq/=; try done);
    repeat split; try (left; done); try (right; eexists _, _; done).
Qed.

Lemma tokenize_preprocess_frame i l t b :
  let b' := snd (tokenize_preprocess i l t b) in
  config b' = config b /\ opened b' = opened b /\ texts b' = texts b /\
  in_memory b' = in_memory b /\ tokenized b' = tokenized b /\
  same_but i (n_tokens b) (n_tokens b').
Proof.
  unfold tokenize_preprocess. destruct b. munfold. cbn.
  repeat (case_match; simplify_eq/=; try done);
    repeat split; try (left; done); try (right; eexists _, _; done).
Qed.

Lemma apply_tokenize_frame i l t b :
  let b' := snd (apply_tokenize i l t b) in
  config b' = config b /\ opened b' = opened b /\ texts b' = texts b /\
  in_memory b' = in_memory b /\ tokenized b' = tokenized b /\
  same_but i (n_tokens b) (n_tokens b').
Proof.
  unfold apply_tokenize. mred. destruct (tokenize b) as [[]|].
  - apply tokenize_preprocess_frame.
  - destruct b. munfold. cbn.
    repeat (case_match; simplify_eq/=; try done); repeat split; left; done.
  - cbn. repeat split; left; done.
Qed.

Lemma retain_frame i l t b :
  let b' := snd (retain i l t b) in
  config b' = config b /\ opened b' = opened b /\
  tokenized b' = tokenized b /\ n_tokens b' = n_tokens b /\
  same_but i (in_memory b) (in_memory b') /\
  (texts b' = texts b \/
   exists txts, texts b = Some txts /\ (i < length txts)%nat /\
                texts b' = Some (<[i:=(l, t)]> txts)).
Proof.
  unfold retain. destruct b. munfold. cbn.
  repeat (case_match; simplify_eq/=; try done);
    repeat split; try (left; done); try (right; eexists _, _; done);
    try (right; eexists; done).
Qed.

Lemma open_read_frame disk t b :
  let b' := snd (open_read disk t b) in
  config b' = config b /\ texts b' = texts b /\ in_memory b' = in_memory b /\
  tokenized b' = tokenized b /\ n_tokens b' = n_tokens b.
Proof.
  unfold open_read. destruct b, t; munfold; cbn; [|done].
  destruct (disk s); done.
Qed.

(** What one call of [process_text] can change. *)
Lemma process_text_frame disk i l t b r b' :
  process_text disk i l t b = (r, b') ->
  config b' = config b /\
  same_but i (in_memory b) (in_memory b') /\
  same_but i (tokenized b) (tokenized b') /\
  same_but i (n_tokens b) (n_tokens b') /\
  (texts b' = texts b \/
   exists txts t', texts b = Some txts /\ (i < length txts)%nat /\
                   texts b' = Some (<[i:=(l, t')]> txts)).
Proof.
  unfold process_text.
  unfold bind at 1, gets at 1. unfold bind at 1.
  pose proof (open_read_frame disk t b) as F1.
  assert (G1 : let b1 := snd ((if filenames b then open_read disk t else ret t) b) in
               config b1 = config b /\ texts b1 = texts b /\
               in_memory b1 = in_memory b /\ tokenized b1 = tokenized b /\
               n_tokens b1 = n_tokens b).
  { destruct (filenames b); [exact F1|cbn; done]. }
  clear F1.
  destruct ((if filenames b then open_read disk t else ret t) b) as [r1 b1].
  cbn in G1. destruct G1 as (C1 & T1 & M1 & K1 & N1).
  rewrite <- K1, <- N1, <- M1, <- T1, <- C1. clear C1 T1 M1 K1 N1.
  destruct r1 as [t1|e];
    [|intros [= <- <-]; repeat split; left; done].
  unfold bind at 1.
  pose proof (deduce_tokenized_frame i t1 b1) as F2.
  destruct (deduce_tokenized i t1 b1) as [r2 b2]. cbn in F2.
  destruct F2 as (C2 & _ & T2 & M2 & K2 & N2).
  destruct r2 as [[]|e];
    [|intros [= <- <-]; rewrite T2, M2; repeat split; try done; left; done].
  unfold bind at 1.
  pose proof (apply_tokenize_frame i l t1 b2) as F3.
  destruct (apply_tokenize i l t1 b2) as [r3 b3]. cbn in F3.
  destruct F3 as (C3 & _ & T3 & M3 & K3 & N3).
  assert (N13 : same_but i (n_tokens b1) (n_tokens b3))
    by (eapply same_but_trans; eauto).
  destruct r3 as [t3|e];
    [|intros [= <- <-]; rewrite C3, T3, M3, K3, C2, T2, M2;
      repeat split; try done; left; done].
  unfold bind at 1.
  pose proof (retain_frame i l t3 b3) as F4.
  destruct (retain i l t3 b3) as [r4 b4]. cbn in F4.
  destruct F4 as (C4 & _ & K4 & N4 & M4 & T4).
  assert (R : config b4 = config b1 /\ same_but i (in_memory b1) (in_memory b4) /\
              same_but i (tokenized b1) (tokenized b4) /\
              same_but i (n_tokens b1) (n_tokens b4) /\
              (texts b4 = texts b1 \/
               exists txts t', texts b1 = Some txts /\ (i < length txts)%nat /\
                               texts b4 = Some (<[i:=(l, t')]> txts))).
  { split; [congruence|]. split; [congruence|]. split; [congruence|].
    split; [congruence|].
    destruct T4 as [T4|(txts & E & Hl & T4)]; [left; congruence|].
    right. exists txts, t3. split; [congruence|]. done. }
  destruct r4 as [[]|e]; intros [= <- <-]; exact R.
Qed.

Lemma same_corpus_refl b : same_corpus b b.
Proof. done. Qed.

Lemma same_corpus_trans a b c :
  same_corpus a b -> same_corpus b c -> same_corpus a c.
Proof. unfold same_corpus. intros (-> & -> & ->) (-> & -> & ->). done. Qed.

Lemma getitem_same_corpus disk i b : same_corpus b (snd (getitem disk i b)).
Proof.
  unfold getitem, text_at. unfold bind.
  destruct (item TypeError texts i b) as [r1 b1] eqn:E1.
  apply item_inv in E1 as [-> E1].
  destruct r1 as [[l t]|e]; [|apply same_corpus_refl].
  destruct (E1 _ eq_refl) as (txts & Htx & Hi).
  destruct (process_text disk i l t b) as [r b'] eqn:E. cbn [snd].
  apply process_text_frame in E as (C & _ & _ & _ & T).
  split; [done|]. unfold len_texts, get_labels.
  destruct T as [->|(txts' & t' & E' & Hl & ->)]; [done|].
  rewrite Htx in *. simplify_eq. rewrite length_insert. split; [done|].
  f_equal. change (map fst) with (fmap (M:=list) (@fst string content)).
  rewrite list_fmap_insert. cbn [fst].
  apply list_insert_id. rewrite list_lookup_fmap, Hi. done.
Qed.

Lemma gen_loop_same_corpus {O} (body : nat -> BOWCorpus.obj -> gen O * BOWCorpus.obj)
    idxs b :
  (forall i s, same_corpus s (snd (body i s))) ->
  same_corpus b (snd (gen_loop body idxs b)).
Proof.
  intros Hbody.
  destruct (gen_loop_inv (fun s => same_corpus b s) (fun _ => True) body idxs b)
    as [H _]; [|apply same_corpus_refl|exact H].
  intros i s Hs. split; [|apply Forall_true; done].
  eapply same_corpus_trans; eauto.
Qed.

Lemma yield_one_snd {S O} (m : M S O) s : snd (yield_one m s) = snd (m s).
Proof. unfold yield_one. destruct (m s) as [[o|e] s']; done. Qed.

(** No access changes the settings of a corpus, the number of its texts or
    their labels: not indexing, not iterating, not slicing, whether the
    access returns or raises. *)
Theorem accesses_keep_settings_and_labels disk (b : BOWCorpus.obj) :
  (forall i, same_corpus b (snd (getitem disk i b))) /\
  same_corpus b (snd (BOWCorpus.iter disk b)) /\
  (forall key, same_corpus b (snd (BOWCorpus.getitem_slice disk key b))).
Proof.
  split; [intros i; apply getitem_same_corpus|]. split.
  - unfold BOWCorpus.iter. destruct (texts b); [|apply same_corpus_refl].
    apply gen_loop_same_corpus. intros i s. rewrite yield_one_snd.
    apply getitem_same_corpus.
  - intros key. unfold BOWCorpus.getitem_slice.
    destruct (match key_stop key with Some (S k) => Ok (S k) | _ => len_texts b end);
      [|apply same_corpus_refl].
    destruct (range _ _ _); [|apply same_corpus_refl].
    apply gen_loop_same_corpus. intros i s. rewrite yield_one_snd.
    apply getitem_same_corpus.
Qed.

Lemma getitem_aligned disk i b : aligned b -> aligned (snd (getitem disk i b)).
Proof.
  intros Hal. unfold getitem, text_at. unfold bind.
  destruct (item TypeError texts i b) as [r1 b1] eqn:E1.
  apply item_inv in E1 as [-> E1].
  destruct r1 as [[l t]|e]; [|exact Hal].
  destruct (process_text disk i l t b) as [r b'] eqn:E. cbn [snd].
  apply process_text_frame in E as (_ & M & K & N & T).
  destruct Hal as (txts & ims & tks & nts & Ht & Hm & Hk & Hn & L1 & L2 & L3).
  destruct (same_but_length _ _ _ _ M Hm) as (ims' & Hm' & L1').
  destruct (same_but_length _ _ _ _ K Hk) as (tks' & Hk' & L2').
  destruct (same_but_length _ _ _ _ N Hn) as (nts' & Hn' & L3').
  destruct T as [T|(txts' & t' & E' & Hl & T)].
  - exists txts, ims', tks', nts'. repeat split; try congruence.
  - eexists _, ims', tks', nts'. split; [exact T|].
    rewrite length_insert. assert (txts' = txts) as -> by congruence.
    repeat split; try congruence.
Qed.

Lemma fit_filenames_cases glob sh b :
  fit_filenames glob sh b = (Raise IndexError, with_filenames true b) \/
  exists txts, txts <> [] /\
    fit_filenames glob sh b =
      (Ok tt,
       with_texts (Some txts)
         (with_n_tokens (Some (replicate (length txts) None))
            (with_tokenized (Some (replicate (length txts) (Some false)))
               (with_in_memory (Some (replicate (length txts) false))
                  (with_filenames true b))))).
Proof.
  unfold fit_filenames, fit_labels. munfold.
  destruct sh as [p|[|x l]|[|x l]]; try destruct (glob p); eauto;
    right; eexists; (split; [|reflexivity]); done.
Qed.

Lemma fit_aligned glob src fnames b :
  fst (BOWCorpus.fit glob src fnames b) = Ok tt ->
  aligned (run (BOWCorpus.fit glob src fnames) b).
Proof.
  unfold run, BOWCorpus.fit.
  destruct (shape_len (to_shape src) =? 0)%nat; [done|].
  assert (Htexts : forall l, aligned (snd (fit_texts l b))).
  { intros l. destruct b. eexists _, _, _, _. cbn.
    repeat split; apply length_replicate. }
  assert (Hfiles : forall sh, fst (fit_filenames glob sh b) = Ok tt ->
                              aligned (snd (fit_filenames glob sh b))).
  { intros sh. destruct (fit_filenames_cases glob sh b) as [->|(txts & _ & ->)];
      [done|].
    intros _. destruct b. eexists _, _, _, _. cbn.
    repeat split; apply length_replicate. }
  destruct (to_shape src), fnames; auto.
Qed.

Lemma accesses_keep_aligned disk (b : BOWCorpus.obj) :
  aligned b ->
  (forall i, aligned (snd (getitem disk i b))) /\
  aligned (snd (BOWCorpus.iter disk b)) /\
  (forall key, aligned (snd (BOWCorpus.getitem_slice disk key b))).
Proof.
  intros Hal.
  assert (Hloop : forall {O} (body : nat -> BOWCorpus.obj -> gen O * BOWCorpus.obj) idxs s,
            (forall i s, aligned s -> aligned (snd (body i s))) ->
            aligned s -> aligned (snd (gen_loop body idxs s))).
  { intros O body idxs s Hbody Hs.
    destruct (gen_loop_inv aligned (fun _ => True) body idxs s) as [H _];
      [|done|exact H].
    intros i s' Hs'. split; [auto|apply Forall_true; done]. }
  split; [intros i; apply getitem_aligned; done|]. split.
  - unfold BOWCorpus.iter. destruct (texts b); [|done].
    apply Hloop; [|done]. intros i s Hs. rewrite yield_one_snd.
    apply getitem_aligned. done.
  - intros key. unfold BOWCorpus.getitem_slice.
    destruct (match key_stop key with Some (S k) => Ok (S k) | _ => len_texts b end);
      [|done].
    destruct (range _ _ _); [|done].
    apply Hloop; [|done]. intros i s Hs. rewrite yield_one_snd.
    apply getitem_aligned. done.
Qed.

(** The lists kept beside [texts] never drift apart: a [fit] that returns
    leaves one entry in each of them for every text, and however the
    corpus is indexed, iterated and sliced afterwards, whether the accesses
    return or raise, it stays so. *)
Theorem per_text_lists_stay_aligned disk glob src fnames (b0 b : BOWCorpus.obj) :
  fst (BOWCorpus.fit glob src fnames b0) = Ok tt ->
  accessed disk (run (BOWCorpus.fit glob src fnames) b0) b ->
  aligned b.
Proof.
  intros Hfit Hacc.
  induction Hacc as [|b i _ IH|b _ IH|b key _ IH].
  - apply fit_aligned. done.
  - apply (accesses_keep_aligned disk b IH).
  - apply (accesses_keep_aligned disk b IH).
  - apply (accesses_keep_aligned disk b IH).
Qed.

Lemma per_text_lists_stay_aligned_witness :
  aligned (snd (BOWCorpus.iter Scenario.one_file
                  (snd (getitem Scenario.one_file 0
                          (run (BOWCorpus.fit Scenario.no_match
                                  (SrcPairs [("third", CStr "third.txt")]) true)
                             (BOWCorpus.init Scenario.default_tokenizer)))))).
Proof.
  apply (per_text_lists_stay_aligned Scenario.one_file Scenario.no_match
           (SrcPairs [("third", CStr "third.txt")]) true
           (BOWCorpus.init Scenario.default_tokenizer)).
  - reflexivity.
  - apply acc_iter, acc_getitem, acc_start.
Defined.

(** ** The corpus store: texts that were given *)

Lemma getitem_serves disk i l t b txts :
  filenames b = false -> resident_inv b ->
  texts b = Some txts -> txts !! i = Some (l, t) ->
  exists b',
    getitem disk i b = (Ok (serve b (l, t)), b') /\
    config b' = config b /\ texts b' = texts b /\ resident_inv b'.
Proof.
  intros Hfn Hres Htx Hi.
  destruct (process_text_serves disk i l t b txts Hfn Hres Htx Hi)
    as (b' & E & C & T & R).
  exists b'. unfold getitem, text_at, bind, item.
  rewrite Htx, Hi. rewrite E. repeat split; try done; congruence.
Qed.

Lemma at_places_cons {A} (l : list A) i idxs x :
  l !! i = Some x -> at_places l (i :: idxs) = x :: at_places l idxs.
Proof. intros H. unfold at_places. cbn. rewrite H. done. Qed.

Lemma loop_serves disk txts idxs : forall b,
  filenames b = false -> resident_inv b -> texts b = Some txts ->
  Forall (fun i => (i < length txts)%nat) idxs ->
  exists b',
    gen_loop (fun i => yield_one (getitem disk i)) idxs b
    = ((map (serve b) (at_places txts idxs), None), b') /\
    config b' = config b /\ texts b' = texts b /\ resident_inv b'.
Proof.
  induction idxs as [|i idxs IH]; intros b Hfn Hres Htx Hall.
  - exists b. done.
  - apply Forall_cons in Hall as [Hi Hall].
    destruct (lookup_lt_is_Some_2 txts i Hi) as [[l t] Hit].
    destruct (getitem_serves disk i l t b txts Hfn Hres Htx Hit)
      as (b1 & E1 & C1 & T1 & R1).
    assert (Hfn1 : filenames b1 = false) by (unfold config in C1; congruence).
    destruct (IH b1 Hfn1 R1 ltac:(congruence) Hall) as (b2 & E2 & C2 & T2 & R2).
    exists b2. cbn [gen_loop]. unfold yield_one at 1. rewrite E1, E2.
    rewrite (at_places_cons _ _ _ _ Hit). cbn [map app].
    split; [|repeat split; first [done | congruence]].
    do 3 f_equal. apply map_ext. intros p. unfold serve.
    rewrite (served_config _ _ _ C1). done.
Qed.

Lemma at_places_seq {A} (l : list A) k : forall a,
  (a + k <= length l)%nat -> at_places l (seq a k) = take k (drop a l).
Proof.
  induction k as [|k IH]; intros a H; [done|].
  destruct (lookup_lt_is_Some_2 l a ltac:(lia)) as [x Hx].
  cbn [seq]. rewrite (at_places_cons _ _ _ _ Hx), (drop_S _ _ _ Hx). cbn.
  rewrite IH by lia. done.
Qed.

Lemma fit_texts_resident glob l b :
  filenames b = false -> l <> [] ->
  exists b',
    BOWCorpus.fit glob (SrcPairs l) false b = (Ok tt, b') /\
    config b' = config b /\ texts b' = Some l /\ resident_inv b'.
Proof.
  intros Hfn Hl. unfold BOWCorpus.fit. cbn [to_shape shape_len].
  destruct l as [|p l]; [done|]. cbn [length Nat.eqb].
  eexists. split; [reflexivity|]. destruct b. cbn in *.
  split; [done|]. split; [done|].
  intros _ txts [= <-]. eexists _, _, _. repeat split; try done.
  - apply (length_replicate (S (length l))).
  - apply (length_replicate (S (length l))).
  - apply (length_replicate (S (length l))).
  - intros i Hi. apply (lookup_replicate_eq _ _ (S (length l))) in Hi. done.
  - intros i l0 t Hi. left.
    apply (lookup_replicate_2 (S (length l))). eapply lookup_lt_Some in Hi.
    exact Hi.
Qed.

Lemma bow_set_params_resident kw b :
  let b' := run (BOWCorpus.set_params kw) b in
  filenames b' = filenames b /\ texts b' = texts b /\
  (resident_inv b -> resident_inv b').
Proof. destruct b. cbn. done. Qed.

Lemma iter_serves_resident disk l s :
  filenames s = false -> resident_inv s -> texts s = Some l ->
  exists s', BOWCorpus.iter disk s = ((map (serve s) l, None), s') /\
             config s' = config s /\ texts s' = texts s /\ resident_inv s'.
Proof.
  intros Hs1 Hs2 Hs3. unfold BOWCorpus.iter. rewrite Hs3.
  destruct (loop_serves disk l (seq 0 (length l)) s Hs1 Hs2 Hs3)
    as (s' & E & C & T & R).
  { apply Forall_forall. intros i Hi. apply elem_of_seq in Hi. lia. }
  exists s'. rewrite E, at_places_seq by lia.
  rewrite drop_0, firstn_all. repeat split; first [done|congruence].
Qed.

(** The corpus of the theorems below: pairs are fitted to a corpus that
    never held filenames, then settings are made. *)
Lemma given_corpus_resident glob kw l b0 :
  filenames b0 = false -> l <> [] ->
  let b := run (BOWCorpus.set_params kw)
             (run (BOWCorpus.fit glob (SrcPairs l) false) b0) in
  filenames b = false /\ texts b = Some l /\ resident_inv b.
Proof.
  intros Hfn Hl b.
  destruct (fit_texts_resident glob l b0 Hfn Hl) as (b1 & E1 & C1 & T1 & R1).
  destruct (bow_set_params_resident kw b1) as (F2 & T2 & R2).
  assert (Hb : b = run (BOWCorpus.set_params kw) b1).
  { subst b. unfold run at 2. rewrite E1. done. }
  rewrite Hb. split; [|split; [congruence|auto]].
  rewrite F2. unfold config in C1. congruence.
Qed.

(** A corpus of given texts serves every text as its settings say, in the
    order given and as often as asked: after [fit] on a list of pairs and
    [set_params], iterating yields each label with its text tokenized and
    filtered ([tokenize] True), as it is ([tokenize] unset) or joined
    ([tokenize] False), without failure; a second iteration yields the
    same. *)
Theorem iter_serves_given_texts disk glob kw l (b0 : BOWCorpus.obj) :
  filenames b0 = false -> l <> [] ->
  let b := run (BOWCorpus.set_params kw)
             (run (BOWCorpus.fit glob (SrcPairs l) false) b0) in
  fst (BOWCorpus.iter disk b) = (map (serve b) l, None) /\
  fst (BOWCorpus.iter disk (snd (BOWCorpus.iter disk b))) = (map (serve b) l, None).
Proof.
  intros Hfn Hl b.
  destruct (given_corpus_resident glob kw l b0 Hfn Hl) as (Hfnb & Htb & Hrb).
  fold b in Hfnb, Htb, Hrb. clearbody b.
  destruct (iter_serves_resident disk l b Hfnb Hrb Htb) as (b' & E & C & T & R).
  rewrite E. split; [done|]. cbn [snd].
  destruct (iter_serves_resident disk l b') as (b'' & E' & _);
    [unfold config in C; congruence|done|congruence|].
  rewrite E'. cbn. f_equal. apply map_ext. intros p. unfold serve.
  rewrite (served_config _ _ _ C). done.
Qed.

Lemma iter_serves_given_texts_witness :
  fst (BOWCorpus.iter Scenario.no_files Scenario.filtered_corpus)
  = ([("third", CToks ["rough"])], None).
Proof.
  apply (iter_serves_given_texts Scenario.no_files Scenario.no_match
           (mk_kwargs (Some true) None (Some ["the"]) (Some ["the"; "rough"]) None)
           [("third", CToks Scenario.buds)]
           (BOWCorpus.init Scenario.default_tokenizer)).
  - reflexivity.
  - discriminate.
Defined.

(** With [tokenize] left unset, iterating a corpus fitted with a list of
    pairs yields exactly these pairs, in their order, and ends without
    failure. *)
Theorem iter_yields_the_pairs_given tk disk glob l :
  l <> [] ->
  fst (BOWCorpus.iter disk
         (run (BOWCorpus.fit glob (SrcPairs l) false) (BOWCorpus.init tk)))
  = (l, None).
Proof.
  intros Hl.
  destruct (fit_texts_resident glob l (BOWCorpus.init tk) eq_refl Hl)
    as (b1 & E1 & C1 & T1 & R1).
  unfold run. rewrite E1. cbn [snd].
  destruct (iter_serves_resident disk l b1) as (b' & E & _); [|done|done|].
  { unfold config in C1. cbn in C1. congruence. }
  rewrite E. cbn [fst]. f_equal.
  assert (Hmode : tokenize b1 = None)
    by (unfold config in C1; cbn in C1; congruence).
  rewrite <- (map_id l) at 2. apply map_ext. intros [lb t].
  unfold serve, served. rewrite Hmode. done.
Qed.

Lemma iter_yields_the_pairs_given_witness :
  fst (BOWCorpus.iter Scenario.no_files
         (run (BOWCorpus.fit Scenario.no_match
                 (SrcPairs [("a", CStr Scenario.sonnet); ("b", CToks Scenario.buds)])
                 false)
            (BOWCorpus.init Scenario.default_tokenizer)))
  = ([("a", CStr Scenario.sonnet); ("b", CToks Scenario.buds)], None).
Proof.
  apply (iter_yields_the_pairs_given Scenario.default_tokenizer
           Scenario.no_files Scenario.no_match).
  discriminate.
Defined.

(** ** The corpus store: slices *)

Lemma range_places (start stop step : nat) :
  (1 <= step)%nat ->
  exists idxs,
    range (Z.of_nat start) (Z.of_nat stop) (Z.of_nat step) = Ok idxs /\
    map Z.to_nat idxs = places start stop step.
Proof.
  intros Hs. unfold range, places.
  assert ((Z.of_nat step =? 0) = false) as -> by (apply Z.eqb_neq; lia).
  assert ((0 <? Z.of_nat step) = true) as -> by (apply Z.ltb_lt; lia).
  eexists. split; [reflexivity|].
  assert (Hc : Z.to_nat ((Z.of_nat stop - Z.of_nat start + Z.of_nat step - 1)
                         / Z.of_nat step)
               = ((stop - start + step - 1) / step)%nat).
  { destruct (le_lt_dec stop start) as [Hle|Hlt].
    - replace (stop - start)%nat with 0%nat by lia.
      rewrite Nat.div_small by lia.
      destruct (Z_lt_le_dec (Z.of_nat stop - Z.of_nat start + Z.of_nat step - 1) 0).
      + assert ((Z.of_nat stop - Z.of_nat start + Z.of_nat step - 1)
                / Z.of_nat step < 0) by (apply Z.div_lt_upper_bound; lia).
        lia.
      + rewrite Z.div_small by lia. done.
    - replace (Z.of_nat stop - Z.of_nat start + Z.of_nat step - 1)
        with (Z.of_nat (stop - start + step - 1)) by lia.
      rewrite <- Nat2Z.inj_div. apply Nat2Z.id. }
  rewrite Hc, map_map. apply map_ext. intros k.
  rewrite <- Nat2Z.inj_mul, <- Nat2Z.inj_add. apply Nat2Z.id.
Qed.

Lemma places_below start stop step :
  (1 <= step)%nat -> Forall (fun i => (i < stop)%nat) (places start stop step).
Proof.
  intros Hs. unfold places. apply Forall_forall. intros i Hi.
  apply list_elem_of_fmap in Hi as (k & -> & Hk). apply elem_of_seq in Hk.
  destruct (le_lt_dec stop start) as [Hle|Hlt].
  - replace (stop - start)%nat with 0%nat in Hk by lia.
    rewrite Nat.div_small in Hk by lia. lia.
  - assert (k + 1 <= (stop - start + step - 1) / step)%nat as Hk1 by lia.
    pose proof (Nat.Div0.mul_div_le (stop - start + step - 1) step) as Hd.
    assert (step * (k + 1) <= stop - start + step - 1)%nat as Hm.
    { etransitivity; [|exact Hd]. apply Nat.mul_le_mono_l. exact Hk1. }
    rewrite Nat.mul_add_distr_l, Nat.mul_1_r, (Nat.mul_comm step k) in Hm.
    lia.
Qed.

Lemma map_seq_unit start n : forall a,
  map (fun k => start + k * 1)%nat (seq a n) = seq (start + a) n.
Proof.
  induction n as [|n IH]; intros a; [done|].
  cbn [seq map]. f_equal; [lia|]. rewrite IH. f_equal. lia.
Qed.

Lemma places_unit start stop : places start stop 1 = seq start (stop - start).
Proof.
  unfold places. rewrite Nat.div_1_r, map_seq_unit. f_equal; lia.
Qed.

Lemma or_else_pos x d : (1 <= d)%nat -> (1 <= or_else x d)%nat.
Proof. destruct x as [[|k]|]; cbn; lia. Qed.

(** A slice of a corpus of given texts that stays within the corpus serves
    the texts at the places of [range(start, stop, step)], where a part that
    is left out or 0 stands for its default: [stop = 0] means up to the
    end. *)
Theorem slice_serves_given_texts disk glob kw l (b0 : BOWCorpus.obj) key :
  filenames b0 = false -> l <> [] ->
  (or_else (key_stop key) (length l) <= length l)%nat ->
  let b := run (BOWCorpus.set_params kw)
             (run (BOWCorpus.fit glob (SrcPairs l) false) b0) in
  fst (BOWCorpus.getitem_slice disk key b)
  = (map (serve b)
       (at_places l (places (or_else (key_start key) 0)
                       (or_else (key_stop key) (length l))
                       (or_else (key_step key) 1))),
     None).
Proof.
  intros Hfn Hl Hstop b.
  destruct (given_corpus_resident glob kw l b0 Hfn Hl) as (Hfnb & Htb & Hrb).
  fold b in Hfnb, Htb, Hrb. clearbody b.
  unfold BOWCorpus.getitem_slice.
  assert (Hst : match key_stop key with
                | Some (S k) => Ok (S k)
                | _ => len_texts b
                end = Ok (or_else (key_stop key) (length l))).
  { unfold len_texts. rewrite Htb. destruct (key_stop key) as [[|k]|]; done. }
  rewrite Hst.
  destruct (range_places (or_else (key_start key) 0)
              (or_else (key_stop key) (length l)) (or_else (key_step key) 1))
    as (idxs & -> & ->); [apply or_else_pos; lia|].
  destruct (loop_serves disk l
              (places (or_else (key_start key) 0)
                 (or_else (key_stop key) (length l)) (or_else (key_step key) 1))
              b Hfnb Hrb Htb) as (b' & E & _).
  { eapply Forall_impl; [apply places_below, or_else_pos; lia|].
    cbn. intros. lia. }
  rewrite E. done.
Qed.

Lemma slice_serves_given_texts_witness :
  fst (BOWCorpus.getitem_slice Scenario.no_files (mk_slice (Some 1%nat) (Some 0%nat) None)
         (run (BOWCorpus.set_params no_kwargs)
            (run (BOWCorpus.fit Scenario.no_match
                    (SrcPairs [("a", CStr "x"); ("b", CStr "y"); ("c", CStr "z")])
                    false)
               (BOWCorpus.init Scenario.default_tokenizer))))
  = ([("b", CStr "y"); ("c", CStr "z")], None).
Proof.
  apply (slice_serves_given_texts Scenario.no_files Scenario.no_match no_kwargs
           [("a", CStr "x"); ("b", CStr "y"); ("c", CStr "z")]
           (BOWCorpus.init Scenario.default_tokenizer)
           (mk_slice (Some 1%nat) (Some 0%nat) None)).
  - reflexivity.
  - discriminate.
  - simpl. lia.
Defined.

Lemma loop_serves_then_fails disk txts pre i post b :
  filenames b = false -> resident_inv b -> texts b = Some txts ->
  Forall (fun i => (i < length txts)%nat) pre -> (length txts <= i)%nat ->
  fst (gen_loop (fun i => yield_one (getitem disk i)) (pre ++ i :: post) b)
  = (map (serve b) (at_places txts pre), Some IndexError).
Proof.
  revert b. induction pre as [|j pre IH]; intros b Hfn Hres Htx Hall Hi.
  - cbn [app gen_loop]. unfold yield_one, getitem, text_at, bind, item.
    rewrite Htx, (lookup_ge_None_2 txts i Hi). done.
  - apply Forall_cons in Hall as [Hj Hall].
    destruct (lookup_lt_is_Some_2 txts j Hj) as [[l t] Hjt].
    destruct (getitem_serves disk j l t b txts Hfn Hres Htx Hjt)
      as (b1 & E1 & C1 & T1 & R1).
    assert (Hfn1 : filenames b1 = false) by (unfold config in C1; congruence).
    specialize (IH b1 Hfn1 R1 ltac:(congruence) Hall Hi).
    cbn [app gen_loop]. unfold yield_one at 1. rewrite E1.
    destruct (gen_loop _ (pre ++ i :: post) b1) as [[o e] b2]. cbn in IH.
    injection IH as -> ->. cbn [fst].
    rewrite (at_places_cons _ _ _ _ Hjt). cbn [map app].
    do 2 f_equal. apply map_ext. intros p. unfold serve.
    rewrite (served_config _ _ _ C1). done.
Qed.

(** A slice does not stop at the end of the corpus as a slice of a list
    does: [cp[start:stop]] with [stop] beyond the last text serves the texts
    from [start] on and then raises IndexError. *)
Theorem slice_past_the_end_raises disk glob kw l (b0 : BOWCorpus.obj) start stop :
  filenames b0 = false -> l <> [] ->
  (start <= length l < stop)%nat ->
  let b := run (BOWCorpus.set_params kw)
             (run (BOWCorpus.fit glob (SrcPairs l) false) b0) in
  fst (BOWCorpus.getitem_slice disk (mk_slice (Some start) (Some stop) None) b)
  = (map (serve b) (drop start l), Some IndexError).
Proof.
  intros Hfn Hl [Hs He] b.
  destruct (given_corpus_resident glob kw l b0 Hfn Hl) as (Hfnb & Htb & Hrb).
  fold b in Hfnb, Htb, Hrb. clearbody b.
  unfold BOWCorpus.getitem_slice. cbn [key_start key_stop key_step].
  assert (or_else (Some start) 0 = start) as -> by (destruct start; done).
  destruct stop as [|stop]; [lia|]. cbn [or_else].
  destruct (range_places start (S stop) 1) as (idxs & -> & ->); [lia|].
  assert (Hp : places start (S stop) 1
               = seq start (length l - start)
                 ++ length l :: seq (S (length l)) (stop - length l)).
  { rewrite places_unit.
    replace (S stop - start)%nat
      with ((length l - start) + S (stop - length l))%nat by lia.
    rewrite seq_app. cbn [seq]. do 2 f_equal; [lia|f_equal; lia]. }
  rewrite Hp.
  rewrite (loop_serves_then_fails disk l _ _ _ b Hfnb Hrb Htb); [| |lia].
  - rewrite at_places_seq by lia.
    rewrite firstn_all2 by (rewrite length_drop; lia). done.
  - apply Forall_forall. intros i Hi. apply elem_of_seq in Hi. lia.
Qed.

Lemma slice_past_the_end_raises_witness :
  fst (BOWCorpus.getitem_slice Scenario.no_files
         (mk_slice (Some 1%nat) (Some 4%nat) None)
         (run (BOWCorpus.set_params no_kwargs)
            (run (BOWCorpus.fit Scenario.no_match
                    (SrcPairs [("a", CStr "x"); ("b", CStr "y"); ("c", CStr "z")])
                    false)
               (BOWCorpus.init Scenario.default_tokenizer))))
  = ([("b", CStr "y"); ("c", CStr "z")], Some IndexError).
Proof.
  apply (slice_past_the_end_raises Scenario.no_files Scenario.no_match no_kwargs
           [("a", CStr "x"); ("b", CStr "y"); ("c", CStr "z")]
           (BOWCorpus.init Scenario.default_tokenizer) 1%nat 4%nat).
  - reflexivity.
  - discriminate.
  - simpl. lia.
Defined.

(** ** The corpus store: files *)

Lemma getitem_reads_file disk i l path s b txts :
  file_inv b -> texts b = Some txts -> txts !! i = Some (l, CStr path) ->
  disk path = Some s ->
  exists b',
    getitem disk i b = (Ok (l, served b (CStr s)), b') /\
    file_inv b' /\ texts b' = texts b /\ config b' = config b /\
    opened b' = opened b ++ [path].
Proof.
  intros (Hfn & Hkeep & txts' & tks & nts & Htx' & Hk & Hn & Lk & Ln & Hfalse)
         Htx Hi Hd.
  assert (txts' = txts) as -> by congruence.
  assert (Hlt : (i < length txts)%nat) by (eapply lookup_lt_Some; eauto).
  assert (Hit : tks !! i = Some (Some false)) by (apply Hfalse; lia).
  unfold getitem, text_at, bind at 1, item. rewrite Htx, Hi.
  unfold process_text, open_read, deduce_tokenized, retain.
  destruct b as [tx fn im tk nt md tz sw gw kp op]. cbn in *. subst.
  munfold. cbn. rewrite Hd. cbn. rewrite Hit. cbn.
  destruct (apply_tokenize_serves i l (CStr s)
              (with_opened (op ++ [path])
                 (BOWCorpus.mk (Some txts) true im (Some tks) (Some nts) md tz sw gw
                    false op)) tks nts)
    as (b3 & E3 & C3 & T3 & M3 & K3 & nts3 & Hn3 & Ln3); try done; [lia|].
  cbn in E3. rewrite E3.
  assert (Hk3 : keep_in_memory b3 = false)
    by (unfold config in C3; cbn in C3; congruence).
  rewrite Hk3. eexists. split; [reflexivity|].
  pose proof (apply_tokenize_opened i l (CStr s)
                (with_opened (op ++ [path])
                   (BOWCorpus.mk (Some txts) true im (Some tks) (Some nts) md tz sw gw
                      false op))) as Ho.
  cbn in Ho. rewrite E3 in Ho. cbn in Ho.
  split; [|done].
  split; [unfold config in C3; cbn in C3; congruence|]. split; [done|].
  exists txts, tks, nts3. repeat split; try done; congruence.
Qed.

Lemma getitem_unreadable_file disk i l path b txts :
  filenames b = true -> texts b = Some txts -> txts !! i = Some (l, CStr path) ->
  disk path = None ->
  fst (getitem disk i b) = Raise IOError.
Proof.
  intros Hfn Htx Hi Hd.
  unfold getitem, text_at, bind at 1, item. rewrite Htx, Hi.
  unfold process_text, open_read. mred. rewrite Hfn, Hd. done.
Qed.

Lemma fit_filenames_tuples glob l b :
  l <> [] ->
  fit_filenames glob (Tuples l) b =
    (Ok tt,
     with_texts (Some l)
       (with_n_tokens (Some (replicate (length l) None))
          (with_tokenized (Some (replicate (length l) (Some false)))
             (with_in_memory (Some (replicate (length l) false))
                (with_filenames true b))))).
Proof. intros Hl. destruct l; [done|reflexivity]. Qed.

Lemma fit_files_inv glob l b :
  keep_in_memory b = false -> l <> [] ->
  exists b',
    BOWCorpus.fit glob (SrcPairs l) true b = (Ok tt, b') /\
    file_inv b' /\ texts b' = Some l /\ opened b' = opened b.
Proof.
  intros Hk Hl. unfold BOWCorpus.fit. cbn [to_shape shape_len].
  assert ((length l =? 0)%nat = false) as -> by (destruct l; done).
  rewrite (fit_filenames_tuples glob l b Hl).
  eexists. split; [reflexivity|]. destruct b. cbn in *.
  split; [|done]. split; [done|]. split; [done|].
  eexists _, _, _. repeat split; try done.
  - apply length_replicate.
  - apply length_replicate.
  - intros i Hi. apply lookup_replicate_2.
    rewrite length_replicate in Hi. exact Hi.
Qed.

(** A corpus of files that is not told to keep texts in memory reads the
    file on every access: after [fit] on (label, filename) pairs with
    [filenames=True], an access to a text whose file can be read opens the
    file and serves its text as the settings say, the filename stays in
    place, and the next access does the same again. *)
Theorem files_are_read_on_every_access disk glob kw l (b0 : BOWCorpus.obj)
    i lb path s :
  keep_in_memory b0 = false -> kw_keep_in_memory kw <> Some true ->
  l !! i = Some (lb, CStr path) -> disk path = Some s ->
  let b := run (BOWCorpus.set_params kw)
             (run (BOWCorpus.fit glob (SrcPairs l) true) b0) in
  exists b1 b2,
    getitem disk i b = (Ok (lb, served b (CStr s)), b1) /\
    getitem disk i b1 = (Ok (lb, served b (CStr s)), b2) /\
    texts b2 = Some l /\
    opened b2 = opened b0 ++ [path; path].
Proof.
  intros Hk Hkw Hi Hd b.
  assert (Hl : l <> []) by (destruct l; done).
  destruct (fit_files_inv glob l b0 Hk Hl) as (b' & E & Hinv & Ht & Ho).
  assert (Hb : file_inv b /\ texts b = Some l /\ opened b = opened b0).
  { subst b.
    assert (run (BOWCorpus.fit glob (SrcPairs l) true) b0 = b') as ->
      by (unfold run; rewrite E; reflexivity).
    destruct Hinv as (Hfn & Hkeep & Hrest). destruct b'. cbn in *.
    split; [|split; [exact Ht|exact Ho]]. split; [exact Hfn|]. split; [|exact Hrest].
    cbn. destruct (kw_keep_in_memory kw) as [[]|]; done. }
  clearbody b. destruct Hb as (Hinvb & Htb & Hob).
  destruct (getitem_reads_file disk i lb path s b l Hinvb Htb Hi Hd)
    as (b1 & E1 & I1 & T1 & C1 & O1).
  destruct (getitem_reads_file disk i lb path s b1 l I1 ltac:(congruence) Hi Hd)
    as (b2 & E2 & I2 & T2 & C2 & O2).
  exists b1, b2. rewrite E1, E2, (served_config _ _ _ C1).
  repeat split; [congruence|].
  rewrite O2, O1, Hob, <- app_assoc. done.
Qed.

Lemma files_are_read_on_every_access_witness :
  exists b1 b2,
    getitem Scenario.one_file 0 (Scenario.file_corpus false)
      = (Ok ("third", CStr Scenario.winds), b1) /\
    getitem Scenario.one_file 0 b1 = (Ok ("third", CStr Scenario.winds), b2) /\
    texts b2 = Some [("third", CStr "third.txt")] /\
    opened b2 = ["third.txt"; "third.txt"].
Proof.
  apply (files_are_read_on_every_access Scenario.one_file Scenario.no_match
           (mk_kwargs None None None None (Some false))
           [("third", CStr "third.txt")]
           (BOWCorpus.init Scenario.default_tokenizer)
           0%nat "third" "third.txt" Scenario.winds).
  - reflexivity.
  - discriminate.
  - reflexivity.
  - reflexivity.
Defined.

(** ** The corpus store: what [fit] can be given *)

(** Filenames and patterns are fitted as pairs.  A list of filenames is
    fitted exactly as the list of (label, filename) pairs with
    [filenames=True], the label of a file being what follows the last
    slash of its name; the flag [filenames] makes no difference.  A
    pattern that matches files is fitted as the list of the files it
    matches, and a dict as the list of its items. *)
Theorem filenames_are_fitted_as_pairs glob names p d fnames (self : BOWCorpus.obj) :
  names <> [] -> p <> EmptyString -> glob p <> [] ->
  BOWCorpus.fit glob (SrcNames names) fnames self
    = BOWCorpus.fit glob (SrcPairs (labelled names)) true self /\
  BOWCorpus.fit glob (SrcPattern p) fnames self
    = BOWCorpus.fit glob (SrcPairs (labelled (glob p))) true self /\
  BOWCorpus.fit glob (SrcDict d) fnames self
    = BOWCorpus.fit glob (SrcPairs d) fnames self.
Proof.
  intros Hn Hp Hg. split; [|split; [|reflexivity]].
  - unfold BOWCorpus.fit. cbn [to_shape shape_len]. unfold labelled.
    rewrite length_map.
    destruct names as [|f names]; [done|]. cbn [length Nat.eqb].
    destruct fnames; reflexivity.
  - unfold BOWCorpus.fit. cbn [to_shape shape_len]. unfold labelled.
    rewrite length_map.
    destruct p as [|c p]; [done|]. cbn [String.length Nat.eqb].
    unfold fit_filenames, fit_labels.
    destruct (glob (String c p)) as [|f matched]; [done|]. cbn [length Nat.eqb].
    destruct fnames; reflexivity.
Qed.

Lemma filenames_are_fitted_as_pairs_witness :
  BOWCorpus.fit Sample.one_match (SrcNames ["data/txt/third.txt"]) false
    (BOWCorpus.init Scenario.default_tokenizer)
  = BOWCorpus.fit Sample.one_match
      (SrcPairs [("third.txt", CStr "data/txt/third.txt")]) true
      (BOWCorpus.init Scenario.default_tokenizer) /\
  BOWCorpus.fit Sample.one_match (SrcPattern "data/txt/*.txt") false
    (BOWCorpus.init Scenario.default_tokenizer)
  = BOWCorpus.fit Sample.one_match
      (SrcPairs [("third.txt", CStr "data/txt/third.txt")]) true
      (BOWCorpus.init Scenario.default_tokenizer).
Proof.
  destruct (filenames_are_fitted_as_pairs Sample.one_match
              ["data/txt/third.txt"] "data/txt/*.txt" [] false
              (BOWCorpus.init Scenario.default_tokenizer))
    as (H1 & H2 & _); try discriminate.
  split; [exact H1|exact H2].
Defined.

(** ** The chunking engine: sliding windows *)

Lemma slice_window {A} (l : list A) (s c : nat) :
  (s + c <= length l)%nat ->
  slice l (Z.of_nat s) (Z.of_nat s + Z.of_nat c) = take c (drop s l).
Proof.
  intros H. unfold slice, clamp_index.
  assert ((Z.of_nat s <? 0) = false) as -> by (apply Z.ltb_ge; lia).
  assert ((Z.of_nat s + Z.of_nat c <? 0) = false) as ->
    by (apply Z.ltb_ge; lia).
  rewrite !Z.min_l by lia.
  replace (Z.to_nat (Z.of_nat s + Z.of_nat c - Z.of_nat s)) with c by lia.
  rewrite Nat2Z.id. reflexivity.
Qed.

(** The windows of [c] items that start at the multiples of [step]. *)
Lemma chunk_emit_windows {A} label (text : list A) (c step : nat) k :
  forall a n,
  (forall j, (j < k)%nat -> ((a + j) * step + c <= length text)%nat) ->
  chunk_emit label text n
    (zip (map NInt (map (fun j => 0 + Z.of_nat j * Z.of_nat step) (seq a k)))
         (map NInt (map (fun s => s + Z.of_nat c)
                      (map (fun j => 0 + Z.of_nat j * Z.of_nat step) (seq a k)))))
  = (map (fun j => (fmt_label label (n + j),
                    Some (take c (drop ((a + j) * step) text))))
         (seq 0 k), None).
Proof.
  induction k as [|k IH]; intros a n H.
  - reflexivity.
  - cbn [seq map zip zip_with chunk_emit slice_num].
    rewrite (IH (S a) (S n)).
    2:{ intros j Hj. specialize (H (S j)). 
        replace (S a + j)%nat with (a + S j)%nat by lia. apply H. lia. }
    replace (0 + Z.of_nat a * Z.of_nat step) with (Z.of_nat (a * step)) by lia.
    rewrite slice_window.
    2:{ specialize (H 0%nat). rewrite Nat.add_0_r in H. apply H. lia. }
    rewrite !Nat.add_0_r. f_equal. f_equal.
    rewrite <- seq_shift, map_map. apply map_ext. intros j.
    replace (S n + j)%nat with (n + S j)%nat by lia.
    replace (S a + j)%nat with (a + S j)%nat by lia. reflexivity.
Qed.

(** Chunks as sliding windows.  For a text of at least one chunk, not
    chunked before, with the overlap below the chunk size and [roundedsize]
    falsy, the engine yields [(len - chunksize) // (chunksize - overlap) + 1]
    chunks and ends without failure: chunk [k] is labelled with [k] and
    holds the [chunksize] items from [k * (chunksize - overlap)] on, so
    every chunk is full and neighbours share [overlap] items. *)
Theorem chunks_are_sliding_windows {A} (self : ChunkCorpus.obj) label
    (text : list A) index cis c o :
  chunkindices self = Some cis -> cis !! index = Some None ->
  resolve_chunksize self (Z.of_nat (length text)) = Ok (Some c) ->
  resolve_overlap self (Some c) = Ok (Some o) ->
  truthy (roundedsize self) = false ->
  0 < c <= Z.of_nat (length text) -> o < c ->
  let step := Z.to_nat (c - o) in
  let n := ((length text - Z.to_nat c) / step + 1)%nat in
  fst (chunk_text label text index self)
    = (windows label text (Z.to_nat c) step n, None) /\
  Forall (fun out => exists t, snd out = Some t /\ length t = Z.to_nat c)
         (windows label text (Z.to_nat c) step n).
Proof.
  intros Hc Hi Hcs Ho Hr [Hpos Hle] Hov step n.
  assert (Ht : text <> []) by (destruct text; [cbn in Hle; lia|done]).
  assert (Hlt : (index < length cis)%nat) by (eapply lookup_lt_Some; eauto).
  assert (Hstep : (0 < step)%nat) by (subst step; lia).
  assert (Hfit : forall j, (j < n)%nat ->
                   (j * step + Z.to_nat c <= length text)%nat).
  { intros j Hj. subst n.
    assert (j <= (length text - Z.to_nat c) / step)%nat by lia.
    pose proof (Nat.Div0.mul_div_le (length text - Z.to_nat c) step).
    assert (j * step <= step * ((length text - Z.to_nat c) / step))%nat
      by (rewrite (Nat.mul_comm step); apply Nat.mul_le_mono_r; lia).
    lia. }
  split.
  - unfold chunk_text. rewrite (item_ok _ _ _ _ _ _ Hc Hi).
    unfold chunk_compute. rewrite (text_len_nonzero _ Ht). mred.
    rewrite Hcs, Ho.
    assert ((c >? Z.of_nat (length text)) = false) as ->.
    { destruct (Z.gtb_spec c (Z.of_nat (length text))); [lia|done]. }
    unfold boundaries.
    assert ((if negb (o =? 0) then c - o else c) = Z.of_nat step) as ->.
    { subst step. destruct (Z.eqb_spec o 0); cbn; lia. }
    unfold range.
    assert ((Z.of_nat step =? 0) = false) as -> by (apply Z.eqb_neq; lia).
    assert ((0 <? Z.of_nat step) = true) as -> by (apply Z.ltb_lt; lia).
    rewrite Hr.
    assert (Z.to_nat ((Z.of_nat (length text) - c + 1 - 0 + Z.of_nat step - 1)
                      / Z.of_nat step) = n) as ->.
    { subst n.
      replace (Z.of_nat (length text) - c + 1 - 0 + Z.of_nat step - 1)
        with (Z.of_nat (length text - Z.to_nat c) + 1 * Z.of_nat step) by lia.
      rewrite Z.div_add by lia.
      rewrite <- Nat2Z.inj_div. lia. }
    rewrite (set_item_ok _ _ _ _ _ _ _ Hc Hlt).
    erewrite item_ok; [|cbn; reflexivity|apply list_lookup_insert_eq; done].
    cbn [fst].
    pose proof (chunk_emit_windows label text (Z.to_nat c) step n 0 0) as E.
    rewrite Z2Nat.id in E by lia. rewrite E; [reflexivity|].
    intros j Hj. cbn. apply Hfit, Hj.
  - unfold windows. apply Forall_map, Forall_forall. intros k Hk.
    apply elem_of_seq in Hk. cbn. eexists. split; [reflexivity|].
    rewrite length_take, length_drop. specialize (Hfit k). lia.
Qed.

Lemma chunks_are_sliding_windows_witness :
  fst (chunk_text "a" Scenario.sonnet_words 0
         (Scenario.sliding_engine Scenario.default_tokenizer Scenario.no_match))
    = ([("a_0000", Some ["shall"; "i"; "compare"; "thee"]);
        ("a_0001", Some ["compare"; "thee"; "to"; "a"]);
        ("a_0002", Some ["to"; "a"; "summer"; "s"])], None) /\
  Forall (fun out => exists t, snd out = Some t /\ length t = 4%nat)
         (windows "a" Scenario.sonnet_words 4 2 3).
Proof.
  apply (chunks_are_sliding_windows
           (Scenario.sliding_engine Scenario.default_tokenizer Scenario.no_match)
           "a" Scenario.sonnet_words 0%nat [None] 4 2); try reflexivity.
  simpl. lia.
Defined.

(** ** The chunking engine: the cache of boundaries *)

Lemma chunk_compute_cases {A} (text : list A) index self r self' :
  chunk_compute text index self = (r, self') ->
  self' = self \/
  exists cis bs, chunkindices self = Some cis /\ (index < length cis)%nat /\
    r = Ok None /\ self' = with_chunkindices (Some (<[index:=Some bs]> cis)) self.
Proof.
  unfold chunk_compute. munfold. intros H.
  repeat (case_match; simplify_eq/=; try (left; done)).
  right. eexists _, _. repeat split; done.
Qed.

(** Chunking a text a second time gives what the first time gave, and
    changes nothing: the boundaries computed the first time are read
    back. *)
Theorem chunk_text_twice {A} label (text : list A) index self :
  chunk_text label text index (snd (chunk_text label text index self))
  = chunk_text label text index self.
Proof.
  unfold chunk_text at 2 3.
  destruct (item AttributeError chunkindices index self) as [r s] eqn:E1.
  apply item_inv in E1 as E1'. destruct E1' as [-> Hr].
  destruct r as [cached|e].
  2:{ cbn [snd]. unfold chunk_text. rewrite E1. reflexivity. }
  destruct (Hr _ eq_refl) as (cis & Hc & Hi).
  destruct cached as [bs|].
  - mred. rewrite E1. cbn [snd]. unfold chunk_text. rewrite E1. mred.
    rewrite E1. reflexivity.
  - destruct (chunk_compute text index self) as [r2 s2] eqn:E2.
    destruct (chunk_compute_cases _ _ _ _ _ E2)
      as [->|(cis' & bs & Hc' & Hlt & -> & ->)].
    + destruct r2 as [chunk|e].
      * rewrite E1. cbn [snd]. unfold chunk_text. rewrite E1, E2, E1.
        reflexivity.
      * cbn [snd]. unfold chunk_text. rewrite E1, E2. reflexivity.
    + assert (cis' = cis) as -> by congruence.
      assert (E3 : item AttributeError chunkindices index
                     (with_chunkindices (Some (<[index:=Some bs]> cis)) self)
                   = (Ok (Some bs),
                      with_chunkindices (Some (<[index:=Some bs]> cis)) self)).
      { eapply item_ok; [reflexivity|]. apply list_lookup_insert_eq. done. }
      rewrite E3. 
      destruct (chunk_emit label text 0 bs) as [out e] eqn:E4. cbn [snd].
      unfold chunk_text. rewrite E3. mred. rewrite E3, E4. reflexivity.
Qed.

(** A call of [set_params] with a truthy chunking argument throws the
    boundaries of every text away; on an engine that has not been fitted
    there are no texts to count, and the call raises TypeError after it has
    stored the chunking arguments and before the settings of the corpus
    store are made. *)
Theorem set_params_truthy_argument p kw self :
  any_truthy p = true ->
  match texts (base self) with
  | Some l =>
      fst (ChunkCorpus.set_params p kw self) = Ok tt /\
      chunkindices (run (ChunkCorpus.set_params p kw) self)
        = Some (replicate (length l) None)
  | None =>
      fst (ChunkCorpus.set_params p kw self) = Raise TypeError /\
      base (run (ChunkCorpus.set_params p kw) self) = base self /\
      chunksize (run (ChunkCorpus.set_params p kw) self)
        = keep_or (chunksize self) (p_chunksize p)
  end.
Proof.
  unfold any_truthy. intros H.
  unfold run, ChunkCorpus.set_params, super, reset_chunkindices.
  rewrite H. destruct self as [b ? ? ? ? ? ? ?]. munfold. cbn.
  destruct (texts b) eqn:E; cbn; rewrite ?E; cbn; done.
Qed.

Lemma set_params_truthy_argument_witness :
  fst (ChunkCorpus.set_params
         (mk_params (VInt 4) VNone VNone VNone VNone VNone) no_kwargs
         (ChunkCorpus.init Scenario.default_tokenizer)) = Raise TypeError /\
  base (run (ChunkCorpus.set_params
               (mk_params (VInt 4) VNone VNone VNone VNone VNone) no_kwargs)
          (ChunkCorpus.init Scenario.default_tokenizer))
    = base (ChunkCorpus.init Scenario.default_tokenizer) /\
  chunksize (run (ChunkCorpus.set_params
                    (mk_params (VInt 4) VNone VNone VNone VNone VNone) no_kwargs)
               (ChunkCorpus.init Scenario.default_tokenizer))
    = VInt 4.
Proof.
  apply (set_params_truthy_argument
           (mk_params (VInt 4) VNone VNone VNone VNone VNone) no_kwargs
           (ChunkCorpus.init Scenario.default_tokenizer)).
  reflexivity.
Defined.

(** ** The chunking engine: texts without tokens *)

Lemma chunk_text_state {A} label (text : list A) index self :
  snd (chunk_text label text index self) = self \/
  exists cis bs, chunkindices self = Some cis /\ (index < length cis)%nat /\
    snd (chunk_text label text index self)
      = with_chunkindices (Some (<[index:=Some bs]> cis)) self.
Proof.
  unfold chunk_text.
  destruct (item AttributeError chunkindices index self) as [r s] eqn:E1.
  apply item_inv in E1 as E1'. destruct E1' as [-> Hr].
  destruct r as [cached|e]; [|left; done].
  destruct cached as [bs|].
  - mred. rewrite E1. destruct (chunk_emit _ _ _ _). left. done.
  - destruct (chunk_compute text index self) as [r2 s2] eqn:E2.
    destruct (chunk_compute_cases _ _ _ _ _ E2)
      as [->|(cis' & bs & Hc' & Hlt & -> & ->)].
    + destruct r2; [|left; done]. rewrite E1. left. done.
    + erewrite item_ok; [|reflexivity|apply list_lookup_insert_eq; done].
      right. exists cis', bs. done.
Qed.

Lemma chunk_content_state label text index self :
  snd (chunk_content label text index self) = self \/
  exists cis bs, chunkindices self = Some cis /\ (index < length cis)%nat /\
    snd (chunk_content label text index self)
      = with_chunkindices (Some (<[index:=Some bs]> cis)) self.
Proof.
  unfold chunk_content, as_content. destruct text.
  - pose proof (chunk_text_state label (list_ascii_of_string s) index self) as H.
    destruct (chunk_text _ _ _ _) as [[? ?] ?]. done.
  - pose proof (chunk_text_state label ws index self) as H.
    destruct (chunk_text _ _ _ _) as [[? ?] ?]. done.
Qed.

Lemma chunk_text_empty {A} label index self cis :
  chunkindices self = Some cis -> cis !! index = Some None ->
  chunk_text label (@nil A) index self = (([], Some UnboundLocalError), self).
Proof.
  intros Hc Hi. unfold chunk_text. rewrite (item_ok _ _ _ _ _ _ Hc Hi).
  reflexivity.
Qed.

Lemma chunk_content_empty label text index self cis :
  chunkindices self = Some cis -> cis !! index = Some None -> len text = 0%nat ->
  chunk_content label text index self = (([], Some UnboundLocalError), self).
Proof.
  intros Hc Hi Hl. unfold chunk_content. destruct text as [s|ws]; cbn in Hl.
  - destruct s; [|done]. cbn. rewrite (chunk_text_empty _ _ _ _ Hc Hi). done.
  - destruct ws; [|done]. rewrite (chunk_text_empty _ _ _ _ Hc Hi). done.
Qed.

Lemma gen_loop_stops {S O} (I : S -> Prop) (body : nat -> S -> gen O * S)
    i idxs :
  (forall j s, In j idxs -> I s -> snd (fst (body j s)) = None ->
               I (snd (body j s))) ->
  (forall s, I s -> snd (fst (body i s)) <> None) ->
  In i idxs -> forall s, I s -> snd (fst (gen_loop body idxs s)) <> None.
Proof.
  induction idxs as [|j rest IH]; intros Hstep Hi Hin s Hs; [done|].
  cbn [gen_loop].
  destruct (body j s) as [[o [e|]] s1] eqn:E; [done|].
  assert (Hs1 : I s1).
  { specialize (Hstep j s (or_introl eq_refl) Hs). rewrite E in Hstep.
    apply Hstep. done. }
  destruct Hin as [->|Hin].
  - specialize (Hi s Hs). rewrite E in Hi. done.
  - specialize (IH (fun j s H => Hstep j s (or_intror H)) Hi Hin s1 Hs1).
    destruct (gen_loop body rest s1) as [[o' e'] s2]. done.
Qed.

Lemma set_params_fitted p kw self l :
  texts (base self) = Some l ->
  base (run (ChunkCorpus.set_params p kw) self)
    = run (BOWCorpus.set_params kw) (base self) /\
  chunkindices (run (ChunkCorpus.set_params p kw) self)
    = (if any_truthy p then Some (replicate (length l) None)
       else chunkindices self).
Proof.
  intros T. unfold any_truthy.
  unfold run, ChunkCorpus.set_params, super, reset_chunkindices.
  destruct self as [b ? ? ? ? ? ? ?]. destruct b. munfold. cbn in *. subst.
  destruct (_ || _); cbn; done.
Qed.

(** The engines of the theorems below: pairs are fitted to a new engine,
    then parameters and settings are made. *)
Lemma given_engine glob tk l p kw :
  l <> [] ->
  let c := run (ChunkCorpus.set_params p kw)
             (run (ChunkCorpus.fit glob (SrcPairs l) false) (ChunkCorpus.init tk)) in
  filenames (base c) = false /\ texts (base c) = Some l /\
  resident_inv (base c) /\
  chunkindices c = Some (replicate (length l) None).
Proof.
  intros Hl c.
  destruct (fit_texts_resident glob l (base (ChunkCorpus.init tk)) eq_refl Hl)
    as (b' & E & C & T & R).
  assert (E1 : run (ChunkCorpus.fit glob (SrcPairs l) false) (ChunkCorpus.init tk)
               = with_chunkindices (Some (replicate (length l) None))
                   (with_base b' (ChunkCorpus.init tk))).
  { unfold run, ChunkCorpus.fit, super, reset_chunkindices. mred.
    rewrite E. cbn. rewrite T. reflexivity. }
  subst c. rewrite E1.
  assert (Hfn : filenames b' = false) by (unfold config in C; cbn in C; congruence).
  destruct (set_params_fitted p kw
              (with_chunkindices (Some (replicate (length l) None))
                 (with_base b' (ChunkCorpus.init tk))) l T) as [-> ->].
  cbn [base with_chunkindices with_base chunkindices].
  destruct (bow_set_params_resident kw b') as (F & T' & R').
  repeat split; [congruence|congruence|apply R'; exact R|].
  destruct (any_truthy p); reflexivity.
Qed.

Lemma iter_stops_at_empty disk c l i lb t cis :
  filenames (base c) = false -> resident_inv (base c) ->
  texts (base c) = Some l -> l !! i = Some (lb, t) ->
  chunkindices c = Some cis -> cis !! i = Some None ->
  len (served (base c) t) = 0%nat ->
  snd (fst (ChunkCorpus.iter disk c)) <> None.
Proof.
  intros Hfn Hres Htx Hi Hc Hci Hlen.
  unfold ChunkCorpus.iter. rewrite Htx.
  set (I := fun s : ChunkCorpus.obj =>
              filenames (base s) = false /\ resident_inv (base s) /\
              texts (base s) = Some l /\ config (base s) = config (base c) /\
              exists cis, chunkindices s = Some cis /\ cis !! i = Some None).
  assert (Hfail : forall s, I s ->
            snd (fst (match super (getitem disk i) s with
                      | (Raise e, s) => (([], Some e), s)
                      | (Ok (label, text), s) => chunk_content label text i s
                      end)) <> None).
  { intros s (F & R & T & C & cis' & Hc' & Hi').
    destruct (getitem_serves disk i lb t (base s) l F R T Hi)
      as (b' & E & C' & T' & R').
    unfold super. rewrite E. unfold serve. cbn [fst snd].
    rewrite (served_config _ _ _ C).
    erewrite chunk_content_empty; [done|exact Hc'|exact Hi'|exact Hlen]. }
  apply (gen_loop_stops I _ i); [|exact Hfail| |].
  - intros j s Hj (F & R & T & C & cis' & Hc' & Hi') Hok.
    destruct (decide (j = i)) as [->|Hne].
    { exfalso. eapply Hfail; [|exact Hok]. repeat split; eauto. }
    apply in_seq in Hj.
    destruct (lookup_lt_is_Some_2 l j ltac:(lia)) as [[lj tj] Hlj].
    destruct (getitem_serves disk j lj tj (base s) l F R T Hlj)
      as (b' & E & C' & T' & R').
    unfold super in *. rewrite E in *. unfold serve in *. cbn [fst snd] in *.
    assert (F' : filenames b' = false) by (unfold config in *; congruence).
    assert (C2 : config b' = config (base c)) by congruence.
    assert (T2 : texts b' = Some l) by congruence.
    destruct (chunk_content_state lj (served (base s) tj) j (with_base b' s))
      as [Hs|(cis2 & bs & Hc2 & Hlt & Hs)]; rewrite Hs.
    + split; [exact F'|]. split; [exact R'|]. split; [exact T2|].
      split; [exact C2|]. exists cis'. split; [exact Hc'|exact Hi'].
    + split; [exact F'|]. split; [exact R'|]. split; [exact T2|].
      split; [exact C2|]. cbn in Hc2. assert (cis2 = cis') as -> by congruence.
      eexists. split; [reflexivity|].
      rewrite list_lookup_insert_ne by done. exact Hi'.
  - apply in_seq.
    apply lookup_lt_Some in Hi. lia.
  - repeat split; eauto.
Qed.

(** An engine cannot be iterated past a text without tokens.  When pairs
    are fitted to a new engine and one of the texts, under the settings
    made, comes out empty (an empty string or list, or tokens that are all
    filtered away), iterating the engine ends with an exception: at that
    text [chunk_text] reads a chunk size that was never set. *)
Theorem empty_text_stops_iteration disk glob tk l p kw i lb t :
  l !! i = Some (lb, t) ->
  let c := run (ChunkCorpus.set_params p kw)
             (run (ChunkCorpus.fit glob (SrcPairs l) false) (ChunkCorpus.init tk)) in
  len (served (base c) t) = 0%nat ->
  (exists e, snd (fst (ChunkCorpus.iter disk c)) = Some e) /\
  (i = 0%nat -> fst (ChunkCorpus.iter disk c) = ([], Some UnboundLocalError)).
Proof.
  intros Hi c Hlen.
  assert (Hl : l <> []) by (destruct l; done).
  destruct (given_engine glob tk l p kw Hl) as (F & T & R & Hc).
  fold c in F, T, R, Hc.
  assert (Hci : replicate (length l) (@None bounds) !! i = Some None).
  { apply lookup_replicate_2. eapply lookup_lt_Some; eauto. }
  split.
  - pose proof (iter_stops_at_empty disk c l i lb t _ F R T Hi Hc Hci Hlen) as H.
    destruct (snd (fst (ChunkCorpus.iter disk c))); [eauto|done].
  - intros ->. unfold ChunkCorpus.iter. rewrite T.
    destruct l as [|x l']; [done|]. cbn in Hi. simplify_eq.
    cbn [length seq gen_loop].
    destruct (getitem_serves disk 0 lb t (base c) _ F R T eq_refl)
      as (b' & E & C' & T' & R').
    unfold super. rewrite E. unfold serve. cbn [fst snd].
    erewrite chunk_content_empty; [done|exact Hc|exact Hci|exact Hlen].
Qed.

Lemma empty_text_stops_iteration_witness :
  fst (ChunkCorpus.iter Scenario.no_files
         (Scenario.engine Scenario.default_tokenizer Scenario.no_match
            [("a", CStr "?!")] no_params))
  = ([], Some UnboundLocalError).
Proof.
  apply (empty_text_stops_iteration Scenario.no_files Scenario.no_match
           Scenario.default_tokenizer [("a", CStr "?!")] no_params no_kwargs
           0%nat "a" (CStr "?!")).
  - reflexivity.
  - vm_compute. reflexivity.
  - reflexivity.
Defined.

(** ** The chunking engine: indexing *)

(** The parent's [__getitem__] is a generator; taking it apart as
    [label, text] never gives a pair. *)
Lemma getitem_int_raises disk key (self : ChunkCorpus.obj) :
  exists e, fst (getitem_int disk key self) = Raise e /\
    (forall r, fst (getitem disk key (base self)) = Ok r -> e = ValueError).
Proof.
  unfold getitem_int, super. mred.
  destruct (getitem disk key (base self)) as [[r|e] b']; cbn.
  - exists ValueError. done.
  - exists e. split; [done|]. intros r [=].
Qed.

(** Indexing an engine with an int does not return chunks.  On an engine
    that pairs were fitted to, for every key below the number of texts and
    under every choice of parameters and settings, the access serves the
    text and then raises ValueError: the parent's [__getitem__] is a
    generator that yields one pair, where [label, text] takes two values. *)
Theorem int_index_raises_ValueError disk glob tk l p kw key :
  (key < length l)%nat ->
  fst (getitem_int disk key
         (run (ChunkCorpus.set_params p kw)
            (run (ChunkCorpus.fit glob (SrcPairs l) false)
               (ChunkCorpus.init tk))))
  = Raise ValueError.
Proof.
  intros Hlt.
  assert (Hl : l <> []) by (destruct l; [cbn in Hlt; lia|done]).
  destruct (given_engine glob tk l p kw Hl) as (F & T & R & Hc).
  destruct (lookup_lt_is_Some_2 l key Hlt) as [[lb t] Hk].
  destruct (getitem_serves disk key lb t _ l F R T Hk) as (b' & E & _).
  unfold getitem_int, super. mred. rewrite E. reflexivity.
Qed.

Lemma int_index_raises_ValueError_witness :
  fst (getitem_int Scenario.no_files 0
         (Scenario.engine Scenario.default_tokenizer Scenario.no_match
            [("a", CStr Scenario.sonnet)]
            (mk_params (VInt 4) VNone VNone VNone VNone VNone)))
  = Raise ValueError.
Proof.
  apply (int_index_raises_ValueError Scenario.no_files Scenario.no_match
           Scenario.default_tokenizer [("a", CStr Scenario.sonnet)]
           (mk_params (VInt 4) VNone VNone VNone VNone VNone) no_kwargs 0%nat).
  simpl. lia.
Defined.

Lemma chunk_compute_with_base {A} (text : list A) index b self :
  chunk_compute text index (with_base b self)
  = (fst (chunk_compute text index self),
     with_base b (snd (chunk_compute text index self))).
Proof.
  unfold chunk_compute.
  destruct (Z.of_nat (length text) =? 0); [reflexivity|].
  mred.
  change (resolve_chunksize (with_base b self)) with (resolve_chunksize self).
  change (resolve_overlap (with_base b self)) with (resolve_overlap self).
  change (boundaries (with_base b self)) with (boundaries self).
  change (minsize (with_base b self)) with (minsize self).
  change (upscale (with_base b self)) with (upscale self).
  destruct (resolve_chunksize self (Z.of_nat (length text))) as [cs|e];
    [|reflexivity].
  destruct (resolve_overlap self cs) as [o|e]; [|reflexivity].
  destruct cs as [c|]; [|reflexivity].
  destruct (c >? Z.of_nat (length text)).
  - destruct (truthy (minsize self)); [reflexivity|].
    destruct (truthy (upscale self)); [|reflexivity].
    destruct (true_div_overflows c (Z.of_nat (length text))); reflexivity.
  - destruct (boundaries self (Z.of_nat (length text)) c o) as [bs|e];
      [|reflexivity].
    unfold set_item.
    change (chunkindices (with_base b self)) with (chunkindices self).
    destruct (chunkindices self) as [cis|]; [|reflexivity].
    destruct (decide (index < length cis)%nat); reflexivity.
Qed.

Lemma chunk_text_reads_no_base {A} label (text : list A) index b self :
  fst (chunk_text label text index (with_base b self))
  = fst (chunk_text label text index self).
Proof.
  unfold chunk_text. unfold item at 1 3.
  change (chunkindices (with_base b self)) with (chunkindices self).
  destruct (chunkindices self) as [cis|] eqn:Hc; [|done].
  destruct (cis !! index) as [[bs|]|] eqn:Hi; [| |done].
  - mred. unfold item. cbn [chunkindices with_base]. rewrite Hc, Hi. done.
  - rewrite chunk_compute_with_base.
    destruct (chunk_compute text index self) as [[chunk|e] s'] eqn:E; [|done].
    cbn [fst snd]. unfold item. cbn [chunkindices with_base].
    destruct (chunkindices s') as [cis'|]; [|done].
    destruct (cis' !! index) as [[bs|]|]; done.
Qed.

Lemma chunk_content_reads_no_base label text index b self :
  fst (chunk_content label text index (with_base b self))
  = fst (chunk_content label text index self).
Proof.
  unfold chunk_content, as_content. destruct text.
  - pose proof (chunk_text_reads_no_base label (list_ascii_of_string s) index b self) as H.
    do 2 destruct (chunk_text _ _ _ _) as [[? ?] ?]. cbn in *. congruence.
  - pose proof (chunk_text_reads_no_base label ws index b self) as H.
    do 2 destruct (chunk_text _ _ _ _) as [[? ?] ?]. cbn in *. congruence.
Qed.

Lemma slice_of_one disk c l s lb t :
  filenames (base c) = false -> resident_inv (base c) ->
  texts (base c) = Some l -> l !! s = Some (lb, t) ->
  fst (getitem_sliced disk (mk_slice (Some s) (Some (S s)) None) c)
  = collected (fst (chunk_content lb (served (base c) t) 0 c)).
Proof.
  intros F R T Hs. unfold getitem_sliced. cbn [key_start key_stop key_step].
  assert (or_else (Some s) 0 = s) as -> by (destruct s; reflexivity).
  assert (or_else None 1 = 1%nat) as -> by reflexivity.
  assert (range (Z.of_nat s) (Z.of_nat (S s)) (Z.of_nat 1)
          = Ok [Z.of_nat s]) as ->.
  { unfold range. change (Z.of_nat 1) with 1.
    change (1 =? 0) with false. change (0 <? 1) with true. cbn iota.
    replace (Z.of_nat (S s) - Z.of_nat s + 1 - 1) with 1 by lia.
    change (Z.to_nat (1 / 1)) with 1%nat. cbn [seq map]. f_equal. f_equal.
    lia. }
  cbn [length seq gen_loop lookup list_lookup]. rewrite Nat2Z.id.
  destruct (getitem_serves disk s lb t (base c) l F R T Hs)
    as (b' & E & _).
  unfold super. rewrite E. unfold serve. cbn [fst snd].
  rewrite <- (chunk_content_reads_no_base lb (served (base c) t) 0 b' c).
  destruct (chunk_content lb (served (base c) t) 0 (with_base b' c))
    as [[out [e|]] c']; cbn; [reflexivity|].
  rewrite app_nil_r. reflexivity.
Qed.

Lemma iter_keeps_given disk c l :
  filenames (base c) = false -> resident_inv (base c) ->
  texts (base c) = Some l ->
  filenames (base (snd (ChunkCorpus.iter disk c))) = false /\
  resident_inv (base (snd (ChunkCorpus.iter disk c))) /\
  texts (base (snd (ChunkCorpus.iter disk c))) = Some l /\
  config (base (snd (ChunkCorpus.iter disk c))) = config (base c).
Proof.
  intros F R T. unfold ChunkCorpus.iter. rewrite T.
  pose (I := fun s : ChunkCorpus.obj =>
               filenames (base s) = false /\ resident_inv (base s) /\
               texts (base s) = Some l /\ config (base s) = config (base c)).
  apply (gen_loop_inv I (fun _ => True)); [|done].
  intros i s (F' & R' & T' & C'). split; [|apply Forall_true; done].
  unfold super.
  destruct (l !! i) as [[lj tj]|] eqn:Hi.
  - destruct (getitem_serves disk i lj tj (base s) l F' R' T' Hi)
      as (b' & E & C2 & T2 & R2).
    rewrite E. unfold serve. cbn [fst snd]. unfold I.
    rewrite chunk_content_base. cbn [base with_base].
    repeat split; [unfold config in *; congruence|done|congruence|congruence].
  - unfold getitem, text_at, bind, item. rewrite T', Hi. cbn.
    repeat split; done.
Qed.

(** A slice chunks a text under its place in the slice, not under its
    place in the corpus.  On an engine that pairs were fitted to and that
    has been iterated, the slice [s:s+1] serves the text [s] and cuts it
    under index 0: at the boundaries stored for the first text of the
    corpus, when it has any. *)
Theorem slice_chunks_under_place_in_slice disk glob tk l p kw s lb t :
  l !! s = Some (lb, t) ->
  let c := snd (ChunkCorpus.iter disk
                  (run (ChunkCorpus.set_params p kw)
                     (run (ChunkCorpus.fit glob (SrcPairs l) false)
                        (ChunkCorpus.init tk)))) in
  fst (getitem_sliced disk (mk_slice (Some s) (Some (S s)) None) c)
  = collected (fst (chunk_content lb (served (base c) t) 0 c)).
Proof.
  intros Hs c.
  assert (Hl : l <> []) by (destruct l; done).
  destruct (given_engine glob tk l p kw Hl) as (F & T & R & _).
  destruct (iter_keeps_given disk _ l F R T) as (F' & R' & T' & _).
  apply (slice_of_one disk c l s lb t F' R' T' Hs).
Qed.

Lemma slice_chunks_under_place_in_slice_witness :
  fst (ChunkCorpus.iter Scenario.no_files
         (Scenario.engine Scenario.default_tokenizer Scenario.no_match
            Sample.two_texts Sample.chunks_of_four))
  = ([("a_0000", Some (CToks ["shall"; "i"; "compare"; "thee"]));
      ("a_0001", Some (CToks ["to"; "a"; "summer"; "s"]));
      ("b_0000", Some (CToks ["a"; "b"; "c"; "d"]))], None) /\
  fst (getitem_sliced Scenario.no_files (mk_slice (Some 1%nat) (Some 2%nat) None)
         (snd (ChunkCorpus.iter Scenario.no_files
                 (Scenario.engine Scenario.default_tokenizer Scenario.no_match
                    Sample.two_texts Sample.chunks_of_four))))
  = Ok [("b_0000", Some (CToks ["a"; "b"; "c"; "d"]));
        ("b_0001", Some (CToks ["e"]))].
Proof.
  split; [vm_compute; reflexivity|].
  etransitivity.
  - exact (slice_chunks_under_place_in_slice Scenario.no_files Scenario.no_match
             Scenario.default_tokenizer Sample.two_texts Sample.chunks_of_four
             no_kwargs 1%nat "b" (CToks Scenario.letters) eq_refl).
  - vm_compute. reflexivity.
Defined.

(** ** The default tokenizer: what a token is *)

Lemma word_char_cases c :
  Tokenize.is_word_char c = true ->
  Tokenize.is_space c = false /\
  Tokenize.is_word_char (Tokenize.lower_char c) = true /\
  is_upper (Tokenize.lower_char c) = false /\
  is_ascii (Tokenize.lower_char c) = is_ascii c /\
  (is_upper c = false -> Tokenize.lower_char c = c).
Proof.
  destruct c as [[] [] [] [] [] [] [] []]; vm_compute; intros H;
    repeat split; try done.
Qed.

Lemma all_chars_app p s1 s2 :
  all_chars p (s1 ++ s2) = all_chars p s1 && all_chars p s2.
Proof.
  induction s1 as [|c s1 IH]; cbn; [done|]. rewrite IH, andb_assoc. done.
Qed.

Lemma all_chars_impl (p q : ascii -> bool) s :
  (forall c, p c = true -> q c = true) ->
  all_chars p s = true -> all_chars q s = true.
Proof.
  intros H. induction s as [|c s IH]; cbn; [done|].
  intros [Hc Hs]%andb_true_iff. rewrite (H _ Hc), (IH Hs). done.
Qed.

(** Splitting leaves words that are not empty and hold only characters
    that are not spaces. *)
Lemma split_tokens (p : ascii -> bool) s :
  forall cur,
  all_chars (fun c => Tokenize.is_space c || p c) s = true ->
  all_chars p cur = true ->
  Forall (fun w => w <> EmptyString /\ all_chars p w = true)
         (Tokenize.split cur s).
Proof.
  induction s as [|c s IH]; intros cur Hs Hcur; cbn.
  - destruct cur; [constructor|]. constructor; [done|constructor].
  - cbn in Hs. apply andb_true_iff in Hs as [Hc Hs].
    destruct (Tokenize.is_space c) eqn:Hsp.
    + destruct cur; [apply IH; done|].
      constructor; [done|]. apply IH; done.
    + apply IH; [done|]. rewrite all_chars_app, Hcur. cbn.
      cbn in Hc. rewrite Hc. done.
Qed.

Lemma sub_nonword_chars b s :
  all_chars is_ascii s = true ->
  all_chars (fun c => is_ascii c && Tokenize.is_word_char c || Ascii.eqb c " ")
            (Tokenize.sub_nonword b s) = true.
Proof.
  revert b.
  induction s as [|c s IH]; intros b; cbn [all_chars Tokenize.sub_nonword];
    [done|].
  intros [Ha Hs]%andb_true_iff.
  destruct (Tokenize.is_word_char c) eqn:Hc; cbn [all_chars].
  - rewrite Hc, Ha. cbn [andb orb]. apply IH, Hs.
  - destruct b; [apply IH, Hs|]. cbn [all_chars].
    change (Ascii.eqb " " " ") with true. rewrite orb_true_r. apply IH, Hs.
Qed.

Lemma lower_chars s :
  all_chars (fun c => is_ascii c && Tokenize.is_word_char c || Ascii.eqb c " ")
            s = true ->
  all_chars (fun c => Tokenize.is_space c || token_char true c)
            (Tokenize.lower s) = true.
Proof.
  induction s as [|c s IH]; cbn [all_chars Tokenize.lower]; [done|].
  intros [Hc Hs]%andb_true_iff. rewrite (IH Hs), andb_true_r.
  destruct (Tokenize.is_word_char c) eqn:Hw.
  - destruct (word_char_cases c Hw) as (_ & H1 & H2 & H3 & _).
    unfold token_char. rewrite H1, H2, H3.
    rewrite andb_true_r in Hc.
    destruct (is_ascii c) eqn:Ha; [cbn; apply orb_true_r|].
    rewrite orb_false_l in Hc. apply Ascii.eqb_eq in Hc as ->. done.
  - rewrite andb_false_r, orb_false_l in Hc.
    apply Ascii.eqb_eq in Hc as ->. reflexivity.
Qed.

Lemma word_tokenize_tokens self sent :
  Tokenize.word_tokenizer self = None -> all_chars is_ascii sent = true ->
  Forall (fun w => is_token (Tokenize.lowercase self) w = true)
         (Tokenize.word_tokenize self sent).
Proof.
  intros Hw Ha. unfold Tokenize.word_tokenize. rewrite Hw.
  eapply Forall_impl.
  - apply (split_tokens (token_char (Tokenize.lowercase self))); [|done].
    destruct (Tokenize.lowercase self).
    + apply lower_chars, sub_nonword_chars, Ha.
    + eapply all_chars_impl; [|apply sub_nonword_chars, Ha].
      intros c Hc. cbn beta in Hc. unfold token_char.
      destruct (is_ascii c && Tokenize.is_word_char c);
        [cbn; apply orb_true_r|].
      rewrite orb_false_l in Hc. apply Ascii.eqb_eq in Hc as ->. reflexivity.
  - intros w [Hne Hall]. unfold is_token. rewrite Hall, andb_true_r.
    destruct w; done.
Qed.

(** The default word tokenizer only makes words.  With no word tokenizer
    supplied, whatever the sentence splitter does, every token that
    [tokenize] makes from sentences of ASCII characters is not empty and
    holds word characters only, none of them a capital letter when
    [lowercase] is on. *)
Theorem tokens_are_words nltk self text :
  Tokenize.word_tokenizer self = None ->
  forallb (all_chars is_ascii) (Tokenize.sent_tokenize nltk self text) = true ->
  forallb (is_token (Tokenize.lowercase self))
          (Tokenize.tokenize nltk self text) = true.
Proof.
  intros Hw Ha. apply forallb_forall. intros w Hin.
  unfold Tokenize.tokenize in Hin. apply in_flat_map in Hin as (sent & Hs & Hin).
  rewrite forallb_forall in Ha.
  pose proof (word_tokenize_tokens self sent Hw (Ha _ Hs)) as H.
  rewrite Forall_forall in H. apply H. apply list_elem_of_In. exact Hin.
Qed.

Lemma tokens_are_words_witness :
  forallb (is_token true)
          (Tokenize.tokenize Scenario.one_sentence Tokenize.init Scenario.sonnet)
  = true.
Proof.
  apply (tokens_are_words Scenario.one_sentence Tokenize.init Scenario.sonnet).
  - reflexivity.
  - reflexivity.
Defined.

(** ** The default tokenizer: tokens joined and split again *)

Lemma append_empty_r s : (s ++ "")%string = s.
Proof. induction s as [|c s IH]; cbn; [done|]. rewrite IH. done. Qed.

Lemma append_assoc_string s1 s2 s3 :
  ((s1 ++ s2) ++ s3)%string = (s1 ++ (s2 ++ s3))%string.
Proof. induction s1 as [|c s1 IH]; cbn; [done|]. rewrite IH. done. Qed.

Lemma concat_space_cons w w' r :
  String.concat " " (w :: w' :: r)
  = (w ++ String " " (String.concat " " (w' :: r)))%string.
Proof. reflexivity. Qed.

Lemma is_token_inv lc w :
  is_token lc w = true ->
  exists c w', w = String c w' /\ all_chars (token_char lc) w = true.
Proof.
  unfold is_token. intros [Hne Hall]%andb_true_iff.
  destruct w as [|c w']; [done|]. eauto.
Qed.

Lemma token_char_inv lc c :
  token_char lc c = true ->
  Tokenize.is_word_char c = true /\ Tokenize.is_space c = false /\
  (lc = true -> Tokenize.lower_char c = c).
Proof.
  unfold token_char. intros [[Ha Hw]%andb_true_iff Hu]%andb_true_iff.
  destruct (word_char_cases c Hw) as (H1 & _ & _ & _ & H4).
  repeat split; try done. intros ->. apply H4.
  cbn in Hu. destruct (is_upper c); done.
Qed.

Lemma sub_nonword_word lc w s b :
  w <> EmptyString -> all_chars (token_char lc) w = true ->
  Tokenize.sub_nonword b (w ++ s) = (w ++ Tokenize.sub_nonword false s)%string.
Proof.
  revert b. induction w as [|c w IH]; intros b Hne Hall; [done|].
  cbn in Hall. apply andb_true_iff in Hall as [Hc Hall].
  destruct (token_char_inv _ _ Hc) as (Hw & _ & _).
  cbn. rewrite Hw. f_equal.
  destruct w as [|c' w']; [reflexivity|]. apply IH; done.
Qed.

Lemma sub_nonword_joined lc ws :
  forallb (is_token lc) ws = true ->
  forall b, ws <> [] ->
  Tokenize.sub_nonword b (String.concat " " ws) = String.concat " " ws.
Proof.
  induction ws as [|w r IH]; intros Hall b Hne; [done|].
  cbn [forallb] in Hall. apply andb_true_iff in Hall as [Hw Hr].
  destruct (is_token_inv _ _ Hw) as (c & w' & -> & Hc).
  destruct r as [|w2 r].
  - cbn [String.concat]. rewrite <- (append_empty_r (String c w')) at 1.
    rewrite (sub_nonword_word lc) by done.
    change (Tokenize.sub_nonword false "") with ""%string.
    apply append_empty_r.
  - rewrite concat_space_cons. rewrite (sub_nonword_word lc) by done.
    f_equal. cbn [Tokenize.sub_nonword].
    change (Tokenize.is_word_char " ") with false. cbn iota.
    f_equal. apply IH; done.
Qed.

Lemma lower_word w :
  all_chars (token_char true) w = true -> Tokenize.lower w = w.
Proof.
  induction w as [|c w IH]; cbn; [done|].
  intros [Hc Hall]%andb_true_iff.
  destruct (token_char_inv _ _ Hc) as (_ & _ & ->); [|done].
  rewrite IH; done.
Qed.

Lemma lower_append s1 s2 :
  Tokenize.lower (s1 ++ s2) = (Tokenize.lower s1 ++ Tokenize.lower s2)%string.
Proof. induction s1 as [|c s1 IH]; cbn; [done|]. rewrite IH. done. Qed.

Lemma lower_joined ws :
  forallb (is_token true) ws = true ->
  Tokenize.lower (String.concat " " ws) = String.concat " " ws.
Proof.
  induction ws as [|w r IH]; intros Hall; [done|].
  cbn [forallb] in Hall. apply andb_true_iff in Hall as [Hw Hr].
  destruct (is_token_inv _ _ Hw) as (c & w' & -> & Hc).
  destruct r as [|w2 r].
  - cbn [String.concat]. apply lower_word. done.
  - rewrite concat_space_cons, lower_append, lower_word by done.
    f_equal. cbn [Tokenize.lower]. rewrite IH by done. reflexivity.
Qed.

Lemma split_word lc w s cur :
  all_chars (token_char lc) w = true ->
  Tokenize.split cur (w ++ s) = Tokenize.split (cur ++ w) s.
Proof.
  revert cur. induction w as [|c w IH]; intros cur Hall; cbn.
  - rewrite append_empty_r. done.
  - cbn in Hall. apply andb_true_iff in Hall as [Hc Hall].
    destruct (token_char_inv _ _ Hc) as (_ & -> & _).
    rewrite IH by done. rewrite append_assoc_string. done.
Qed.

Lemma split_joined lc ws :
  forallb (is_token lc) ws = true ->
  Tokenize.split EmptyString (String.concat " " ws) = ws.
Proof.
  induction ws as [|w r IH]; intros Hall; [done|].
  cbn [forallb] in Hall. apply andb_true_iff in Hall as [Hw Hr].
  destruct (is_token_inv _ _ Hw) as (c & w' & -> & Hc).
  destruct r as [|w2 r].
  - cbn [String.concat]. rewrite <- (append_empty_r (String c w')) at 1.
    rewrite (split_word lc) by done. reflexivity.
  - rewrite concat_space_cons, (split_word lc) by done.
    cbn [append Tokenize.split].
    change (Tokenize.is_space " ") with true. cbn iota.
    rewrite IH by done. reflexivity.
Qed.

Lemma word_tokenize_joined self ws :
  Tokenize.word_tokenizer self = None ->
  forallb (is_token (Tokenize.lowercase self)) ws = true ->
  Tokenize.word_tokenize self (String.concat " " ws) = ws.
Proof.
  intros Hw Hall. unfold Tokenize.word_tokenize. rewrite Hw.
  destruct ws as [|w r]; [destruct (Tokenize.lowercase self); reflexivity|].
  rewrite (sub_nonword_joined _ _ Hall) by done.
  destruct (Tokenize.lowercase self) eqn:Hlc.
  - rewrite lower_joined by done. apply (split_joined true). done.
  - apply (split_joined false). done.
Qed.

(** Tokens survive being joined.  With no word tokenizer supplied, a list
    of tokens (words of ASCII word characters, lowercase when [lowercase]
    is on) that is joined with single spaces is tokenized into the same
    list; so tokenizing a sentence of ASCII characters, joining the tokens
    and tokenizing again gives what tokenizing gave. *)
Theorem joined_tokens_tokenize_back self ws sent :
  Tokenize.word_tokenizer self = None ->
  forallb (is_token (Tokenize.lowercase self)) ws = true ->
  all_chars is_ascii sent = true ->
  Tokenize.word_tokenize self (String.concat " " ws) = ws /\
  Tokenize.word_tokenize self
    (String.concat " " (Tokenize.word_tokenize self sent))
  = Tokenize.word_tokenize self sent.
Proof.
  intros Hw Hall Ha. split; [apply word_tokenize_joined; done|].
  apply word_tokenize_joined; [done|].
  apply forallb_forall. intros w Hin.
  pose proof (word_tokenize_tokens self sent Hw Ha) as H.
  rewrite Forall_forall in H. apply H, list_elem_of_In, Hin.
Qed.

Lemma joined_tokens_tokenize_back_witness :
  Tokenize.word_tokenize Tokenize.init
    "shall i compare thee to a summer s day"
  = Scenario.sonnet_words /\
  Tokenize.word_tokenize Tokenize.init
    (String.concat " " (Tokenize.word_tokenize Tokenize.init Scenario.sonnet))
  = Tokenize.word_tokenize Tokenize.init Scenario.sonnet.
Proof.
  apply (joined_tokens_tokenize_back Tokenize.init Scenario.sonnet_words
           Scenario.sonnet).
  - reflexivity.
  - reflexivity.
  - reflexivity.
Defined.

(** ** Roman numerals *)

Lemma standard_numerals_checked :
  forallb (fun n =>
             match RomanNumerals.roman_to_int (standard_numeral n) with
             | RomanNumerals.Int a => a =? Z.of_nat n
             | _ => false
             end)
          (seq 1 3999) = true.
Proof. vm_compute. reflexivity. Qed.

Lemma upper_lower_char c :
  RomanNumerals.upper_char (Tokenize.lower_char c) = RomanNumerals.upper_char c.
Proof. destruct c as [[] [] [] [] [] [] [] []]; vm_compute; reflexivity. Qed.

Lemma upper_lower s :
  RomanNumerals.upper (Tokenize.lower s) = RomanNumerals.upper s.
Proof.
  induction s as [|c s IH]; cbn; [done|]. rewrite upper_lower_char, IH. done.
Qed.

(** [roman_to_int] reads every standard numeral.  For every number from 1
    to 3999 the standard numeral of the number, in capital or in small
    letters, is turned into that number. *)
Theorem roman_to_int_reads_standard_numerals (n : nat) :
  (1 <= n <= 3999)%nat ->
  RomanNumerals.roman_to_int (standard_numeral n)
    = RomanNumerals.Int (Z.of_nat n) /\
  RomanNumerals.roman_to_int (Tokenize.lower (standard_numeral n))
    = RomanNumerals.Int (Z.of_nat n).
Proof.
  intros Hn. pose proof standard_numerals_checked as H.
  rewrite forallb_forall in H. specialize (H n).
  assert (Hin : In n (seq 1 3999)) by (apply in_seq; lia).
  specialize (H Hin).
  assert (E : RomanNumerals.roman_to_int (standard_numeral n)
              = RomanNumerals.Int (Z.of_nat n)).
  { destruct (RomanNumerals.roman_to_int (standard_numeral n)) as [a|]; [|done].
    apply Z.eqb_eq in H. subst. done. }
  split; [exact E|].
  unfold RomanNumerals.roman_to_int in *. rewrite upper_lower. exact E.
Qed.

Lemma roman_to_int_reads_standard_numerals_witness :
  RomanNumerals.roman_to_int "MCMXCIV" = RomanNumerals.Int 1994 /\
  RomanNumerals.roman_to_int "mcmxciv" = RomanNumerals.Int 1994.
Proof.
  apply (roman_to_int_reads_standard_numerals 1994). lia.
Defined.

Lemma nums_table c v : RomanNumerals.nums c = Some v -> table v.
Proof.
  unfold RomanNumerals.nums, table.
  repeat (destruct (Ascii.eqb c _); [intros [= <-]; cbn; tauto|]). done.
Qed.

Lemma add_up_total l acc :
  RomanNumerals.add_up l acc = acc + RomanNumerals.add_up l 0.
Proof.
  revert acc. induction l as [|n l IH]; intros acc; [cbn; lia|].
  destruct l as [|next rest]; [cbn; lia|].
  change (RomanNumerals.add_up (n :: next :: rest) acc)
    with (RomanNumerals.add_up (next :: rest)
            (if next <=? n then acc + n else acc - n)).
  change (RomanNumerals.add_up (n :: next :: rest) 0)
    with (RomanNumerals.add_up (next :: rest)
            (if next <=? n then 0 + n else 0 - n)).
  rewrite IH. rewrite (IH (if next <=? n then 0 + n else 0 - n)).
  destruct (next <=? n); lia.
Qed.

Lemma add_up_first v vs :
  table v -> Forall table vs ->
  v <= RomanNumerals.add_up (v :: vs ++ [0]) 0.
Proof.
  revert v. induction vs as [|w vs IH]; intros v Hv Hvs.
  - cbn. unfold table in Hv. cbn in Hv.
    destruct (0 <=? v) eqn:E; [lia|]. apply Z.leb_gt in E. lia.
  - apply Forall_cons in Hvs as [Hw Hvs].
    specialize (IH w Hw Hvs).
    change (RomanNumerals.add_up (v :: (w :: vs) ++ [0]) 0)
      with (RomanNumerals.add_up (w :: vs ++ [0])
              (if w <=? v then 0 + v else 0 - v)).
    rewrite add_up_total.
    unfold table in Hv, Hw. cbn in Hv, Hw.
    destruct (Z.leb_spec w v); lia.
Qed.

Lemma lookup_all_bad s c tail :
  first_not numeral_letter s = Some c ->
  RomanNumerals.lookup_all (RomanNumerals.upper s ++ tail)
  = inr (RomanNumerals.upper_char c).
Proof.
  induction s as [|a s IH]; cbn [first_not]; [done|].
  unfold numeral_letter at 1.
  cbn [RomanNumerals.upper append RomanNumerals.lookup_all].
  destruct (RomanNumerals.nums (RomanNumerals.upper_char a)) as [v|].
  - intros H. rewrite (IH H). reflexivity.
  - intros [= ->]. reflexivity.
Qed.

Lemma lookup_all_good s :
  first_not numeral_letter s = None ->
  exists vs, Forall table vs /\
    RomanNumerals.lookup_all (RomanNumerals.upper s ++ "Z") = inl (vs ++ [0]).
Proof.
  induction s as [|a s IH]; cbn [first_not].
  - intros _. exists []. split; [constructor|reflexivity].
  - unfold numeral_letter at 1.
    cbn [RomanNumerals.upper append RomanNumerals.lookup_all].
    destruct (RomanNumerals.nums (RomanNumerals.upper_char a)) as [v|] eqn:E;
      [|done].
    intros H. destruct (IH H) as (vs & Hvs & ->).
    exists (v :: vs). split; [|reflexivity].
    constructor; [eapply nums_table; eauto|done].
Qed.

(** [roman_to_int] takes any string of its letters, and nothing else.  On
    ASCII input: when some character is not one of M, D, C, L, X, V, I and
    Z in either case, the call raises KeyError with the first such
    character (put in capitals); otherwise it returns an int, however the
    letters are ordered, and the int is never negative. *)
Theorem roman_to_int_takes_its_letters rnum :
  all_chars is_ascii rnum = true ->
  match first_not numeral_letter rnum with
  | Some c =>
      RomanNumerals.roman_to_int rnum
      = RomanNumerals.KeyError (RomanNumerals.upper_char c)
  | None =>
      exists n, RomanNumerals.roman_to_int rnum = RomanNumerals.Int n /\ 0 <= n
  end.
Proof.
  intros _. unfold RomanNumerals.roman_to_int.
  destruct (first_not numeral_letter rnum) as [c|] eqn:E.
  - rewrite (lookup_all_bad _ _ _ E). reflexivity.
  - destruct (lookup_all_good _ E) as (vs & Hvs & ->).
    eexists. split; [reflexivity|].
    destruct vs as [|v vs]; [cbn; lia|].
    apply Forall_cons in Hvs as [Hv Hvs].
    pose proof (add_up_first v vs Hv Hvs) as H.
    unfold table in Hv. cbn in Hv. cbn [app] in *. lia.
Qed.

Lemma roman_to_int_takes_its_letters_witness :
  RomanNumerals.roman_to_int "xiiij" = RomanNumerals.KeyError "J".
Proof.
  apply (roman_to_int_takes_its_letters "xiiij"). reflexivity.
Defined.

(** ** Literal matches *)

Lemma sorted_increasing (l : list (Z * string)) :
  ascending l -> Match.sorted l = l.
Proof.
  induction l as [|x l IH]; [done|]. intros [Hx Hl].
  unfold Match.sorted in *. cbn [foldr]. rewrite (IH Hl).
  destruct l as [|y r]; [done|]. cbn [Match.insert].
  apply Forall_cons in Hx as [Hxy _].
  unfold Match.tuple_leb.
  assert ((fst x <? fst y) = true) as -> by (apply Z.ltb_lt; done).
  reflexivity.
Qed.

Lemma enumerate_from_increasing {A} (p : Z * A -> Prop)
    `{!forall x, Decision (p x)} (l : list A) :
  forall k,
  ascending (filter p (imap (fun i a => (Z.of_nat (k + i), a)) l)) /\
  Forall (fun a => Z.of_nat k <= fst a)
    (filter p (imap (fun i a => (Z.of_nat (k + i), a)) l)).
Proof.
  induction l as [|x l IH]; intros k; cbn [imap].
  - split; [done|constructor].
  - destruct (IH (S k)) as [IH1 IH2].
    assert (E : imap ((fun i a => (Z.of_nat (k + i), a)) ∘ S) l
                = imap (fun i a => (Z.of_nat (S k + i), a)) l).
    { apply imap_ext. intros i a _. cbn. f_equal. lia. }
    rewrite E. rewrite filter_cons.
    assert (Hge : Forall (fun a : Z * A => Z.of_nat k <= fst a)
                    (filter p (imap (fun i a => (Z.of_nat (S k + i), a)) l))).
    { eapply Forall_impl; [exact IH2|]. cbn. intros; lia. }
    destruct (decide (p (Z.of_nat (k + 0), x))).
    + split.
      * split; [|exact IH1].
        eapply Forall_impl; [exact IH2|]. cbn. intros; lia.
      * constructor; [cbn; lia|exact Hge].
    + split; [exact IH1|exact Hge].
Qed.

Lemma hits_increasing ws subs : ascending (hits ws subs).
Proof.
  unfold hits, enumerate.
  apply (enumerate_from_increasing _ ws 0).
Qed.

Lemma elem_In w ws : elem w ws = true <-> In w ws.
Proof.
  unfold elem. rewrite existsb_exists. split.
  - intros (x & Hx & E). apply String.eqb_eq in E. subst. done.
  - intros H. exists w. split; [done|apply String.eqb_refl].
Qed.

Lemma hits_nil ws subs :
  hits ws subs = [] <-> existsb (fun sub => elem sub ws) subs = false.
Proof.
  split.
  - intros H. apply not_true_is_false. intros Hex.
    apply existsb_exists in Hex as (sub & Hsub & Hin).
    apply elem_In in Hin. apply list_elem_of_In in Hin.
    apply list_elem_of_lookup in Hin as [i Hi].
    assert (Hhit : (Z.of_nat i, sub) ∈ hits ws subs).
    { unfold hits. apply list_elem_of_filter. split.
      - apply Is_true_true, elem_In. done.
      - unfold enumerate. apply list_elem_of_lookup. exists i.
        rewrite list_lookup_imap, Hi. reflexivity. }
    rewrite H in Hhit. inversion Hhit.
  - intros Hex. destruct (hits ws subs) as [|[i w] r] eqn:E; [done|].
    exfalso.
    assert (Hhit : (i, w) ∈ hits ws subs) by (rewrite E; left).
    unfold hits in Hhit. apply list_elem_of_filter in Hhit as [Hw Hin].
    unfold enumerate in Hin. apply list_elem_of_lookup in Hin as [k Hk].
    rewrite list_lookup_imap in Hk.
    destruct (ws !! k) as [w'|] eqn:Hw'; [|done]. cbn in Hk. simplify_eq.
    assert (existsb (fun sub => elem sub ws) subs = true); [|congruence].
    apply existsb_exists. exists w. split.
    + apply elem_In, Is_true_true. exact Hw.
    + apply elem_In, list_elem_of_In. eapply list_elem_of_lookup_2; eauto.
Qed.

(** [find_all] on a list of tokens.  The call returns at once: [None]
    when no token is among the words looked for, and otherwise the places
    of the tokens that are, each with its token, in the order of the text;
    the result is never an empty list, and sorting changes nothing. *)
Theorem find_all_in_tokens fuel ws substrings :
  Match.find_all fuel (CToks ws) substrings
  = Some (match hits ws substrings with
          | [] => None
          | first :: others => Some (first :: others)
          end).
Proof.
  unfold Match.find_all. cbn [Match.contains].
  destruct (existsb (fun sub => elem sub ws) substrings) eqn:E.
  - fold (hits ws substrings).
    rewrite (sorted_increasing _ (hits_increasing ws substrings)).
    destruct (hits ws substrings) eqn:H; [|done].
    apply hits_nil in H. congruence.
  - apply hits_nil in E. rewrite E. reflexivity.
Qed.

Lemma prefix_length s1 s2 :
  String.prefix s1 s2 = true -> (String.length s1 <= String.length s2)%nat.
Proof.
  revert s2. induction s1 as [|a s1 IH]; intros s2; [cbn; lia|].
  destruct s2 as [|b s2]; cbn; [done|]. destruct (ascii_dec a b); [|done].
  intros H. specialize (IH _ H). lia.
Qed.

Lemma index_bound s1 s2 :
  forall n m, String.index n s1 s2 = Some m ->
  (n <= m /\ m + String.length s1 <= String.length s2)%nat.
Proof.
  induction s2 as [|b s2 IH]; intros n m; cbn [String.index].
  - destruct n; [|done]. destruct s1; [|done]. intros [= <-]. cbn. lia.
  - destruct n as [|n].
    + destruct (String.prefix s1 (String b s2)) eqn:P.
      * intros [= <-]. apply prefix_length in P. lia.
      * destruct (String.index 0 s1 s2) as [k|] eqn:E; [|done].
        intros [= <-]. destruct (IH _ _ E). cbn [String.length]. lia.
    + destruct (String.index n s1 s2) as [k|] eqn:E; [|done].
      intros [= <-]. destruct (IH _ _ E). cbn [String.length]. lia.
Qed.

Lemma index_empty s :
  forall n, (n <= String.length s)%nat -> String.index n "" s = Some n.
Proof.
  induction s as [|b s IH]; intros n Hn; cbn [String.index].
  - cbn in Hn. assert (n = 0%nat) as -> by lia. reflexivity.
  - destruct n as [|n]; [reflexivity|].
    cbn in Hn. rewrite IH by lia. reflexivity.
Qed.

(** The loop for the empty string finds it where it stands, and stands. *)
Lemma find_loop_empty s fuel :
  forall start indices,
  (0 <= start <= Z.of_nat (String.length s)) ->
  Match.find_loop fuel s "" start indices = None.
Proof.
  induction fuel as [|fuel IH]; intros start indices Hs; [done|].
  cbn [Match.find_loop]. unfold Match.find.
  rewrite index_empty by lia. rewrite Z2Nat.id by lia.
  assert ((start =? -1) = false) as -> by (apply Z.eqb_neq; lia).
  cbn [String.length Z.of_nat]. rewrite Z.add_0_r. apply IH. lia.
Qed.

Lemma find_each_empty s fuel subs :
  In EmptyString subs ->
  forall indices, Match.find_each fuel s subs indices = None.
Proof.
  induction subs as [|sub rest IH]; intros Hin indices; [done|].
  cbn [Match.find_each].
  destruct Hin as [->|Hin].
  - rewrite find_loop_empty by lia. reflexivity.
  - destruct (Match.find_loop fuel s sub 0 indices); [|done]. apply IH, Hin.
Qed.

(** The loop for a substring that is not empty moves on with every hit. *)
Lemma find_loop_returns s sub fuel :
  sub <> EmptyString ->
  forall start indices,
  0 <= start ->
  (String.length s + 1 - Z.to_nat start < fuel)%nat ->
  exists found,
    Match.find_loop fuel s sub start indices = Some (indices ++ found) /\
    Forall (fun hit => occurs_at s hit /\ snd hit = sub) found /\
    (found = [] -> String.index (Z.to_nat start) sub s = None).
Proof.
  intros Hsub.
  assert (Hlen : (0 < String.length sub)%nat) by (destruct sub; [done|cbn; lia]).
  induction fuel as [|fuel IH]; intros start indices Hs Hf; [lia|].
  cbn [Match.find_loop]. unfold Match.find.
  destruct (String.index (Z.to_nat start) sub s) as [m|] eqn:E.
  - assert ((Z.of_nat m =? -1) = false) as -> by (apply Z.eqb_neq; lia).
    destruct (index_bound _ _ _ _ E) as [H1 H2].
    destruct (IH (Z.of_nat m + Z.of_nat (String.length sub))
                 (indices ++ [(Z.of_nat m, sub)])) as (found & E' & HF & _);
      [lia|lia|].
    exists ((Z.of_nat m, sub) :: found). rewrite E', <- app_assoc.
    split; [reflexivity|]. split; [|done].
    constructor; [|exact HF]. split; [|reflexivity].
    split; [cbn; lia|]. cbn [fst snd]. rewrite Nat2Z.id.
    eapply String.index_correct1. exact E.
  - exists []. rewrite app_nil_r. cbn. repeat split; done.
Qed.

Lemma find_each_returns s fuel subs :
  ~ In EmptyString subs -> (String.length s + 1 < fuel)%nat ->
  forall indices,
  exists found,
    Match.find_each fuel s subs indices = Some (indices ++ found) /\
    Forall (fun hit => occurs_at s hit /\ In (snd hit) subs) found /\
    (found = [] -> forall sub, In sub subs -> String.index 0 sub s = None).
Proof.
  intros Hne Hf. induction subs as [|sub rest IH]; intros indices.
  - exists []. rewrite app_nil_r. repeat split; [constructor|done].
  - cbn [Match.find_each].
    assert (Hsub : sub <> EmptyString) by (intros ->; apply Hne; left; done).
    destruct (find_loop_returns s sub fuel Hsub 0 indices)
      as (f1 & E1 & H1 & N1); [lia|cbn; lia|].
    rewrite E1.
    destruct (IH (fun H => Hne (or_intror H)) (indices ++ f1))
      as (f2 & E2 & H2 & N2).
    rewrite E2, <- app_assoc. exists (f1 ++ f2).
    split; [reflexivity|]. split.
    + apply Forall_app. split.
      * eapply Forall_impl; [exact H1|]. intros hit [Ho ->]. split; [done|].
        left. done.
      * eapply Forall_impl; [exact H2|]. intros hit [Ho Hin]. split; [done|].
        right. done.
    + intros Hnil. apply app_eq_nil in Hnil as [-> ->].
      intros sub' [<-|Hin]; [apply N1; done|apply N2; done].
Qed.

Lemma contains_empty s : Match.contains "" (CStr s) = true.
Proof. cbn. rewrite index_empty by lia. reflexivity. Qed.

(** [find_all] on a string returns unless an empty substring is looked
    for.  With the empty string among the substrings the loop for it finds
    it at index 0 again and again: the call is still running after any
    number of rounds.  With no empty substring every loop ends within
    [len(string) + 2] rounds and the call returns. *)
Theorem find_all_returns_unless_empty_substring fuel s substrings :
  (In EmptyString substrings ->
   Match.find_all fuel (CStr s) substrings = None) /\
  (~ In EmptyString substrings -> (String.length s + 1 < fuel)%nat ->
   exists result, Match.find_all fuel (CStr s) substrings = Some result).
Proof.
  split.
  - intros Hin. unfold Match.find_all.
    assert (existsb (fun sub => Match.contains sub (CStr s)) substrings = true)
      as ->.
    { apply existsb_exists. exists EmptyString. split; [done|].
      apply contains_empty. }
    rewrite find_each_empty by done. reflexivity.
  - intros Hne Hf. unfold Match.find_all.
    destruct (existsb _ substrings); [|eauto].
    destruct (find_each_returns s fuel substrings Hne Hf [])
      as (found & -> & _). eauto.
Qed.

Lemma find_all_returns_unless_empty_substring_witness :
  Match.find_all 1000 (CStr "abcabc") ["bc"; ""] = None /\
  exists result, Match.find_all 8 (CStr "abcabc") ["bc"; "a"] = Some result.
Proof.
  split.
  - apply (find_all_returns_unless_empty_substring 1000 "abcabc" ["bc"; ""]).
    simpl. tauto.
  - apply (find_all_returns_unless_empty_substring 8 "abcabc" ["bc"; "a"]).
    + simpl. intros [H|[H|[]]]; discriminate.
    + simpl. lia.
Defined.

Lemma find_loop_sound s sub fuel :
  forall start indices result,
  0 <= start ->
  Match.find_loop fuel s sub start indices = Some result ->
  exists found,
    result = indices ++ found /\
    Forall (fun hit => occurs_at s hit /\ snd hit = sub) found /\
    (found = [] -> String.index (Z.to_nat start) sub s = None).
Proof.
  induction fuel as [|fuel IH]; intros start indices result Hs; [done|].
  cbn [Match.find_loop]. unfold Match.find.
  destruct (String.index (Z.to_nat start) sub s) as [m|] eqn:E.
  - assert ((Z.of_nat m =? -1) = false) as -> by (apply Z.eqb_neq; lia).
    intros H. apply IH in H as (found & -> & HF & _); [|lia].
    exists ((Z.of_nat m, sub) :: found). rewrite <- app_assoc.
    split; [reflexivity|]. split; [|done].
    constructor; [|exact HF]. split; [|reflexivity].
    split; [cbn; lia|]. cbn [fst snd]. rewrite Nat2Z.id.
    eapply String.index_correct1. exact E.
  - intros [= <-]. exists []. rewrite app_nil_r. repeat split; done.
Qed.

Lemma find_each_sound s fuel subs :
  forall indices result,
  Match.find_each fuel s subs indices = Some result ->
  exists found,
    result = indices ++ found /\
    Forall (fun hit => occurs_at s hit /\ In (snd hit) subs) found /\
    (found = [] -> forall sub, In sub subs -> String.index 0 sub s = None).
Proof.
  induction subs as [|sub rest IH]; intros indices result.
  - intros [= <-]. exists []. rewrite app_nil_r. repeat split; [constructor|done].
  - cbn [Match.find_each].
    destruct (Match.find_loop fuel s sub 0 indices) as [r1|] eqn:E1; [|done].
    apply find_loop_sound in E1 as (f1 & -> & H1 & N1); [|lia].
    intros H. apply IH in H as (f2 & -> & H2 & N2).
    rewrite <- app_assoc. exists (f1 ++ f2).
    split; [reflexivity|]. split.
    + apply Forall_app. split.
      * eapply Forall_impl; [exact H1|]. intros hit [Ho ->]. split; [done|].
        left. done.
      * eapply Forall_impl; [exact H2|]. intros hit [Ho Hin]. split; [done|].
        right. done.
    + intros Hnil. apply app_eq_nil in Hnil as [-> ->].
      intros sub' [<-|Hin]; [apply N1; done|apply N2; done].
Qed.

Lemma insert_Forall (P : Z * string -> Prop) x l :
  P x -> Forall P l -> Forall P (Match.insert x l).
Proof.
  intros Hx. induction 1 as [|y l Hy Hl IH]; cbn [Match.insert].
  - constructor; [done|constructor].
  - destruct (Match.tuple_leb x y); repeat constructor; done.
Qed.

Lemma sorted_Forall (P : Z * string -> Prop) l :
  Forall P l -> Forall P (Match.sorted l).
Proof.
  unfold Match.sorted. induction 1 as [|x l Hx Hl IH]; cbn [foldr].
  - constructor.
  - apply insert_Forall; done.
Qed.

Lemma insert_not_nil x l : Match.insert x l <> [].
Proof. destruct l as [|y l]; cbn; [done|]. destruct (Match.tuple_leb x y); done. Qed.

(** What [find_all] returns for a string.  When it returns [None], none
    of the substrings is part of the string.  When it returns a list, the
    list is not empty, and every entry (index, substring) names one of the
    substrings and an index of the string at which that substring
    begins. *)
Theorem find_all_hits_are_occurrences fuel s substrings result :
  Match.find_all fuel (CStr s) substrings = Some result ->
  match result with
  | None => forall sub, In sub substrings -> String.index 0 sub s = None
  | Some indices =>
      indices <> [] /\
      Forall (fun hit => occurs_at s hit /\ In (snd hit) substrings) indices
  end.
Proof.
  unfold Match.find_all.
  destruct (existsb _ substrings) eqn:E.
  - destruct (Match.find_each fuel s substrings []) as [r|] eqn:E1; [|done].
    intros [= <-].
    apply find_each_sound in E1 as (found & -> & HF & N). cbn [app] in *.
    split; [|apply sorted_Forall, HF].
    destruct found as [|x found]; [|apply insert_not_nil].
    exfalso. apply existsb_exists in E as (sub & Hin & Hc).
    cbn in Hc. rewrite (N eq_refl sub Hin) in Hc. done.
  - intros [= <-]. intros sub Hin.
    destruct (String.index 0 sub s) eqn:Hi; [|done]. exfalso.
    assert (existsb (fun sub => Match.contains sub (CStr s)) substrings = true);
      [|congruence].
    apply existsb_exists. exists sub. split; [done|]. cbn. rewrite Hi. done.
Qed.

Lemma find_all_hits_are_occurrences_witness :
  [(0, "a"); (1, "bc"); (3, "a"); (4, "bc")] <> [] /\
  Forall (fun hit => occurs_at "abcabc" hit /\ In (snd hit) ["bc"; "a"])
         [(0, "a"); (1, "bc"); (3, "a"); (4, "bc")].
Proof.
  apply (find_all_hits_are_occurrences 8 "abcabc" ["bc"; "a"]
           (Some [(0, "a"); (1, "bc"); (3, "a"); (4, "bc")])).
  vm_compute. reflexivity.
Defined.

(** ** The drama corpus: the query *)

Lemma select_nil {A} (eqb : A -> A -> bool) key t :
  DramaCorpus.select eqb key [] t = [].
Proof.
  assert (Hw : forall e, DramaCorpus.is_wanted eqb key [] e = false)
    by (intros e; unfold DramaCorpus.is_wanted; destruct (key e); done).
  unfold DramaCorpus.select.
  induction (filter (fun e => DramaCorpus.has key e) t) as [|e l IH]; [done|].
  rewrite filter_cons, decide_False; [exact IH|]. rewrite Hw. intros [].
Qed.

Lemma select_of_nil {A} (eqb : A -> A -> bool) key wanted :
  DramaCorpus.select eqb key wanted [] = [].
Proof. reflexivity. Qed.

Lemma parse_query_empty_list self t :
  DramaCorpus.act self = Some [] \/ DramaCorpus.scene self = Some [] \/
  DramaCorpus.speaker self = Some [] ->
  DramaCorpus.parse_query self t
  = (if DramaCorpus.merge self then DramaCorpus.Text ""
     else DramaCorpus.Speeches []).
Proof.
  intros H. unfold DramaCorpus.parse_query.
  destruct self as [b pp a sc sp m ct].
  cbn [DramaCorpus.act DramaCorpus.scene DramaCorpus.speaker DramaCorpus.merge]
    in *.
  cbv zeta. destruct H as [H|[H|H]]; subst.
  - rewrite select_nil.
    destruct sc, sp; rewrite ?select_of_nil; reflexivity.
  - rewrite select_nil. destruct sp; rewrite ?select_of_nil; reflexivity.
  - rewrite select_nil. reflexivity.
Qed.

Lemma drama_set_params_fields p kw self :
  DramaCorpus.act (run (DramaCorpus.set_params p kw) self)
    = DramaCorpus.keep_or (DramaCorpus.act self) (DramaCorpus.p_act p) /\
  DramaCorpus.scene (run (DramaCorpus.set_params p kw) self)
    = DramaCorpus.keep_or (DramaCorpus.scene self) (DramaCorpus.p_scene p) /\
  DramaCorpus.speaker (run (DramaCorpus.set_params p kw) self)
    = DramaCorpus.keep_or (DramaCorpus.speaker self) (DramaCorpus.p_speaker p) /\
  DramaCorpus.corpus_tokenize (run (DramaCorpus.set_params p kw) self)
    = match kw_tokenize kw with
      | Some true => true
      | _ => DramaCorpus.corpus_tokenize self
      end /\
  tokenize (DramaCorpus.base (run (DramaCorpus.set_params p kw) self))
    = match kw_tokenize kw with
      | Some false => Some false
      | _ => tokenize (DramaCorpus.base self)
      end.
Proof.
  unfold run, DramaCorpus.set_params, DramaCorpus.super, BOWCorpus.set_params.
  destruct self as [b pp a sc sp m ct]. destruct kw as [tok ? ? ? ?].
  munfold. cbn. destruct tok as [[]|]; cbn; done.
Qed.

(** Unless acts, scenes and speakers have all been chosen, a drama corpus
    serves no text.  The three lists start empty and each is a filter that
    is always applied: after [DramaCorpus(parser)] and a call of
    [set_params] that leaves out [act], [scene] or [speaker], the query on
    any parsed play gives the empty string, or no speech at all when
    [merge] is off. *)
Theorem unset_query_serves_nothing tk parser p kw t :
  DramaCorpus.p_act p = None \/ DramaCorpus.p_scene p = None \/
  DramaCorpus.p_speaker p = None ->
  let self := run (DramaCorpus.set_params p kw) (DramaCorpus.init tk parser) in
  DramaCorpus.parse_query self t
  = (if DramaCorpus.merge self then DramaCorpus.Text ""
     else DramaCorpus.Speeches []).
Proof.
  intros H self. apply parse_query_empty_list.
  destruct (drama_set_params_fields p kw (DramaCorpus.init tk parser))
    as (Ha & Hsc & Hsp & _).
  fold self in Ha, Hsc, Hsp. rewrite Ha, Hsc, Hsp.
  destruct H as [H|[H|H]]; rewrite H; cbn; tauto.
Qed.

Lemma unset_query_serves_nothing_witness :
  DramaCorpus.parse_query
    (run (DramaCorpus.set_params
            (DramaCorpus.mk_params (Some [1]) (Some [1]) None None) no_kwargs)
       (DramaCorpus.init Scenario.default_tokenizer Sample.no_parser))
    Sample.scene_one
  = DramaCorpus.Text "".
Proof.
  apply (unset_query_serves_nothing Scenario.default_tokenizer Sample.no_parser
           (DramaCorpus.mk_params (Some [1]) (Some [1]) None None) no_kwargs
           Sample.scene_one).
  right. right. reflexivity.
Defined.

Lemma drama_reachable_inv tk parser self :
  drama_reachable tk parser self ->
  (exists acts scenes speakers,
     DramaCorpus.act self = Some acts /\ DramaCorpus.scene self = Some scenes /\
     DramaCorpus.speaker self = Some speakers) /\
  tokenize (DramaCorpus.base self) = Some false.
Proof.
  induction 1 as [|self p kw _ [(acts & scenes & speakers & Ha & Hsc & Hsp) Ht]].
  - split; [|reflexivity]. exists [], [], []. done.
  - destruct (drama_set_params_fields p kw self) as (Ea & Esc & Esp & _ & Et).
    rewrite Ea, Esc, Esp, Et, Ha, Hsc, Hsp, Ht. split.
    + destruct (DramaCorpus.p_act p), (DramaCorpus.p_scene p),
        (DramaCorpus.p_speaker p); cbn; eexists _, _, _; done.
    + destruct (kw_tokenize kw) as [[]|]; reflexivity.
Qed.

Lemma select_as_filter {A} (eqb : A -> A -> bool) key wanted t :
  DramaCorpus.select eqb key wanted t
  = filter (fun e => DramaCorpus.is_wanted eqb key wanted e) t.
Proof.
  unfold DramaCorpus.select. rewrite list_filter_filter.
  apply list_filter_iff. intros e. split; [tauto|]. intros H. split; [done|].
  unfold DramaCorpus.is_wanted in H. unfold DramaCorpus.has.
  destruct (key e); done.
Qed.

Lemma select_speeches acts scenes speakers t :
  DramaCorpus.select String.eqb DramaCorpus.e_speaker speakers
    (DramaCorpus.select Z.eqb DramaCorpus.e_scene scenes
       (DramaCorpus.select Z.eqb DramaCorpus.e_act acts
          (filter (fun e => is_speech e) t)))
  = DramaCorpus.select String.eqb DramaCorpus.e_speaker speakers
      (DramaCorpus.select Z.eqb DramaCorpus.e_scene scenes
         (DramaCorpus.select Z.eqb DramaCorpus.e_act acts t)).
Proof.
  rewrite !select_as_filter, !list_filter_filter.
  apply list_filter_iff. intros e. split; [tauto|].
  intros [[H1 H2] H3]. repeat split; try done.
  unfold is_speech, DramaCorpus.is_wanted, DramaCorpus.has in *.
  destruct (DramaCorpus.e_act e), (DramaCorpus.e_scene e),
    (DramaCorpus.e_speaker e); done.
Qed.

(** A drama corpus serves speeches only.  However a corpus has been
    configured, the query gives the same result when every entry of the
    play that lacks an act, a scene or a speaker is taken away first: the
    locations and stage directions of a play are never served. *)
Theorem only_speeches_are_served tk parser self t :
  drama_reachable tk parser self ->
  DramaCorpus.parse_query self t
  = DramaCorpus.parse_query self (filter (fun e => is_speech e) t).
Proof.
  intros Hr.
  destruct (drama_reachable_inv _ _ _ Hr)
    as [(acts & scenes & speakers & Ha & Hsc & Hsp) _].
  unfold DramaCorpus.parse_query. rewrite Ha, Hsc, Hsp. cbv zeta.
  rewrite select_speeches. reflexivity.
Qed.

Lemma only_speeches_are_served_witness :
  DramaCorpus.parse_query
    (run (DramaCorpus.set_params
            (DramaCorpus.mk_params (Some [1]) (Some [1])
               (Some ["ROMEO"; "JULIET"]) None) no_kwargs)
       (DramaCorpus.init Scenario.default_tokenizer Sample.no_parser))
    Sample.scene_one
  = DramaCorpus.Text "But soft Ay me".
Proof.
  etransitivity.
  - apply (only_speeches_are_served Scenario.default_tokenizer Sample.no_parser).
    apply drama_set_params, drama_init.
  - reflexivity.
Defined.

(** Tokenization of a drama corpus can be turned on, not off.  The corpus
    store below a drama corpus has [tokenize] at [False] however the corpus
    is configured, since [tokenize=True] is kept by the drama corpus and
    not passed up; and once it has been kept, no call of [set_params],
    [tokenize=False] included, takes it back. *)
Theorem drama_tokenize_stays_on tk parser self p kw :
  drama_reachable tk parser self ->
  tokenize (DramaCorpus.base self) = Some false /\
  (DramaCorpus.corpus_tokenize self = true ->
   DramaCorpus.corpus_tokenize (run (DramaCorpus.set_params p kw) self) = true).
Proof.
  intros Hr. split; [apply (drama_reachable_inv _ _ _ Hr)|].
  intros Hc. destruct (drama_set_params_fields p kw self) as (_ & _ & _ & -> & _).
  rewrite Hc. destruct (kw_tokenize kw) as [[]|]; reflexivity.
Qed.

Lemma drama_tokenize_stays_on_witness :
  DramaCorpus.corpus_tokenize
    (run (DramaCorpus.set_params DramaCorpus.no_params
            (mk_kwargs (Some false) None None None None))
       (run (DramaCorpus.set_params DramaCorpus.no_params
               (mk_kwargs (Some true) None None None None))
          (DramaCorpus.init Scenario.default_tokenizer Sample.no_parser)))
  = true.
Proof.
  apply (drama_tokenize_stays_on Scenario.default_tokenizer Sample.no_parser
           (run (DramaCorpus.set_params DramaCorpus.no_params
                   (mk_kwargs (Some true) None None None None))
              (DramaCorpus.init Scenario.default_tokenizer Sample.no_parser))
           DramaCorpus.no_params (mk_kwargs (Some false) None None None None)).
  - apply drama_set_params, drama_init.
  - reflexivity.
Defined.

(** ** The command line *)

Lemma store_Forall (P : string * CliParse.value -> Prop) args arg v :
  Forall P args -> P (arg, v) ->
  (forall k old, P (k, old) -> String.eqb k arg = true -> P (k, v)) ->
  Forall P (CliParse.store args arg v).
Proof.
  intros Ha Hv Hk. induction Ha as [|[k old] rest Hx Hrest IH]; cbn.
  - constructor; [done|constructor].
  - destruct (String.eqb k arg) eqn:E.
    + constructor; [eapply Hk; eauto|done].
    + constructor; done.
Qed.

Lemma lookup_Forall (P : CliParse.value -> Prop) args arg v :
  Forall (fun kv => P (snd kv)) args -> CliParse.lookup args arg = Some v -> P v.
Proof.
  induction 1 as [|[k old] rest Hx Hrest IH]; cbn; [done|].
  destruct (String.eqb k arg); [intros [= <-]; done|exact IH].
Qed.

Lemma add_plain keys args arg val :
  Forall (fun kv => plain_value (snd kv)) args -> plain val = true ->
  Forall (fun kv => plain_value (snd kv)) (CliParse.add keys args arg val).
Proof.
  intros Ha Hv. unfold CliParse.add.
  set (k := match CliParse.short_keys keys arg with
            | Some k => k | None => arg end).
  destruct (CliParse.lookup args k) as [[s|l]|] eqn:E.
  - pose proof (lookup_Forall plain_value _ _ _ Ha E) as Hs. cbn in Hs.
    apply store_Forall; [done| |intros; cbn]; cbn;
      (split; [repeat constructor; done|lia]).
  - pose proof (lookup_Forall plain_value _ _ _ Ha E) as [Hl Hn].
    assert (plain_value (CliParse.Many (l ++ [val]))).
    { split; [apply Forall_app; split; [done|repeat constructor; done]|].
      rewrite length_app. lia. }
    apply store_Forall; done.
  - apply store_Forall; done.
Qed.

Lemma scan_plain help keys rest :
  forall args result,
  Forall (fun kv => plain_value (snd kv)) args ->
  CliParse.scan help keys rest args = Ok result ->
  Forall (fun kv => plain_value (snd kv)) result.
Proof.
  induction rest as [|cur rest IH]; intros args result Ha; cbn [CliParse.scan].
  - intros [= <-]. exact Ha.
  - destruct (CliParse.starts_with_dash cur) as [[]|]; [| |done].
    + destruct (_ || _); [destruct help; done|].
      destruct (_ || _); [done|].
      destruct rest as [|next rest']; [apply IH; done|].
      destruct (CliParse.starts_with_dash next) as [[]|] eqn:En; [| |done].
      * apply IH. done.
      * destruct (String.eqb next "") eqn:Ee; [apply IH; done|].
        apply IH. apply add_plain; [done|].
        destruct next as [|c next']; [done|]. cbn in En.
        injection En as En. cbn. rewrite En. done.
    + apply IH. done.
Qed.

(** A value on the command line never starts with a dash.  Whatever the
    arguments and the keys, when [parse_argv] returns, every value of its
    dict is a string that is not empty and does not start with a dash, or a
    list of at least two such strings: an option followed by an argument
    with a leading dash, a negative number for one, is left out of the
    dict. *)
Theorem option_values_are_plain help argv keys args :
  CliParse.parse_argv help argv keys = Ok args ->
  Forall (fun kv => plain_value (snd kv)) args.
Proof.
  unfold CliParse.parse_argv.
  destruct argv as [|prog [|first rest]].
  - intros [= <-]. constructor.
  - apply scan_plain. constructor.
  - apply scan_plain. constructor.
Qed.

Lemma option_values_are_plain_witness :
  Forall (fun kv => plain_value (snd kv))
    [("csv", CliParse.Many ["a.csv"; "b.csv"]); ("n", CliParse.One "5")].
Proof.
  apply (option_values_are_plain None
           ["prog"; "-c"; "a.csv"; "--shift"; "-3"; "-c"; "b.csv"; "-n"; "5"]
           [("csv", Some "c"); ("outcsv", Some "o")]).
  vm_compute. reflexivity.
Defined.

Lemma exit_flag_scan help keys flag post args :
  exit_flag flag = true ->
  exists e, CliParse.scan help keys (flag :: post) args = Raise e /\
            (e = SystemExit \/ help = Some e).
Proof.
  intros H. destruct flag as [|c flag]; [done|].
  cbn [exit_flag] in H. apply andb_true_iff in H as [Hc H].
  cbn [CliParse.scan CliParse.starts_with_dash]. rewrite Hc.
  destruct (String.eqb (CliParse.lstrip_dash (String c flag)) "h"
            || String.eqb (CliParse.lstrip_dash (String c flag)) "help") eqn:E1.
  - destruct help as [e|]; eauto.
  - rewrite orb_false_l in H. rewrite H. eauto.
Qed.

Lemma scan_exits help keys pre :
  forall flag post args,
  Forall (fun s => s <> EmptyString) pre -> exit_flag flag = true ->
  exists e, CliParse.scan help keys (pre ++ flag :: post) args = Raise e /\
            (e = SystemExit \/ help = Some e).
Proof.
  induction pre as [|cur pre IH]; intros flag post args Hpre Hflag.
  - apply exit_flag_scan, Hflag.
  - apply Forall_cons in Hpre as [Hcur Hpre].
    destruct (exit_flag cur) eqn:Ecur.
    { apply (exit_flag_scan help keys cur (pre ++ flag :: post) args Ecur). }
    change ((cur :: pre) ++ flag :: post) with (cur :: (pre ++ flag :: post)).
    cbn [CliParse.scan].
    destruct cur as [|c cur']; [done|]. cbn [CliParse.starts_with_dash].
    destruct (Ascii.eqb c "-") eqn:Hc; [|apply IH; done].
    cbn [exit_flag] in Ecur. rewrite Hc in Ecur. cbn [andb] in Ecur.
    apply orb_false_iff in Ecur as [Ecur E4].
    apply orb_false_iff in Ecur as [Ecur E3].
    apply orb_false_iff in Ecur as [E1 E2].
    rewrite E1, E2, E3, E4. cbn [orb].
    assert (Hnext : exists next rest', pre ++ flag :: post = next :: rest' /\
                      next <> EmptyString).
    { destruct pre as [|n pre']; cbn.
      - exists flag, post. split; [done|]. destruct flag; done.
      - apply Forall_cons in Hpre as [Hn _]. eauto. }
    destruct Hnext as (next & rest' & E & Hn).
    rewrite E. destruct next as [|c' next']; [done|].
    cbn [CliParse.starts_with_dash]. rewrite <- E.
    destruct (Ascii.eqb c' "-"); cbn [String.eqb]; [apply IH; done|].
    apply IH; done.
Qed.

(** A request for help or for the version ends the parse wherever it
    stands.  When one argument after the command is dashes followed by h,
    help, v or version, and no argument before it is the empty string,
    [parse_argv] returns no dict: it exits (SystemExit), or ends with the
    exception that laying out the help text raised.  A command without
    arguments is treated as a request for help. *)
Theorem help_or_version_ends_the_parse help keys prog pre flag post :
  Forall (fun s => s <> EmptyString) pre -> exit_flag flag = true ->
  (exists e, CliParse.parse_argv help (prog :: pre ++ flag :: post) keys = Raise e /\
             (e = SystemExit \/ help = Some e)) /\
  (exists e, CliParse.parse_argv help [prog] keys = Raise e /\
             (e = SystemExit \/ help = Some e)).
Proof.
  intros Hpre Hflag. split.
  - unfold CliParse.parse_argv.
    destruct (pre ++ flag :: post) as [|first rest] eqn:E.
    { destruct pre; done. }
    rewrite <- E. apply scan_exits; done.
  - unfold CliParse.parse_argv. apply (exit_flag_scan help keys "-h" [] []).
    reflexivity.
Qed.

Lemma help_or_version_ends_the_parse_witness :
  exists e,
    CliParse.parse_argv None ["prog"; "-c"; "a.csv"; "x"; "--version"; "-n"; "5"]
      [("csv", Some "c")] = Raise e /\
    (e = SystemExit \/ None = Some e).
Proof.
  apply (help_or_version_ends_the_parse None [("csv", Some "c")] "prog"
           ["-c"; "a.csv"; "x"] "--version" ["-n"; "5"]).
  - repeat constructor; discriminate.
  - reflexivity.
Defined.

(** ** The chunking engine: rounding *)

Lemma spread_floats text_len s0 srest t0 trest final :
  last (t0 :: trest) = Some final ->
  truthy (VFloat (true_div (text_len - final)
                    (Z.of_nat (length (s0 :: srest))))) = true ->
  exists f y more,
    spread text_len (s0 :: srest) (t0 :: trest) = Ok ((NFloat f, y) :: more).
Proof.
  intros Hlast Ht. unfold spread. rewrite Hlast. cbv zeta. rewrite Ht.
  cbn [map enumerate imap].
  match goal with |- context [negb ?b] => destruct (negb b) end;
    cbn [map enumerate imap zip zip_with num_add num_mul].
  - match goal with |- context [Z.ltb ?a ?b] => destruct (Z.ltb a b) end;
      cbn [num_add]; eauto.
  - eauto.
Qed.

Lemma chunk_emit_float {A} label (text : list A) n f y more :
  chunk_emit label text n ((NFloat f, y) :: more) = ([], Some TypeError).
Proof. reflexivity. Qed.

Lemma last_map_seq (f : nat -> Z) n :
  last (map f (seq 0 (S n))) = Some (f n).
Proof.
  rewrite seq_S, map_app. cbn [map]. apply last_snoc.
Qed.

(** Rounding never yields a chunk when there is something to round.  For
    a text of at least one chunk, not chunked before, with the overlap
    below the chunk size and [roundedsize] truthy: when the share of the
    words left over per chunk, [n_leftover / len(starts)], is not the float
    0.0, the boundaries become floats, and [chunk_text] raises TypeError at
    the first slice without yielding anything. *)
Theorem rounding_raises_TypeError {A} (self : ChunkCorpus.obj) label
    (text : list A) index cis c o :
  chunkindices self = Some cis -> cis !! index = Some None ->
  resolve_chunksize self (Z.of_nat (length text)) = Ok (Some c) ->
  resolve_overlap self (Some c) = Ok (Some o) ->
  truthy (roundedsize self) = true ->
  0 < c <= Z.of_nat (length text) -> o < c ->
  let step := c - o in
  let n := (Z.of_nat (length text) - c) / step + 1 in
  let n_leftover := Z.of_nat (length text) - ((n - 1) * step + c) in
  truthy (VFloat (true_div n_leftover n)) = true ->
  fst (chunk_text label text index self) = ([], Some TypeError).
Proof.
  intros Hc Hi Hcs Ho Hr [Hpos Hle] Hov step n n_leftover Hf.
  assert (Ht : text <> []) by (destruct text; [cbn in Hle; lia|done]).
  assert (Hlt : (index < length cis)%nat) by (eapply lookup_lt_Some; eauto).
  assert (Hstep : 0 < step) by (subst step; lia).
  assert (Hn : 1 <= n).
  { subst n. assert (0 <= (Z.of_nat (length text) - c) / step)
      by (apply Z.div_pos; lia). lia. }
  unfold chunk_text. rewrite (item_ok _ _ _ _ _ _ Hc Hi).
  unfold chunk_compute. rewrite (text_len_nonzero _ Ht). mred.
  rewrite Hcs, Ho.
  assert ((c >? Z.of_nat (length text)) = false) as ->.
  { destruct (Z.gtb_spec c (Z.of_nat (length text))); [lia|done]. }
  unfold boundaries.
  assert ((if negb (o =? 0) then c - o else c) = step) as ->.
  { subst step. destruct (Z.eqb_spec o 0); cbn; lia. }
  unfold range.
  assert ((step =? 0) = false) as -> by (apply Z.eqb_neq; lia).
  assert ((0 <? step) = true) as -> by (apply Z.ltb_lt; lia).
  rewrite Hr.
  assert (Z.to_nat ((Z.of_nat (length text) - c + 1 - 0 + step - 1) / step)
          = S (Z.to_nat (n - 1))) as ->.
  { subst n.
    replace (Z.of_nat (length text) - c + 1 - 0 + step - 1)
      with (Z.of_nat (length text) - c + 1 * step) by lia.
    rewrite Z.div_add by lia.
    assert (0 <= (Z.of_nat (length text) - c) / step)
      by (apply Z.div_pos; lia).
    lia. }
  set (starts := map (fun k => 0 + Z.of_nat k * step) (seq 0 (S (Z.to_nat (n - 1))))).
  assert (Hlen : Z.of_nat (length starts) = n).
  { subst starts. rewrite length_map, length_seq. lia. }
  assert (Hlast : last (map (fun s => s + c) starts)
                  = Some ((n - 1) * step + c)).
  { subst starts. rewrite map_map, last_map_seq.
    rewrite Z2Nat.id by lia. f_equal; lia. }
  destruct starts as [|s0 srest] eqn:Es; [cbn in Hlen; lia|].
  cbn [map] in Hlast |- *.
  destruct (spread_floats (Z.of_nat (length text)) s0 srest (s0 + c)
              (map (fun s => s + c) srest) _ Hlast) as (f & y & more & ->).
  { rewrite Hlen. exact Hf. }
  rewrite (set_item_ok _ _ _ _ _ _ _ Hc Hlt).
  erewrite item_ok; [|cbn; reflexivity|apply list_lookup_insert_eq; done].
  reflexivity.
Qed.

Lemma rounding_raises_TypeError_witness :
  fst (chunk_text "a" Scenario.sonnet_words 0
         (Scenario.engine Scenario.default_tokenizer Scenario.no_match
            [("a", CToks Scenario.sonnet_words)]
            (mk_params (VInt 4) VNone (VInt 2) (VBool true) VNone VNone)))
  = ([], Some TypeError).
Proof.
  apply (rounding_raises_TypeError
           (Scenario.engine Scenario.default_tokenizer Scenario.no_match
              [("a", CToks Scenario.sonnet_words)]
              (mk_params (VInt 4) VNone (VInt 2) (VBool true) VNone VNone))
           "a" Scenario.sonnet_words 0%nat [None] 4 2); try reflexivity.
  simpl. lia.
Defined.

(** ** The laws behind the examples, at the inputs of the examples *)

Lemma upscale_raises_TypeError_witness :
  chunk_text "s" Scenario.three 0
    (Scenario.small_engine Scenario.default_tokenizer Scenario.no_match
       VNone (VBool true))
  = (([], Some TypeError),
     Scenario.small_engine Scenario.default_tokenizer Scenario.no_match
       VNone (VBool true)).
Proof.
  apply (upscale_raises_TypeError
           (Scenario.small_engine Scenario.default_tokenizer Scenario.no_match
              VNone (VBool true))
           "s" Scenario.three 0%nat [None] 10 (Some 0)); try reflexivity.
  discriminate.
Defined.

Lemma process_text_opens_witness :
  opened (snd (process_text Scenario.one_file 0 "third" (CStr "third.txt")
                 (Scenario.file_corpus false)))
  = ["third.txt"].
Proof.
  apply (process_text_opens Scenario.one_file 0%nat "third" "third.txt"
           (Scenario.file_corpus false)).
  reflexivity.
Defined.

Lemma fit_unmatched_pattern_witness :
  BOWCorpus.fit Scenario.no_match (SrcPattern "data/*.txt") true
    (BOWCorpus.init Scenario.default_tokenizer)
  = (Raise IndexError,
     with_filenames true (BOWCorpus.init Scenario.default_tokenizer)).
Proof.
  apply (fit_unmatched_pattern Scenario.no_match "data/*.txt" true
           (BOWCorpus.init Scenario.default_tokenizer)).
  - discriminate.
  - reflexivity.
Defined.
